(** * The blob-cache transport of containers/buildah (pkg/blobcache)

    A shallow embedding of [blobcache.go]: the content addresser
    [makeFilename], the transport's [ParseReference], the cached reference
    ([NewBlobCache], [StringWithinTransport], [HasBlob], [Directories]), the
    cached source ([GetManifest], [GetBlob]) and the cached destination
    ([PutBlob], [HasBlob], [ReapplyBlob], [PutManifest]), over an explicit
    model of the file system calls the Go code makes. *)

From Stdlib Require Import ZArith String Ascii List Bool Lia.
From Stdlib Require Import Strings.Byte.
From stdpp Require Import gmap strings list fin_maps.

Local Open Scope Z_scope.
Local Open Scope string_scope.
Local Open Scope list_scope.

(** ** Errors *)

(** The [errno] values the model distinguishes. Only [ENOENT] is
    recognised by [os.IsNotExist]. *)
Inductive errno := ENOENT | EACCES | EEXIST | EIO | ENOSPC | EROFS.

(** Go [error] values. [PathError] and [LinkError] are the errors of package
    [os]; [WithMessage] is what [errors.Wrapf] of github.com/pkg/errors
    builds and [Errorf] is [errors.Errorf] (format and arguments kept apart
    instead of rendering [%q]); [ErrorString] is any other error, such as
    those of a collaborator. *)
Inductive error :=
| PathError (op path : string) (e : errno)
| LinkError (op old new : string) (e : errno)
| WithMessage (format : string) (args : list string) (cause : error)
| Errorf (format : string) (args : list string)
| ErrorString (msg : string).

(** A Go [error] interface value: [None] is [nil]. *)
Abbreviation err := (option error).

(** [errors.Wrapf]: "If err is nil, Wrapf returns nil." *)
Definition Wrapf (e : err) (format : string) (args : list string) : err :=
  match e with
  | None => None
  | Some c => Some (WithMessage format args c)
  end.

(** [os.IsNotExist]: looks through [*PathError] and [*LinkError] only, and
    is [false] on [nil]. *)
Definition IsNotExist (e : err) : bool :=
  match e with
  | Some (PathError _ _ ENOENT) => true
  | Some (LinkError _ _ _ ENOENT) => true
  | _ => false
  end.

(** ** Paths: [filepath.Clean] and [filepath.Join] (unix) *)

Module filepath.

(** The head component and the remaining components of a path cut at
    every ['/']. *)
Fixpoint cut (s : string) : string * list string :=
  match s with
  | EmptyString => (EmptyString, [])
  | String c s' =>
      let '(h, t) := cut s' in
      if Ascii.eqb c "/" then (EmptyString, h :: t) else (String c h, t)
  end.

Definition components (s : string) : list string :=
  let '(h, t) := cut s in h :: t.

Definition rooted (s : string) : bool :=
  match s with
  | String c _ => Ascii.eqb c "/"
  | EmptyString => false
  end.

(** One element of the path against the output so far, kept as a stack of
    elements with the last one first. Go's [Clean] keeps an index [dotdot]
    below which it may not backtrack; that index is the end of the leading
    run of [".."] elements, so "[out.w > dotdot]" is "the stack is not empty
    and its top is not [..]". *)
Definition step (root : bool) (stack : list string) (c : string) : list string :=
  if String.eqb c "" then stack
  else if String.eqb c "." then stack
  else if String.eqb c ".." then
    match stack with
    | top :: rest =>
        if String.eqb top ".." then ".." :: stack else rest
    | [] => if root then [] else [".."]
    end
  else c :: stack.

Fixpoint unwords (l : list string) : string :=
  match l with
  | [] => ""
  | [c] => c
  | c :: l' => c +:+ "/" +:+ unwords l'
  end.

Definition Clean (path : string) : string :=
  if String.eqb path "" then "."
  else
    let root := rooted path in
    let body := unwords (rev (fold_left (step root) (components path) [])) in
    if root then "/" +:+ body
    else if String.eqb body "" then "." else body.

(** [Join] of two elements: empty leading elements are dropped, the rest is
    joined with ['/'] and cleaned; all empty gives the empty string. *)
Definition Join (dir name : string) : string :=
  if String.eqb dir "" then
    if String.eqb name "" then "" else Clean name
  else Clean (dir +:+ "/" +:+ name).

End filepath.

(** ** The content addresser *)

(** [digest.Digest] is a string type; [String()] is the identity. *)
Module digest.
Definition Digest := string.
End digest.

Definition makeFilename (blobSum : digest.Digest) (isConfig : bool) : string :=
  if isConfig then blobSum +:+ ".config" else blobSum.

(** ** Values of package [types] *)

(** [types.BlobInfo]: the digest ([""] when unknown) and the size ([-1]
    when unknown). The remaining fields (URLs, annotations, media type) are
    never inspected by this package and travel with the value. *)
Record BlobInfo := {
  Digest : digest.Digest;
  Size : Z;
}.

(** An inner [types.ImageReference], as far as [transports.ImageName] sees
    it. *)
Record ImageReference := {
  TransportName : string;
  StringWithinTransport : string;
}.

Module transports.
Definition ImageName (ref : ImageReference) : string :=
  TransportName ref +:+ ":" +:+ StringWithinTransport ref.
End transports.

(** What an [io.Reader] delivers when it is read to its end: the bytes, then
    either [io.EOF] ([None]) or a read error. *)
Record stream := {
  data : list byte;
  rderr : err;
}.

(** ** Slices of strings *)

(** A Go slice: a window [off, off+len) into a backing array that lives in
    the heap. Two slices alias when they share the array. *)
Definition loc := nat.

Record slice := {
  arr : loc;
  off : nat;
  len : nat;
}.

(** The zero-length slice literal [[]string{}]. *)
Definition empty_slice : slice := {| arr := 0%nat; off := 0; len := 0 |}.

Definition contents (h : gmap loc (list string)) (s : slice) : list string :=
  match h !! arr s with
  | Some a => take (len s) (drop (off s) a)
  | None => []
  end.

(** [s[i] = v]; [None] is the index-out-of-range panic. *)
Definition store (h : gmap loc (list string)) (s : slice) (i : nat) (v : string)
  : option (gmap loc (list string)) :=
  if decide (i < len s)%nat then
    match h !! arr s with
    | Some a => Some (<[arr s := <[(off s + i)%nat := v]> a]> h)
    | None => None
    end
  else None.

(** [append([]string{}, xs...)]: nothing to append returns the empty slice
    itself; otherwise a new backing array is allocated and filled. *)
Definition append_to_empty (h : gmap loc (list string)) (xs : list string)
  : slice * gmap loc (list string) :=
  match xs with
  | [] => (empty_slice, h)
  | _ :: _ =>
      let l := fresh (dom h) in
      ({| arr := l; off := 0; len := length xs |}, <[l := xs]> h)
  end.

(** ** The world: heap, file system, environment, log and trace *)

Inductive syscall :=
| SysStat (path : string)
| SysOpen (path : string)
| SysReadFile (path : string)
| SysTempFile (dir prefix : string)
| SysRename (old new : string)
| SysRemove (path : string)
| SysClose (path : string).

(** What happened, in order: the calls into package [os], the bytes the tee
    wrote to the temporary file, and the calls to the wrapped source or
    destination. *)
Inductive event :=
| Sys (c : syscall)
| TeeWrite (path : string) (n : nat)
| DestPutBlob (info : BlobInfo) (isConfig : bool) (e : err)
| DestHasBlob (info : BlobInfo)
| DestReapplyBlob (info : BlobInfo)
| SrcGetManifest (instanceDigest : option digest.Digest)
| SrcGetBlob (info : BlobInfo).

(** A [logrus.Debugf] line: format, string arguments, and the error printed
    with [%v]. *)
Inductive log_entry :=
| Debugf (format : string) (args : list string) (cause : error).

Section World.

(** The state of the wrapped source or destination. *)
Context {I : Type}.

(** - [heap]: the backing arrays of string slices;
    - [fs]: the regular files, by cleaned path, with their bytes;
    - [faults]: the environment's verdict on each call into [os] ([None]:
      the call behaves as the file system says);
    - [tee_fault]: [(k, e)] makes the write to the temporary file fail with
      [e] once [k] bytes have been written;
    - [suffix]: the random suffix [ioutil.TempFile] draws next. *)
Record world := {
  heap : gmap loc (list string);
  fs : gmap string (list byte);
  faults : syscall -> option errno;
  tee_fault : option (nat * errno);
  suffix : string;
  log : list log_entry;
  trace : list event;
  inner : I;
}.

Definition set_heap (h : gmap loc (list string)) (w : world) : world :=
  {| heap := h; fs := fs w; faults := faults w; tee_fault := tee_fault w;
     suffix := suffix w; log := log w; trace := trace w; inner := inner w |}.

Definition set_fs (f : gmap string (list byte)) (w : world) : world :=
  {| heap := heap w; fs := f; faults := faults w; tee_fault := tee_fault w;
     suffix := suffix w; log := log w; trace := trace w; inner := inner w |}.

Definition set_inner (i : I) (w : world) : world :=
  {| heap := heap w; fs := fs w; faults := faults w; tee_fault := tee_fault w;
     suffix := suffix w; log := log w; trace := trace w; inner := i |}.

Definition emit (e : event) (w : world) : world :=
  {| heap := heap w; fs := fs w; faults := faults w; tee_fault := tee_fault w;
     suffix := suffix w; log := log w; trace := trace w ++ [e]; inner := inner w |}.

Definition logrus (l : log_entry) (w : world) : world :=
  {| heap := heap w; fs := fs w; faults := faults w; tee_fault := tee_fault w;
     suffix := suffix w; log := log w ++ [l]; trace := trace w; inner := inner w |}.

(** The state monad the operations run in. *)
Definition M (A : Type) : Type := world -> A * world.

Definition ret {A} (a : A) : M A := fun w => (a, w).

Definition bind {A B} (m : M A) (k : A -> M B) : M B :=
  fun w => let '(a, w') := m w in k a w'.

Definition modify (f : world -> world) : M unit := fun w => (tt, f w).

Definition get {A} (f : world -> A) : M A := fun w => (f w, w).

End World.

Arguments world : clear implicits.
Arguments M : clear implicits.

Declare Scope monad_scope.
Delimit Scope monad_scope with monad.
Notation "x <- m ;; k" := (bind m (fun x => k))
  (at level 100, m at next level, right associativity) : monad_scope.
Notation "m ;;; k" := (bind m (fun _ => k))
  (at level 100, right associativity) : monad_scope.
Local Open Scope monad_scope.

(** A [for ... range] loop whose body may [return]: [Some v] leaves the
    loop (and the function) with [v], [None] goes on to the next element. *)
Fixpoint range {I A R} (xs : list A) (body : A -> M I (option R)) : M I (option R) :=
  match xs with
  | [] => ret None
  | x :: xs' =>
      r <- body x ;;
      match r with
      | Some v => ret (Some v)
      | None => range xs' body
      end
  end.

(** A Go function either returns or panics (here: index out of range). *)
Inductive go_result (A : Type) :=
| Returns (a : A)
| Panics.
Arguments Returns {A} a.
Arguments Panics {A}.

Definition is_nil (e : err) : bool :=
  match e with None => true | Some _ => false end.

(** ** Packages [os] and [ioutil] *)

(** [os.FileInfo], as far as [Size()] goes. *)
Record FileInfo := { FileInfo_Size : Z }.

(** An open [*os.File]: its name and the bytes reading it delivers. *)
Record File := { Name : string; bytes : list byte }.

(** An open file handed out as an [io.ReadCloser]. *)
Definition ReadCloser (f : File) : stream :=
  {| data := bytes f; rderr := None |}.

Module os.
Section Calls.
Context {I : Type}.

(** [os.TempDir()] with [$TMPDIR] unset. *)
Definition TempDir : string := "/tmp".

(** What [os.Stat] answers in a world: the environment's refusal, or what
    the files say. *)
Definition stat_of (w : world I) (name : string) : option FileInfo * err :=
  match faults w (SysStat name), fs w !! name with
  | Some e, _ => (None, Some (PathError "stat" name e))
  | None, None => (None, Some (PathError "stat" name ENOENT))
  | None, Some c => (Some {| FileInfo_Size := Z.of_nat (length c) |}, None)
  end.

Definition Stat (name : string) : M I (option FileInfo * err) :=
  modify (emit (Sys (SysStat name))) ;;;
  get (fun w => stat_of w name).

(** What [os.Open] answers in a world. *)
Definition open_of (w : world I) (name : string) : option File * err :=
  match faults w (SysOpen name), fs w !! name with
  | Some e, _ => (None, Some (PathError "open" name e))
  | None, None => (None, Some (PathError "open" name ENOENT))
  | None, Some c => (Some {| Name := name; bytes := c |}, None)
  end.

Definition Open (name : string) : M I (option File * err) :=
  modify (emit (Sys (SysOpen name))) ;;;
  get (fun w => open_of w name).

(** [os.Rename]: the new name takes the file over, replacing what was
    there. *)
Definition Rename (oldpath newpath : string) : M I err :=
  modify (emit (Sys (SysRename oldpath newpath))) ;;;
  fault <- get (fun w => faults w (SysRename oldpath newpath)) ;;
  file <- get (fun w => fs w !! oldpath) ;;
  match fault, file with
  | Some e, _ => ret (Some (LinkError "rename" oldpath newpath e))
  | None, None => ret (Some (LinkError "rename" oldpath newpath ENOENT))
  | None, Some c =>
      modify (fun w => set_fs (<[newpath := c]> (delete oldpath (fs w))) w) ;;;
      ret None
  end.

Definition Remove (name : string) : M I err :=
  modify (emit (Sys (SysRemove name))) ;;;
  fault <- get (fun w => faults w (SysRemove name)) ;;
  file <- get (fun w => fs w !! name) ;;
  match fault, file with
  | Some e, _ => ret (Some (PathError "remove" name e))
  | None, None => ret (Some (PathError "remove" name ENOENT))
  | None, Some _ =>
      modify (fun w => set_fs (delete name (fs w)) w) ;;;
      ret None
  end.

Definition Close (f : File) : M I unit :=
  modify (emit (Sys (SysClose (Name f)))).

End Calls.
End os.

Module ioutil.
Section Calls.
Context {I : Type}.

(** What [ioutil.ReadFile] answers in a world. *)
Definition read_of (w : world I) (name : string) : list byte * err :=
  match faults w (SysReadFile name), fs w !! name with
  | Some e, _ => ([], Some (PathError "open" name e))
  | None, None => ([], Some (PathError "open" name ENOENT))
  | None, Some c => (c, None)
  end.

Definition ReadFile (filename : string) : M I (list byte * err) :=
  modify (emit (Sys (SysReadFile filename))) ;;;
  get (fun w => read_of w filename).

(** [ioutil.TempFile]: a new file [prefix ++ suffix] in [dir] (in
    [os.TempDir()] when [dir] is empty), opened with [O_CREATE|O_EXCL]. Go
    draws another suffix when the name is taken; the model draws once and
    reports [EEXIST]. *)
Definition tempfile_name (w : world I) (dir prefix : string) : string :=
  filepath.Join (if String.eqb dir "" then os.TempDir else dir) (prefix +:+ suffix w).

Definition tempfile_of (w : world I) (dir prefix : string) : option File * err :=
  let name := tempfile_name w dir prefix in
  match faults w (SysTempFile dir prefix), fs w !! name with
  | Some e, _ => (None, Some (PathError "open" name e))
  | None, Some _ => (None, Some (PathError "open" name EEXIST))
  | None, None => (Some {| Name := name; bytes := [] |}, None)
  end.

Definition TempFile (dir prefix : string) : M I (option File * err) :=
  modify (emit (Sys (SysTempFile dir prefix))) ;;;
  created <- get (fun w => tempfile_of w dir prefix) ;;
  match created with
  | (Some f, _) => modify (fun w => set_fs (<[Name f := []]> (fs w)) w) ;;; ret created
  | (None, _) => ret created
  end.

End Calls.
End ioutil.

Module io.
Section Calls.
Context {I : Type}.

(** What a reader of [io.TeeReader(r, tempfile)] sees in a world: the bytes
    of [r] that could be written to the file, then the write error if one
    struck, else whatever ends [r]. *)
Definition teed (w : world I) (r : stream) (name : string) : stream :=
  match tee_fault w with
  | Some (k, e) =>
      if (k <? length (data r))%nat
      then {| data := take k (data r); rderr := Some (PathError "write" name e) |}
      else r
  | None => r
  end.

Definition TeeReader (r : stream) (f : File) : M I stream :=
  get (fun w => teed w r (Name f)).

(** The tee's writes, once its reader has consumed [n] bytes: they are the
    file's bytes from then on. *)
Definition tee_written (r : stream) (f : File) (n : nat) : M I unit :=
  modify (emit (TeeWrite (Name f) (length (take n (data r))))) ;;;
  modify (fun w =>
    match fs w !! Name f with
    | Some _ => set_fs (<[Name f := take n (data r)]> (fs w)) w
    | None => w
    end).

End Calls.
End io.

Module strings.
Fixpoint Join (elems : list string) (sep : string) : string :=
  match elems with
  | [] => ""
  | [e] => e
  | e :: rest => e +:+ sep +:+ Join rest sep
  end.

(** The text before and after the first [sep], when there is one. *)
Fixpoint cut_at (sep : ascii) (s : string) : option (string * string) :=
  match s with
  | EmptyString => None
  | String c s' =>
      if Ascii.eqb c sep then Some (EmptyString, s')
      else
        match cut_at sep s' with
        | Some (a, b) => Some (String c a, b)
        | None => None
        end
  end.

(** [strings.SplitN(s, sep, n)] for [n >= 0] and [strings.Split(s, sep)],
    for a separator of one character, the only kind this package passes:
    at most [n] pieces, the last one being the unsplit rest. *)
Fixpoint SplitN (s : string) (sep : ascii) (n : nat) : list string :=
  match n with
  | O => []
  | S O => [s]
  | S n' =>
      match cut_at sep s with
      | Some (a, b) => a :: SplitN b sep n'
      | None => [s]
      end
  end.

Fixpoint Split (s : string) (sep : ascii) : list string :=
  match s with
  | EmptyString => [EmptyString]
  | String c s' =>
      if Ascii.eqb c sep then EmptyString :: Split s' sep
      else
        match Split s' sep with
        | h :: t => String c h :: t
        | [] => [String c EmptyString]
        end
  end.
End strings.

(** ** The wrapped transport *)

(** The inner [types.ImageDestination], as a transformer of its own state.
    [PutBlob] also says how many bytes of the stream it read. *)
Record ImageDestination (I : Type) := {
  dest_PutBlob : stream -> BlobInfo -> bool -> I -> (nat * BlobInfo * err) * I;
  dest_HasBlob : BlobInfo -> I -> (bool * Z * err) * I;
  dest_ReapplyBlob : BlobInfo -> I -> (BlobInfo * err) * I;
}.
Arguments dest_PutBlob {I}.
Arguments dest_HasBlob {I}.
Arguments dest_ReapplyBlob {I}.

(** The inner [types.ImageSource]. *)
Record ImageSource (I : Type) := {
  src_GetManifest : option digest.Digest -> I -> (list byte * string * err) * I;
  src_GetBlob : BlobInfo -> I -> (option stream * Z * err) * I;
}.
Arguments src_GetManifest {I}.
Arguments src_GetBlob {I}.

(** A call into the wrapped object: it runs on the [inner] state. *)
Definition call {I A} (f : I -> A * I) : M I A :=
  fun w => let '(a, i) := f (inner w) in (a, set_inner i w).

(** ** The cached reference *)

Module blobCacheTransport.
Definition Name : string := "blob-cache".
End blobCacheTransport.

Module blobCacheReference.

Record t := {
  reference : ImageReference;
  directories : slice;
}.

Section Methods.
Context {I : Type}.

(** [r.directories], read through the heap. *)
Definition load (s : slice) : M I (list string) :=
  get (fun w => contents (heap w) s).

(** [append([]string{}, s...)] *)
Definition copy (s : slice) : M I slice :=
  xs <- load s ;;
  fun w => let '(s', h) := append_to_empty (heap w) xs in (s', set_heap h w).

Definition StringWithinTransport (r : t) : M I string :=
  dirs <- load (directories r) ;;
  ret (strings.Join dirs "," +:+ ":" +:+ transports.ImageName (reference r)).

(** [transports.ImageName(r)] of the cached reference itself. *)
Definition ImageName (r : t) : M I string :=
  s <- StringWithinTransport r ;;
  ret (blobCacheTransport.Name +:+ ":" +:+ s).

(** The body of the two loops of [HasBlob]: one candidate file name. *)
Definition HasBlob_probe (blobinfo : BlobInfo) (directory : string) (isConfig : bool)
  : M I (option (bool * Z * err)) :=
  let filename := filepath.Join directory (makeFilename (Digest blobinfo) isConfig) in
  st <- os.Stat filename ;;
  let '(fileInfo, e) := st in
  match fileInfo with
  | Some fi =>
      if is_nil e && ((Size blobinfo =? -1)%Z || (Size blobinfo =? FileInfo_Size fi)%Z)
      then ret (Some (true, FileInfo_Size fi, None))
      else if negb (IsNotExist e)
      then ret (Some (false, -1, Wrapf e "error checking size of %q" [filename]))
      else ret None
  | None =>
      if negb (IsNotExist e)
      then ret (Some (false, -1, Wrapf e "error checking size of %q" [filename]))
      else ret None
  end.

Definition HasBlob (r : t) (blobinfo : BlobInfo) : M I (bool * Z * err) :=
  if String.eqb (Digest blobinfo) "" then ret (false, -1, None)
  else
    dirs <- load (directories r) ;;
    found <- range dirs (fun directory =>
      range [false; true] (fun isConfig => HasBlob_probe blobinfo directory isConfig)) ;;
    match found with
    | Some v => ret v
    | None => ret (false, -1, None)
    end.

Definition Directories (r : t) : M I slice :=
  copy (directories r).

End Methods.
End blobCacheReference.

Section Constructor.
Context {I : Type}.

Definition NewBlobCache (ref : ImageReference) (directories : slice)
  : M I (option blobCacheReference.t * err) :=
  if (len directories =? 0)%nat
  then ret (None, Some (Errorf "error building cache: no cache directory specified for %q"
                               [transports.ImageName ref]))
  else
    s <- blobCacheReference.copy directories ;;
    ret (Some {| blobCacheReference.reference := ref;
                 blobCacheReference.directories := s |}, None).

End Constructor.

Section Parsing.
Context {I : Type}.

(** [alltransports.ParseImageName] of containers/image: the reference a
    name stands for, or an error. *)
Variable ParseImageName : string -> ImageReference + error.

(** A slice over a new backing array, as [strings.Split] returns it. *)
Definition new_slice (xs : list string) : M I slice :=
  fun w =>
    let l := fresh (dom (heap w)) in
    ({| arr := l; off := 0; len := length xs |}, set_heap (<[l := xs]> (heap w)) w).

(** [ParseReference] of the transport. Of the [switch], the [default]
    branch returns; the statements after it belong to [case 2]. *)
Definition ParseReference (reference : string) : M I (option blobCacheReference.t * err) :=
  match strings.SplitN reference ":" 2 with
  | [dirs; realRef] =>
      split <- new_slice (strings.Split dirs ",") ;;
      first <- get (fun w => nth 0 (contents (heap w) split) "") ;;
      let directories :=
        if (len split =? 1)%nat && String.eqb first "" then empty_slice else split in
      match ParseImageName realRef with
      | inr e => ret (None, Wrapf (Some e) "error parsing reference %q" [realRef])
      | inl ref => NewBlobCache ref directories
      end
  | _ =>
      ret (None, Some (Errorf "error parsing reference for %q image %q: bad syntax"
                              [blobCacheTransport.Name; reference]))
  end.

End Parsing.

(** ** The cached source *)

Module blobCacheSource.

Record t (I : Type) := {
  reference : blobCacheReference.t;
  source : ImageSource I;
}.
Arguments reference {I}.
Arguments source {I}.

Section Methods.
Context {I : Type}.

(** [manifest.GuessMIMEType] of containers/image. *)
Variable GuessMIMEType : list byte -> string.

(** The body of the loop of [GetManifest]: one directory. *)
Definition GetManifest_probe (d : digest.Digest) (directory : string)
  : M I (option (list byte * string * err)) :=
  let filename := filepath.Join directory (makeFilename d false) in
  rd <- ioutil.ReadFile filename ;;
  let '(manifestBytes, e) := rd in
  if is_nil e
  then ret (Some (manifestBytes, GuessMIMEType manifestBytes, None))
  else if negb (IsNotExist e)
  then ret (Some ([], "", Wrapf e "error checking for manifest file %q" [filename]))
  else ret None.

(** The last statement of [GetManifest]: the wrapped source answers. *)
Definition GetManifest_delegate (s : t I) (instanceDigest : option digest.Digest)
  : M I (list byte * string * err) :=
  r <- call (src_GetManifest (source s) instanceDigest) ;;
  modify (emit (SrcGetManifest instanceDigest)) ;;;
  ret r.

Definition GetManifest (s : t I) (instanceDigest : option digest.Digest)
  : M I (list byte * string * err) :=
  found <-
    match instanceDigest with
    | Some d =>
        dirs <- blobCacheReference.load (blobCacheReference.directories (reference s)) ;;
        range dirs (fun directory => GetManifest_probe d directory)
    | None => ret None
    end ;;
  match found with
  | Some v => ret v
  | None => GetManifest_delegate s instanceDigest
  end.

(** The body of the two loops of [GetBlob]: one candidate file name;
    [size] is what [HasBlob] reported. *)
Definition GetBlob_probe (blobinfo : BlobInfo) (size : Z) (directory : string) (isConfig : bool)
  : M I (option (option stream * Z * err)) :=
  let filename := filepath.Join directory (makeFilename (Digest blobinfo) isConfig) in
  op <- os.Open filename ;;
  let '(f, e) := op in
  if is_nil e
  then ret (Some (ReadCloser <$> f, size, None))
  else if negb (IsNotExist e)
  then ret (Some (None, -1, Wrapf e "error checking for cache file %q"
                              [filepath.Join directory filename]))
  else ret None.

(** The last statements of [GetBlob]: the wrapped source answers, its
    error wrapped. *)
Definition GetBlob_delegate (s : t I) (blobinfo : BlobInfo) : M I (option stream * Z * err) :=
  r <- call (src_GetBlob (source s) blobinfo) ;;
  modify (emit (SrcGetBlob blobinfo)) ;;;
  let '(rc, size, e) := r in
  if negb (is_nil e) then
    name <- blobCacheReference.ImageName (reference s) ;;
    ret (rc, size, Wrapf e "error reading blob from source image %q" [name])
  else ret (rc, size, None).

Definition GetBlob (s : t I) (blobinfo : BlobInfo) : M I (option stream * Z * err) :=
  hb <- blobCacheReference.HasBlob (reference s) blobinfo ;;
  let '(present, size, e) := hb in
  if negb (is_nil e) then ret (None, -1, e)
  else
    found <-
      (if present then
         dirs <- blobCacheReference.load (blobCacheReference.directories (reference s)) ;;
         range dirs (fun directory =>
           range [false; true] (fun isConfig => GetBlob_probe blobinfo size directory isConfig))
       else ret None) ;;
    match found with
    | Some v => ret v
    | None => GetBlob_delegate s blobinfo
    end.

End Methods.
End blobCacheSource.

(** ** The cached destination *)

(** A [logrus.Warnf] line: format, string arguments, and the error printed
    with [%v]. The lines a call warns with are returned beside its result;
    [log] keeps the [Debugf] lines. *)
Inductive warning :=
| Warnf (format : string) (args : list string) (cause : error).

Module blobCacheDestination.

Record t (I : Type) := {
  reference : blobCacheReference.t;
  destination : ImageDestination I;
}.
Arguments reference {I}.
Arguments destination {I}.

Section Methods.
Context {I : Type}.

(** The first half of [PutBlob], up to the call of the wrapped destination:
    the stream to hand on and, when a temporary file was opened, the
    deferred function's captures ([tempfile] and [filename]). *)
Definition PutBlob_prepare (d : t I) (stream0 : stream) (inputInfo : BlobInfo) (isConfig : bool)
  : M I (go_result (stream * option (File * string))) :=
  if negb (String.eqb (Digest inputInfo) "") then
    dirs <- blobCacheReference.load (blobCacheReference.directories (reference d)) ;;
    match dirs with
    | [] => ret Panics
    | directory0 :: _ =>
        let directory := if String.eqb directory0 "" then "." else directory0 in
        let filename := filepath.Join directory (makeFilename (Digest inputInfo) isConfig) in
        tf <- ioutil.TempFile directory (makeFilename (Digest inputInfo) isConfig) ;;
        match tf with
        | (Some tempfile, None) =>
            stream <- io.TeeReader stream0 tempfile ;;
            ret (Returns (stream, Some (tempfile, filename)))
        | (None, None) => ret Panics
        | (_, Some e) =>
            modify (logrus (Debugf
              "error while creating a temporary file under %q to hold blob %q: %v"
              [directory0; Digest inputInfo] e)) ;;;
            ret (Returns (stream0, None))
        end
    end
  else ret (Returns (stream0, None)).

(** The deferred function of [PutBlob]; [e] is the variable [err] when the
    function returns. The error of a failed rename is wrapped and assigned to
    [err], which nothing reads afterwards: the results of [PutBlob] are not
    named. *)
Definition PutBlob_deferred (inputInfo : BlobInfo) (tempfile : File) (filename : string) (e : err)
  : M I unit :=
  (if is_nil e then
     e1 <- os.Rename (Name tempfile) filename ;;
     let _dead := Wrapf e1 "error renaming new layer for blob %q into place at %q"
                        [Digest inputInfo; filename] in
     ret tt
   else
     e2 <- os.Remove (Name tempfile) ;;
     match e2 with
     | Some e2 =>
         modify (logrus (Debugf "error cleaning up temporary file %q for blob %q: %v"
                                [Name tempfile; Digest inputInfo] e2))
     | None => ret tt
     end) ;;;
  os.Close tempfile.

Definition PutBlob (d : t I) (stream0 : stream) (inputInfo : BlobInfo) (isConfig : bool)
  : M I (go_result (BlobInfo * err)) :=
  prepared <- PutBlob_prepare d stream0 inputInfo isConfig ;;
  match prepared with
  | Panics => ret Panics
  | Returns (stream, deferred) =>
      r <- call (dest_PutBlob (destination d) stream inputInfo isConfig) ;;
      let '(n, newBlobInfo, e) := r in
      match deferred with
      | Some (tempfile, _) => io.tee_written stream tempfile n
      | None => ret tt
      end ;;;
      modify (emit (DestPutBlob inputInfo isConfig e)) ;;;
      result <-
        (if negb (is_nil e) then
           name <- blobCacheReference.ImageName (reference d) ;;
           ret (newBlobInfo,
                Wrapf e "error storing blob to image destination for cache %q" [name])
         else ret (newBlobInfo, None)) ;;
      match deferred with
      | Some (tempfile, filename) => PutBlob_deferred inputInfo tempfile filename e
      | None => ret tt
      end ;;;
      ret (Returns result)
  end.

(** The exit of [PutBlob] on which the wrapped destination's [PutBlob]
    panics, having read [n] bytes of the stream and left its state [i]: no
    result is assigned, [err] is still the [nil] of [ioutil.TempFile], and
    the deferred function runs while the panic unwinds. *)
Definition PutBlob_unwinding (d : t I) (stream0 : stream) (inputInfo : BlobInfo) (isConfig : bool)
    (n : nat) (i : I) : M I (go_result (BlobInfo * err)) :=
  prepared <- PutBlob_prepare d stream0 inputInfo isConfig ;;
  match prepared with
  | Panics => ret Panics
  | Returns (stream, deferred) =>
      modify (set_inner i) ;;;
      match deferred with
      | Some (tempfile, filename) =>
          io.tee_written stream tempfile n ;;;
          PutBlob_deferred inputInfo tempfile filename None
      | None => ret tt
      end ;;;
      ret Panics
  end.

Definition HasBlob (d : t I) (info : BlobInfo) : M I (bool * Z * err) :=
  hb <- blobCacheReference.HasBlob (reference d) info ;;
  let '(present, size, e) := hb in
  if negb (is_nil e) then
    dirs <- blobCacheReference.load (blobCacheReference.directories (reference d)) ;;
    ret (false, -1, Wrapf e "error checking for blob %q in cache %#v" (Digest info :: dirs))
  else if present then ret (present, size, None)
  else
    r <- call (dest_HasBlob (destination d) info) ;;
    modify (emit (DestHasBlob info)) ;;;
    ret r.

(** The body of the two loops of [ReapplyBlob]: one candidate file name. A
    file that opens is fed to the wrapped destination's [PutBlob], whose
    result is returned as it is; the deferred [Close] runs after it. *)
Definition ReapplyBlob_probe (d : t I) (info : BlobInfo) (directory : string) (isConfig : bool)
  : M I (option (BlobInfo * err)) :=
  let filename := filepath.Join directory (makeFilename (Digest info) isConfig) in
  op <- os.Open filename ;;
  let '(f, e) := op in
  match f with
  | Some f =>
      if is_nil e then
        r <- call (dest_PutBlob (destination d) (ReadCloser f) info isConfig) ;;
        let '(_, newBlobInfo, e') := r in
        modify (emit (DestPutBlob info isConfig e')) ;;;
        os.Close f ;;;
        ret (Some (newBlobInfo, e'))
      else ret None
  | None => ret None
  end.

(** The last statement of [ReapplyBlob]: the wrapped destination's own
    [ReapplyBlob]. *)
Definition ReapplyBlob_delegate (d : t I) (info : BlobInfo) : M I (BlobInfo * err) :=
  r <- call (dest_ReapplyBlob (destination d) info) ;;
  modify (emit (DestReapplyBlob info)) ;;;
  ret r.

Definition ReapplyBlob (d : t I) (info : BlobInfo) : M I (BlobInfo * err) :=
  hb <- call (dest_HasBlob (destination d) info) ;;
  modify (emit (DestHasBlob info)) ;;;
  let '(present, _, e) := hb in
  dirs <- blobCacheReference.load (blobCacheReference.directories (reference d)) ;;
  if negb (is_nil e) then
    ret ({| Digest := ""; Size := 0 |},
         Wrapf e "error checking for blob %q in cache %#v" (Digest info :: dirs))
  else
    found <-
      (if negb present then
         range dirs (fun directory =>
           range [false; true] (fun isConfig => ReapplyBlob_probe d info directory isConfig))
       else ret None) ;;
    match found with
    | Some v => ret v
    | None => ReapplyBlob_delegate d info
    end.

(** [manifest.Digest] of containers/image and [ioutils.AtomicWriteFile] of
    containers/storage, the latter without its file mode (always [0600]):
    the world keeps no modes. *)
Variable manifest_Digest : list byte -> digest.Digest * err.
Variable AtomicWriteFile : string -> list byte -> M I err.

(** [PutManifest]; [dest_PutManifest] is the [PutManifest] of the wrapped
    destination. The warnings are returned beside the error. *)
Definition PutManifest (d : t I) (dest_PutManifest : list byte -> I -> err * I)
    (manifestBytes : list byte) : M I (err * list warning) :=
  dirs <- blobCacheReference.load (blobCacheReference.directories (reference d)) ;;
  warned <-
    match dirs with
    | directory0 :: _ =>
        let '(manifestDigest, e) := manifest_Digest manifestBytes in
        match e with
        | Some e =>
            ret [Warnf "error digesting manifest %q: %v"
                       [string_of_list_byte manifestBytes] e]
        | None =>
            let filename := filepath.Join directory0 (makeFilename manifestDigest false) in
            e <- AtomicWriteFile filename manifestBytes ;;
            match e with
            | Some e => ret [Warnf "error saving manifest as %q: %v" [filename] e]
            | None => ret []
            end
        end
    | [] => ret []
    end ;;
  e <- call (dest_PutManifest manifestBytes) ;;
  ret (e, warned).

End Methods.
End blobCacheDestination.

(** ** Concrete collaborators and worlds *)

(** A destination that keeps what it is given in memory: [PutBlob] reads the
    stream to its end and fails when reading fails. *)
Module memdest.

Definition state := list (digest.Digest * list byte).

Definition find (s : state) (d : digest.Digest) : option (list byte) :=
  snd <$> List.find (fun kv => String.eqb (fst kv) d) s.

Definition PutBlob (r : stream) (info : BlobInfo) (isConfig : bool) (s : state)
  : (nat * BlobInfo * err) * state :=
  match rderr r with
  | Some e => ((length (data r), {| Digest := ""; Size := 0 |}, Some e), s)
  | None =>
      ((length (data r),
        {| Digest := Digest info; Size := Z.of_nat (length (data r)) |}, None),
       (Digest info, data r) :: s)
  end.

Definition HasBlob (info : BlobInfo) (s : state) : (bool * Z * err) * state :=
  match find s (Digest info) with
  | Some b => ((true, Z.of_nat (length b), None), s)
  | None => ((false, -1, None), s)
  end.

Definition ReapplyBlob (info : BlobInfo) (s : state) : (BlobInfo * err) * state :=
  match find s (Digest info) with
  | Some b => ((info, None), s)
  | None => ((info, Some (ErrorString "blob unknown")), s)
  end.

Definition dest : ImageDestination state :=
  {| dest_PutBlob := PutBlob; dest_HasBlob := HasBlob; dest_ReapplyBlob := ReapplyBlob |}.

End memdest.


(** A destination that already has every blob: [PutBlob] answers without
    reading the stream. *)
Definition sated : ImageDestination unit :=
  {| dest_PutBlob := fun _ info _ s => ((0%nat, info, None), s);
     dest_HasBlob := fun info s => ((true, Size info, None), s);
     dest_ReapplyBlob := fun info s => ((info, None), s) |}.


(** A source with nothing in it. *)
Definition barren {I} : ImageSource I :=
  {| src_GetManifest := fun _ s => (([], "", Some (ErrorString "manifest unknown")), s);
     src_GetBlob := fun _ s => ((None, -1, Some (ErrorString "blob unknown")), s) |}.

Definition no_faults : syscall -> option errno := fun _ => None.

(** A quiet world over the given heap and files. *)
Definition quiet {I} (h : gmap loc (list string)) (f : gmap string (list byte)) (i : I)
  : world I :=
  {| heap := h; fs := f; faults := no_faults; tee_fault := None; suffix := "123456789";
     log := []; trace := []; inner := i |}.

Definition with_faults {I} (flt : syscall -> option errno) (w : world I) : world I :=
  {| heap := heap w; fs := fs w; faults := flt; tee_fault := tee_fault w;
     suffix := suffix w; log := log w; trace := trace w; inner := inner w |}.


Definition bytes_of (s : string) : list byte := list_byte_of_string s.

(** ** Reading the environment *)

Section Views.
Context {I : Type}.

(** The world after further events. *)
Definition emits (es : list event) (w : world I) : world I :=
  {| heap := heap w; fs := fs w; faults := faults w; tee_fault := tee_fault w;
     suffix := suffix w; log := log w; trace := trace w ++ es; inner := inner w |}.

(** No call into [os] is refused by the environment, and no tee write
    fails. *)
Definition healthy (w : world I) : Prop :=
  (forall c, faults w c = None) /\ tee_fault w = None.

End Views.

(** The probes of a scan, in the order the two nested loops make them: for
    every directory, the plain name and then the [.config] name. *)
Definition dir_variants (dirs : list string) : list (string * bool) :=
  flat_map (fun directory => [(directory, false); (directory, true)]) dirs.

Definition candidate (D : digest.Digest) (dc : string * bool) : string :=
  filepath.Join (fst dc) (makeFilename D (snd dc)).

(** The first element with a value. *)
Fixpoint first_some {A V : Type} (f : A -> option V) (l : list A) : option (A * V) :=
  match l with
  | [] => None
  | x :: l' =>
      match f x with
      | Some b => Some (x, b)
      | None => first_some f l'
      end
  end.

(** Text properties behind the distinctness of cache file names. *)
Fixpoint no_slash (s : string) : bool :=
  match s with
  | EmptyString => true
  | String a s' => negb (Ascii.eqb a "/") && no_slash s'
  end.

Fixpoint has_plain (s : string) : bool :=
  match s with
  | EmptyString => false
  | String a s' => negb (Ascii.eqb a ".") || has_plain s'
  end.

Definition is_digit (a : ascii) : bool :=
  let n := nat_of_ascii a in (48 <=? n)%nat && (n <=? 57)%nat.

Fixpoint all_digits (s : string) : bool :=
  match s with
  | EmptyString => true
  | String a s' => is_digit a && all_digits s'
  end.

(** The suffixes [ioutil.TempFile] draws: nine decimal digits. *)
Definition nine_digits (s : string) : bool :=
  (String.length s =? 9)%nat && all_digits s.

(** A slice that lies within its backing array. *)
Definition valid (h : gmap loc (list string)) (s : slice) : Prop :=
  exists a, h !! arr s = Some a /\ (off s + len s <= length a)%nat.


(** The events of probing candidates with one call each. *)
Definition probes (sc : string -> syscall) (D : digest.Digest) (l : list (string * bool))
  : list event :=
  map (fun dc => Sys (sc (candidate D dc))) l.

(** A probe that answers "not found". *)
Definition missing_stat {I} (w : world I) (name : string) : Prop :=
  IsNotExist (snd (os.stat_of w name)) = true.

Definition missing_open {I} (w : world I) (name : string) : Prop :=
  IsNotExist (snd (os.open_of w name)) = true.

(** What [HasBlob] makes of the first probe that is not "not found". *)
Definition HasBlob_verdict (blobinfo : BlobInfo) (filename : string)
    (st : option FileInfo * err) : bool * Z * err :=
  match st with
  | (Some fi, None) =>
      if (Size blobinfo =? -1)%Z || (Size blobinfo =? FileInfo_Size fi)%Z
      then (true, FileInfo_Size fi, None)
      else (false, -1, None)
  | (_, e) => (false, -1, Wrapf e "error checking size of %q" [filename])
  end.

(** Concrete references: one over the single directory ["cache"], one over
    the directories ["first"] and ["second"]. *)
Module example.

Definition D : digest.Digest := "sha256:ab".

Definition image : ImageReference :=
  {| TransportName := "dir"; StringWithinTransport := "/srv/image" |}.

Definition arrays : gmap loc (list string) :=
  {[ 1%nat := ["cache"]; 2%nat := ["first"; "second"] ]}.

Definition one_dir : blobCacheReference.t :=
  {| blobCacheReference.reference := image;
     blobCacheReference.directories := {| arr := 1%nat; off := 0; len := 1 |} |}.

Definition two_dirs : blobCacheReference.t :=
  {| blobCacheReference.reference := image;
     blobCacheReference.directories := {| arr := 2%nat; off := 0; len := 2 |} |}.

(** A stale three-byte file in the first directory, the five-byte blob in
    the second. *)
Definition stale_then_good : gmap string (list byte) :=
  {[ "first/sha256:ab" := bytes_of "old"; "second/sha256:ab" := bytes_of "fresh" ]}.

(** Cached destinations over ["cache"]. *)
Definition to_memory : blobCacheDestination.t memdest.state :=
  {| blobCacheDestination.reference := one_dir;
     blobCacheDestination.destination := memdest.dest |}.


Definition to_sated : blobCacheDestination.t unit :=
  {| blobCacheDestination.reference := one_dir;
     blobCacheDestination.destination := sated |}.


(** Cached sources over ["cache"]. *)
Definition from_barren {I} : blobCacheSource.t I :=
  {| blobCacheSource.reference := one_dir; blobCacheSource.source := barren |}.

(** A three-byte layer stored under the plain name of [D]. *)
Definition old_layer : gmap string (list byte) :=
  {[ "cache/sha256:ab" := bytes_of "old" ]}.

Definition old : stream := {| data := bytes_of "old"; rderr := None |}.

Definition hello : stream := {| data := bytes_of "hello"; rderr := None |}.

Definition hello_info : BlobInfo := {| Digest := D; Size := 5 |}.

(** A descriptor without a digest. *)
Definition anonymous : BlobInfo := {| Digest := ""; Size := 5 |}.

(** The world of an empty cache and an empty destination, and the world
    that holds the old layer. *)
Definition fresh : world memdest.state := quiet arrays ∅ [].

Definition seasoned : world memdest.state := quiet arrays old_layer [].

(** The temporary file of [hello] written as a layer. *)
Definition temporary : File := {| Name := "cache/sha256:ab123456789"; bytes := [] |}.

(** A cached destination over the empty directory name, which stands for
    the working directory. *)
Definition here : gmap loc (list string) := {[ 1%nat := [""] ]}.

Definition in_here : blobCacheReference.t :=
  {| blobCacheReference.reference := image;
     blobCacheReference.directories := {| arr := 1%nat; off := 0; len := 1 |} |}.

Definition to_memory_here : blobCacheDestination.t memdest.state :=
  {| blobCacheDestination.reference := in_here;
     blobCacheDestination.destination := memdest.dest |}.

(** A stand-in for [manifest.GuessMIMEType]. *)
Definition guess (manifestBytes : list byte) : string :=
  match manifestBytes with
  | [] => ""
  | _ :: _ => "application/vnd.docker.distribution.manifest.v2+json"
  end.

(** The caller's directory list, in an array of its own, and the reference
    [NewBlobCache] builds from it in the [fresh] world. *)
Definition callers : slice := {| arr := 2%nat; off := 0; len := 2 |}.

Definition built : blobCacheReference.t :=
  {| blobCacheReference.reference := image;
     blobCacheReference.directories := {| arr := 3%nat; off := 0; len := 2 |} |}.

End example.

(** [transports.ImageName] of a cached reference, as a value. *)
Definition cache_name (h : gmap loc (list string)) (r : blobCacheReference.t) : string :=
  blobCacheTransport.Name +:+ ":" +:+
  (strings.Join (contents h (blobCacheReference.directories r)) "," +:+ ":" +:+
   transports.ImageName (blobCacheReference.reference r)).

(** The error [PutBlob] returns for the error [e] of the wrapped
    destination. *)
Definition PutBlob_error (h : gmap loc (list string)) (r : blobCacheReference.t) (e : err) : err :=
  Wrapf e "error storing blob to image destination for cache %q" [cache_name h r].

(** The directory [PutBlob] writes to, and the file name it renames to. *)
Definition primary (directory0 : string) : string :=
  if String.eqb directory0 "" then "." else directory0.

Definition canonical (directory0 : string) (D : digest.Digest) (isConfig : bool) : string :=
  filepath.Join (primary directory0) (makeFilename D isConfig).


(** Environments in which one kind of call is refused. *)
Definition refusing_rename : syscall -> option errno :=
  fun c => match c with SysRename _ _ => Some EACCES | _ => None end.


Definition vanishing_on_open : syscall -> option errno :=
  fun c => match c with SysOpen _ => Some ENOENT | _ => None end.

Definition unreadable_on_open : syscall -> option errno :=
  fun c => match c with SysOpen _ => Some EACCES | _ => None end.

(** What [GetBlob] makes of the first [os.Open] that is not "not found";
    [size] is what [HasBlob] reported. *)
Definition GetBlob_verdict (size : Z) (dc : string * bool) (D : digest.Digest)
    (op : option File * err) : option stream * Z * err :=
  match op with
  | (f, None) => (ReadCloser <$> f, size, None)
  | (_, e) => (None, -1, Wrapf e "error checking for cache file %q"
                               [filepath.Join (fst dc) (candidate D dc)])
  end.

(** The file [GetManifest] reads in a directory, and the answer of the
    read when it is not "not found". *)
Definition manifest_path (d : digest.Digest) (directory : string) : string :=
  filepath.Join directory (makeFilename d false).

Definition manifest_found {I} (w : world I) (d : digest.Digest) (directory : string)
  : option (list byte * err) :=
  let rd := ioutil.read_of w (manifest_path d directory) in
  if IsNotExist (snd rd) then None else Some rd.

(** ** Stand-ins for the libraries behind [ParseReference] and [PutManifest] *)

Module standin.

(** For [alltransports.ParseImageName]: the transport's name up to the
    first colon, and the rest. *)
Definition ParseImageName (imgName : string) : ImageReference + error :=
  match strings.SplitN imgName ":" 2 with
  | [transport; rest] => inl {| TransportName := transport; StringWithinTransport := rest |}
  | _ => inr (Errorf "Invalid image name %q, expected colon-separated transport:reference"
                     [imgName])
  end.

(** For [manifest.Digest], which fails only on a signed manifest whose
    signature does not parse: the manifests that start with ['!'] stand for
    those, and every other manifest, the empty one included, has a digest. *)
Definition manifest_Digest (manifestBytes : list byte) : digest.Digest * err :=
  match manifestBytes with
  | x21 :: _ => ("", Some (ErrorString "invalid signature"))
  | _ => ("sha256:cd", None)
  end.

(** For [ioutils.AtomicWriteFile]: the bytes go to a temporary file, which
    is renamed to [filename]; the temporary file is removed when the rename
    fails. *)
Definition AtomicWriteFile {I} (filename : string) (content : list byte) : M I err :=
  tf <- ioutil.TempFile "" ".tmp-manifest" ;;
  match tf with
  | (Some f, None) =>
      modify (fun w => set_fs (<[Name f := content]> (fs w)) w) ;;;
      os.Close f ;;;
      e <- os.Rename (Name f) filename ;;
      match e with
      | Some _ => os.Remove (Name f) ;;; ret e
      | None => ret None
      end
  | (_, Some e) => ret (Some e)
  | (None, None) => ret None
  end.

(** For the [PutManifest] of the wrapped destination: [memdest] keeps the
    manifest under a name of its own. *)
Definition PutManifest (manifestBytes : list byte) (s : memdest.state) : err * memdest.state :=
  (None, ("manifest", manifestBytes) :: s).

End standin.

(** ** Views behind the properties of the remaining operations *)

(** A text without the character [c]. *)
Fixpoint lacks (c : ascii) (s : string) : bool :=
  match s with
  | EmptyString => true
  | String a s' => negb (Ascii.eqb a c) && lacks c s'
  end.

(** The answer of [os.Stat] for a candidate, when it is not "not found". *)
Definition stat_found {I} (w : world I) (D : digest.Digest) (dc : string * bool)
  : option (option FileInfo * err) :=
  let st := os.stat_of w (candidate D dc) in
  if IsNotExist (snd st) then None else Some st.

(** The elements a scan looks at: those up to the first one with a value,
    that one included. *)
Fixpoint scanned {A V : Type} (f : A -> option V) (l : list A) : list A :=
  match l with
  | [] => []
  | x :: l' =>
      match f x with
      | Some _ => [x]
      | None => x :: scanned f l'
      end
  end.

(** What [HasBlob] answers, from the files: the verdict on the first
    candidate that is not "not found". *)
Definition HasBlob_answer {I} (w : world I) (r : blobCacheReference.t) (blobinfo : BlobInfo)
  : bool * Z * err :=
  if String.eqb (Digest blobinfo) "" then (false, -1, None)
  else
    match first_some (stat_found w (Digest blobinfo))
            (dir_variants (contents (heap w) (blobCacheReference.directories r))) with
    | Some (dc, st) => HasBlob_verdict blobinfo (candidate (Digest blobinfo) dc) st
    | None => (false, -1, None)
    end.

(** Two worlds with the same files, slices and log. *)
Definition untouched {I} (w w' : world I) : Prop :=
  fs w' = fs w /\ heap w' = heap w /\ log w' = log w.

(** The answer of [os.Open] for a candidate, when it is not "not found". *)
Definition open_found {I} (w : world I) (D : digest.Digest) (dc : string * bool)
  : option (option File * err) :=
  let op := os.open_of w (candidate D dc) in
  if IsNotExist (snd op) then None else Some op.

(** The [os.Stat] calls of [HasBlob]. *)
Definition HasBlob_stats {I} (w : world I) (r : blobCacheReference.t) (D : digest.Digest)
  : list event :=
  if String.eqb D "" then []
  else probes SysStat D (scanned (stat_found w D)
         (dir_variants (contents (heap w) (blobCacheReference.directories r)))).

(** * Properties *)

(** ** Strings and paths *)

Section PathFacts.
Import filepath.

Example Clean_collapses : Clean "a//b/./c/.." = "a/b".
Proof. reflexivity. Qed.
Example Clean_rooted : Clean "/../a/" = "/a".
Proof. reflexivity. Qed.
Example Clean_keeps_leading_dotdot : Clean "../../a/../.." = "../../..".
Proof. reflexivity. Qed.
Example Join_empty_directory : Join "" "sha256:ab" = "sha256:ab".
Proof. reflexivity. Qed.
Example Join_dot_directory : Join "." "sha256:ab" = "sha256:ab".
Proof. reflexivity. Qed.
Example Join_config_name : Join "/var/cache/" (makeFilename "sha256:ab" true) = "/var/cache/sha256:ab.config".
Proof. reflexivity. Qed.
Example Join_parent : Join "a" ".." = ".".
Proof. reflexivity. Qed.

Lemma append_cons (x : ascii) (a b : string) : String x a +:+ b = String x (a +:+ b).
Proof. reflexivity. Qed.

Lemma append_nil (b : string) : "" +:+ b = b.
Proof. reflexivity. Qed.

Lemma append_assoc (a b c : string) : (a +:+ b) +:+ c = a +:+ (b +:+ c).
Proof.
  induction a as [|x a IH]; [reflexivity |].
  rewrite !append_cons. f_equal. exact IH.
Qed.

Lemma append_length (a b : string) :
  String.length (a +:+ b) = (String.length a + String.length b)%nat.
Proof.
  induction a as [|x a IH]; [reflexivity |].
  rewrite append_cons. simpl. now rewrite IH.
Qed.

Lemma has_plain_append (a b : string) :
  has_plain (a +:+ b) = has_plain a || has_plain b.
Proof.
  induction a as [|x a IH]; [reflexivity |].
  rewrite append_cons. simpl. rewrite IH. now rewrite orb_assoc.
Qed.

Lemma cut_no_slash (t : string) : no_slash t = true -> cut t = (t, []).
Proof.
  induction t as [|a t IH]; simpl; [reflexivity |].
  intros H. apply andb_prop in H as [Ha Ht].
  rewrite (IH Ht). apply negb_true_iff in Ha. now rewrite Ha.
Qed.

(** Appending slash-free text to a path extends its last element and
    nothing else. *)
Lemma components_append (s t : string) :
  no_slash t = true ->
  exists pre c, components s = pre ++ [c] /\ components (s +:+ t) = pre ++ [c +:+ t].
Proof.
  intros Ht. unfold components. induction s as [|a s IH].
  - rewrite append_nil, (cut_no_slash t Ht). exists [], "". split; reflexivity.
  - rewrite append_cons. simpl.
    destruct IH as (pre & c & E1 & E2).
    destruct (cut s) as [h tl] eqn:Hs.
    destruct (cut (s +:+ t)) as [h' tl'] eqn:Hs'.
    destruct (Ascii.eqb a "/").
    + exists ("" :: pre), c. rewrite E1, E2. split; reflexivity.
    + destruct pre as [|p pre]; simpl in *.
      * inversion E1; inversion E2; subst. exists [], (String a c). split; reflexivity.
      * inversion E1; inversion E2; subst.
        exists (String a p :: pre), c. split; reflexivity.
Qed.

Lemma has_plain_step (root : bool) (S : list string) (x : string) :
  has_plain x = true -> step root S x = x :: S.
Proof.
  intros H. unfold step.
  destruct (String.eqb_spec x "") as [->|_]; [discriminate H |].
  destruct (String.eqb_spec x ".") as [->|_]; [discriminate H |].
  destruct (String.eqb_spec x "..") as [->|_]; [discriminate H |].
  reflexivity.
Qed.

Lemma unwords_cons (a b : string) (l : list string) :
  unwords (a :: b :: l) = a +:+ "/" +:+ unwords (b :: l).
Proof. reflexivity. Qed.

Lemma unwords_snoc (l : list string) (x : string) :
  unwords (l ++ [x]) =
  match l with [] => x | _ :: _ => unwords l +:+ "/" +:+ x end.
Proof.
  induction l as [|a l IH]; [reflexivity |].
  destruct l as [|b l]; [reflexivity |].
  change ((a :: b :: l) ++ [x]) with (a :: (b :: l ++ [x])).
  rewrite unwords_cons. change (b :: l ++ [x]) with ((b :: l) ++ [x]).
  rewrite IH, unwords_cons. now rewrite !append_assoc.
Qed.

Lemma unwords_snoc_length (l : list string) (x : string) :
  (String.length (unwords l) + String.length x <= String.length (unwords (l ++ [x])))%nat.
Proof.
  rewrite unwords_snoc. destruct l as [|a l].
  - simpl. lia.
  - rewrite !append_length. simpl String.length. lia.
Qed.

(** A path element extended by text that is not all dots is kept, and the
    output is longer by that text at least than with the element alone. *)
Lemma step_length (root : bool) (S : list string) (c t : string) :
  has_plain t = true ->
  (String.length (unwords (rev (step root S c))) + String.length t
   <= String.length (unwords (rev (step root S (c +:+ t)))))%nat.
Proof.
  intros Ht.
  rewrite (has_plain_step root S (c +:+ t)) by (rewrite has_plain_append, Ht; apply orb_true_r).
  simpl rev.
  pose proof (unwords_snoc_length (rev S) (c +:+ t)) as Hlong.
  rewrite append_length in Hlong.
  unfold step.
  destruct (String.eqb_spec c "") as [->|_]; [simpl in *; lia |].
  destruct (String.eqb_spec c ".") as [->|_]; [simpl in *; lia |].
  destruct (String.eqb_spec c "..") as [->|_].
  - destruct S as [|top rest].
    + destruct root; simpl in *; lia.
    + destruct (String.eqb top "..").
      * change (rev (".." :: top :: rest)) with (rev (top :: rest) ++ [".."]).
        rewrite !unwords_snoc.
        destruct (rev (top :: rest)) eqn:E.
        { simpl in E. destruct (rev rest); discriminate E. }
        rewrite !append_length. simpl String.length. lia.
      * simpl rev in *.
        pose proof (unwords_snoc_length (rev rest) top). lia.
  - simpl rev. rewrite !unwords_snoc.
    destruct (rev S); rewrite ?append_length; simpl String.length; lia.
Qed.

Lemma rooted_append (p t : string) : p <> "" -> rooted (p +:+ t) = rooted p.
Proof. destruct p; [congruence | reflexivity]. Qed.

(** Appending slash-free text of two or more characters, not all of them
    dots, to a non-empty path makes its cleaned form strictly longer. *)
Lemma Clean_longer (p t : string) :
  p <> "" -> no_slash t = true -> has_plain t = true -> (2 <= String.length t)%nat ->
  (String.length (Clean p) < String.length (Clean (p +:+ t)))%nat.
Proof.
  intros Hp Hs Hd Hlen. unfold Clean.
  destruct (String.eqb_spec p "") as [->|_]; [congruence |].
  destruct (String.eqb_spec (p +:+ t) "") as [E|_].
  { destruct p; [congruence | discriminate E]. }
  rewrite (rooted_append p t Hp).
  destruct (components_append p t Hs) as (pre & c & E1 & E2).
  rewrite E1, E2, !fold_left_app. simpl fold_left.
  set (S := fold_left (step (rooted p)) pre []).
  pose proof (step_length (rooted p) S c t Hd) as Hstep.
  destruct (rooted p).
  - rewrite !append_length. lia.
  - destruct (String.eqb_spec (unwords (rev (step false S (c +:+ t)))) "") as [E|_].
    { rewrite E in Hstep. simpl in Hstep. lia. }
    destruct (String.eqb_spec (unwords (rev (step false S c))) "") as [E|_].
    + rewrite E in Hstep. simpl in *. lia.
    + lia.
Qed.

(** The file names the destination and the lookups build. *)
Lemma Join_suffix_neq (d n t : string) :
  n <> "" -> no_slash t = true -> has_plain t = true -> (2 <= String.length t)%nat ->
  Join d (n +:+ t) <> Join d n.
Proof.
  intros Hn Hs Hd Hlen E.
  assert (Hlt : (String.length (Join d n) < String.length (Join d (n +:+ t)))%nat).
  { unfold Join. destruct (String.eqb_spec d "") as [->|Hne].
    - destruct (String.eqb_spec n "") as [->|_]; [congruence |].
      destruct (String.eqb_spec (n +:+ t) "") as [E'|_].
      { destruct n; [congruence | discriminate E']. }
      now apply Clean_longer.
    - replace (d +:+ "/" +:+ n +:+ t) with ((d +:+ "/" +:+ n) +:+ t)
        by now rewrite !append_assoc.
      apply Clean_longer; try assumption.
      destruct d; [congruence | discriminate]. }
  rewrite E in Hlt. lia.
Qed.

Lemma components_dot_slash (n : string) : components ("./" +:+ n) = "." :: components n.
Proof.
  change ("./" +:+ n) with (String "." (String "/" n)).
  unfold components. simpl. now destruct (cut n).
Qed.

Lemma Join_dot (n : string) : n <> "" -> rooted n = false -> Join "." n = Join "" n.
Proof.
  intros Hn Hr. unfold Join. simpl String.eqb.
  destruct (String.eqb_spec n "") as [->|_]; [congruence |].
  change ("." +:+ "/" +:+ n) with ("./" +:+ n).
  unfold Clean. destruct (String.eqb_spec n "") as [->|_]; [congruence |].
  change (("./" +:+ n =? "")%string) with false. cbv iota.
  rewrite components_dot_slash. change (rooted ("./" +:+ n)) with false.
  rewrite Hr. simpl fold_left. reflexivity.
Qed.


Lemma makeFilename_nonempty (D : digest.Digest) (c : bool) : D <> "" -> makeFilename D c <> "".
Proof.
  unfold makeFilename. destruct D; [congruence |]. intros _.
  destruct c; [rewrite append_cons |]; discriminate.
Qed.

Lemma makeFilename_rooted (D : digest.Digest) (c : bool) :
  D <> "" -> rooted (makeFilename D c) = rooted D.
Proof. unfold makeFilename. destruct D; [congruence |]. destruct c; reflexivity. Qed.

(** A layer and a config of one digest never share a file. *)
Lemma candidate_paths_differ (d : string) (D : digest.Digest) :
  D <> "" -> Join d (makeFilename D true) <> Join d (makeFilename D false).
Proof.
  intros HD. unfold makeFilename. apply Join_suffix_neq; [assumption | reflexivity .. | ].
  simpl. lia.
Qed.

Lemma all_digits_plain (s : string) : all_digits s = true -> no_slash s = true.
Proof.
  induction s as [|a s IH]; simpl; [reflexivity |].
  intros H. apply andb_prop in H as [Ha Hs]. rewrite (IH Hs), andb_true_r.
  destruct (Ascii.eqb_spec a "/") as [->|_]; [discriminate Ha | reflexivity].
Qed.

Lemma all_digits_has_plain (s : string) :
  all_digits s = true -> s <> "" -> has_plain s = true.
Proof.
  destruct s as [|a s]; [congruence |]. simpl. intros H _.
  apply andb_prop in H as [Ha _].
  destruct (Ascii.eqb_spec a ".") as [->|_]; [discriminate Ha | reflexivity].
Qed.

(** The temporary file is never the cache file it will become. *)
Lemma tempfile_not_canonical (d n sfx : string) :
  n <> "" -> nine_digits sfx = true -> Join d (n +:+ sfx) <> Join d n.
Proof.
  intros Hn H. unfold nine_digits in H. apply andb_prop in H as [Hl Hd].
  apply Nat.eqb_eq in Hl.
  apply Join_suffix_neq; [assumption | now apply all_digits_plain | | lia].
  apply all_digits_has_plain; [assumption |]. intros ->. discriminate Hl.
Qed.

End PathFacts.

(** ** Worlds, calls and loops *)

Section RunFacts.
Context {I : Type}.
Implicit Types (w : world I) (es : list event).

Lemma emits_nil w : emits [] w = w.
Proof. destruct w. unfold emits. simpl. now rewrite app_nil_r. Qed.

Lemma emits_emit e es w : emits es (emit e w) = emits (e :: es) w.
Proof. unfold emits, emit. simpl. now rewrite <- app_assoc. Qed.

Lemma emit_emits e es w : emit e (emits es w) = emits (es ++ [e]) w.
Proof. unfold emits, emit. simpl. now rewrite <- app_assoc. Qed.

Lemma Stat_run name w : os.Stat name w = (os.stat_of w name, emit (Sys (SysStat name)) w).
Proof. reflexivity. Qed.

Lemma Open_run name w : os.Open name w = (os.open_of w name, emit (Sys (SysOpen name)) w).
Proof. reflexivity. Qed.

Lemma ReadFile_run name w :
  ioutil.ReadFile name w = (ioutil.read_of w name, emit (Sys (SysReadFile name)) w).
Proof. reflexivity. Qed.

Lemma range_app {A R} (xs ys : list A) (body : A -> M I (option R)) w :
  range (xs ++ ys) body w =
  let '(r, w1) := range xs body w in
  match r with
  | Some v => (Some v, w1)
  | None => range ys body w1
  end.
Proof.
  revert w. induction xs as [|x xs IH]; intros w; simpl; [reflexivity |].
  unfold bind. destruct (body x w) as [[v|] w1]; [reflexivity | apply IH].
Qed.

(** The two nested loops make one pass over [dir_variants]. *)
Lemma range_variants {R} (dirs : list string) (f : string -> bool -> M I (option R)) w :
  range dirs (fun directory => range [false; true] (f directory)) w =
  range (dir_variants dirs) (fun dc => f (fst dc) (snd dc)) w.
Proof.
  revert w. induction dirs as [|d dirs IH]; intros w; [reflexivity |].
  change (dir_variants (d :: dirs)) with ([(d, false); (d, true)] ++ dir_variants dirs).
  rewrite range_app. simpl. unfold bind, ret.
  destruct (f d false w) as [[v|] w1]; [reflexivity |].
  destruct (f d true w1) as [[v|] w2]; [reflexivity |].
  apply IH.
Qed.

(** A run of probes that all miss leaves nothing but their events. *)
Lemma range_skip {A R} (ev : A -> event) (body : A -> M I (option R))
    (miss : world I -> A -> Prop) :
  (forall w x, miss w x -> body x w = (None, emit (ev x) w)) ->
  (forall w e x, miss w x -> miss (emit e w) x) ->
  forall pre rest w, Forall (miss w) pre ->
    range (pre ++ rest) body w = range rest body (emits (map ev pre) w).
Proof.
  intros Hmiss Hstable pre. induction pre as [|x pre IH]; intros rest w Hall.
  - simpl. now rewrite emits_nil.
  - inversion Hall as [|? ? Hx Hpre]; subst. simpl. unfold bind.
    rewrite (Hmiss w x Hx).
    rewrite IH, emits_emit; [reflexivity |].
    eapply Forall_impl; [exact Hpre |]. intros y Hy. now apply Hstable.
Qed.

Lemma range_skip_all {A R} (ev : A -> event) (body : A -> M I (option R))
    (miss : world I -> A -> Prop) :
  (forall w x, miss w x -> body x w = (None, emit (ev x) w)) ->
  (forall w e x, miss w x -> miss (emit e w) x) ->
  forall xs w, Forall (miss w) xs ->
    range xs body w = (None, emits (map ev xs) w).
Proof.
  intros Hmiss Hstable xs w Hall.
  rewrite <- (app_nil_r xs) at 1.
  rewrite (range_skip ev body miss Hmiss Hstable xs [] w Hall). reflexivity.
Qed.

(** Where [first_some] stops. *)
Lemma first_some_split {A V} (f : A -> option V) (l : list A) x v :
  first_some f l = Some (x, v) ->
  exists pre post, l = pre ++ x :: post /\ Forall (fun y => f y = None) pre /\ f x = Some v.
Proof.
  induction l as [|a l IH]; simpl; [discriminate |].
  destruct (f a) as [b|] eqn:Ea.
  - intros [= <- <-]. exists [], l. repeat split; [constructor | assumption].
  - intros H. destruct (IH H) as (pre & post & -> & Hpre & Hx).
    exists (a :: pre), post. repeat split; [constructor; assumption | assumption].
Qed.

Lemma first_some_none {A V} (f : A -> option V) (l : list A) :
  first_some f l = None -> Forall (fun y => f y = None) l.
Proof.
  induction l as [|a l IH]; simpl; [constructor |].
  destruct (f a) eqn:Ea; [discriminate |]. intros H. constructor; auto.
Qed.

End RunFacts.

(** ** The cached reference: [HasBlob] *)

Section HasBlobFacts.
Context {I : Type}.
Implicit Types (w : world I) (r : blobCacheReference.t).

Lemma stat_of_emits es w name : os.stat_of (emits es w) name = os.stat_of w name.
Proof. reflexivity. Qed.

Lemma open_of_emits es w name : os.open_of (emits es w) name = os.open_of w name.
Proof. reflexivity. Qed.

(** The answers of [os.Stat] come in two shapes only. *)
Lemma stat_of_cases w name :
  (exists fi, os.stat_of w name = (Some fi, None)) \/
  (exists e, os.stat_of w name = (None, Some (PathError "stat" name e))).
Proof.
  unfold os.stat_of. destruct (faults w (SysStat name)), (fs w !! name); eauto.
Qed.

Lemma open_of_cases w name :
  (exists c, os.open_of w name = (Some {| Name := name; bytes := c |}, None)) \/
  (exists e, os.open_of w name = (None, Some (PathError "open" name e))).
Proof.
  unfold os.open_of. destruct (faults w (SysOpen name)), (fs w !! name); eauto.
Qed.

Lemma read_of_cases w name :
  (exists c, ioutil.read_of w name = (c, None)) \/
  (exists e, ioutil.read_of w name = ([], Some (PathError "open" name e))).
Proof.
  unfold ioutil.read_of. destruct (faults w (SysReadFile name)), (fs w !! name); eauto.
Qed.

Lemma HasBlob_unfold r blobinfo w :
  Digest blobinfo <> "" ->
  blobCacheReference.HasBlob r blobinfo w =
  let '(found, w') :=
    range (dir_variants (contents (heap w) (blobCacheReference.directories r)))
          (fun dc => blobCacheReference.HasBlob_probe blobinfo (fst dc) (snd dc)) w in
  (match found with Some v => v | None => (false, -1, None) end, w').
Proof.
  intros HD. unfold blobCacheReference.HasBlob.
  apply String.eqb_neq in HD. rewrite HD.
  unfold bind at 1. unfold blobCacheReference.load, get.
  unfold bind at 1. rewrite range_variants.
  destruct (range _ _ w) as [[v|] w']; reflexivity.
Qed.

Lemma HasBlob_body_miss blobinfo w dc :
  missing_stat w (candidate (Digest blobinfo) dc) ->
  blobCacheReference.HasBlob_probe blobinfo (fst dc) (snd dc) w =
  (None, emit (Sys (SysStat (candidate (Digest blobinfo) dc))) w).
Proof.
  unfold missing_stat, blobCacheReference.HasBlob_probe, candidate. intros Hm. unfold bind.
  rewrite Stat_run.
  destruct (stat_of_cases w (filepath.Join (fst dc) (makeFilename (Digest blobinfo) (snd dc))))
    as [[fi E]|[e E]]; rewrite E in *; simpl in Hm; [discriminate |].
  simpl. rewrite Hm. reflexivity.
Qed.

Lemma HasBlob_body_decides blobinfo w dc :
  ~ missing_stat w (candidate (Digest blobinfo) dc) ->
  blobCacheReference.HasBlob_probe blobinfo (fst dc) (snd dc) w =
  (Some (HasBlob_verdict blobinfo (candidate (Digest blobinfo) dc)
           (os.stat_of w (candidate (Digest blobinfo) dc))),
   emit (Sys (SysStat (candidate (Digest blobinfo) dc))) w).
Proof.
  unfold missing_stat, blobCacheReference.HasBlob_probe, candidate. intros Hm. unfold bind.
  rewrite Stat_run.
  destruct (stat_of_cases w (filepath.Join (fst dc) (makeFilename (Digest blobinfo) (snd dc))))
    as [[fi E]|[e E]]; rewrite E in *; simpl in Hm; simpl.
  - destruct ((Size blobinfo =? -1)%Z || (Size blobinfo =? FileInfo_Size fi)%Z); reflexivity.
  - destruct e; simpl in *; try reflexivity. congruence.
Qed.

(** [HasBlob] is decided by the first candidate, in scan order, whose
    [os.Stat] is not "not found". *)
Lemma HasBlob_scan r blobinfo w pre dc post :
  Digest blobinfo <> "" ->
  dir_variants (contents (heap w) (blobCacheReference.directories r)) = pre ++ dc :: post ->
  Forall (fun q => missing_stat w (candidate (Digest blobinfo) q)) pre ->
  ~ missing_stat w (candidate (Digest blobinfo) dc) ->
  blobCacheReference.HasBlob r blobinfo w =
  (HasBlob_verdict blobinfo (candidate (Digest blobinfo) dc)
     (os.stat_of w (candidate (Digest blobinfo) dc)),
   emits (probes SysStat (Digest blobinfo) (pre ++ [dc])) w).
Proof.
  intros HD Hsplit Hpre Hdc. rewrite (HasBlob_unfold r blobinfo w HD), Hsplit.
  rewrite (range_skip (fun q => Sys (SysStat (candidate (Digest blobinfo) q)))
             (fun dc => blobCacheReference.HasBlob_probe blobinfo (fst dc) (snd dc))
             (fun w q => missing_stat w (candidate (Digest blobinfo) q))).
  - simpl range. unfold bind. rewrite HasBlob_body_decides by exact Hdc.
    unfold ret. rewrite stat_of_emits, emit_emits. unfold probes. now rewrite map_app.
  - intros; now apply HasBlob_body_miss.
  - intros; assumption.
  - exact Hpre.
Qed.

Lemma HasBlob_all_missing r blobinfo w :
  Digest blobinfo <> "" ->
  Forall (fun q => missing_stat w (candidate (Digest blobinfo) q))
         (dir_variants (contents (heap w) (blobCacheReference.directories r))) ->
  blobCacheReference.HasBlob r blobinfo w =
  ((false, -1, None),
   emits (probes SysStat (Digest blobinfo)
            (dir_variants (contents (heap w) (blobCacheReference.directories r)))) w).
Proof.
  intros HD Hall. rewrite (HasBlob_unfold r blobinfo w HD).
  rewrite (range_skip_all (fun q => Sys (SysStat (candidate (Digest blobinfo) q)))
             (fun dc => blobCacheReference.HasBlob_probe blobinfo (fst dc) (snd dc))
             (fun w q => missing_stat w (candidate (Digest blobinfo) q))).
  - reflexivity.
  - intros; now apply HasBlob_body_miss.
  - intros; assumption.
  - exact Hall.
Qed.

End HasBlobFacts.

(** ** C2: a size mismatch ends the scan *)

(** A candidate that exists with another size than the requested one makes
    [HasBlob] answer "absent, no error" at once: [os.IsNotExist(nil)] is
    false, so the second [if] of the loop body returns, with the [nil] that
    [errors.Wrapf] makes of a [nil] error. The candidates after it are not
    looked at. *)
Lemma HasBlob_size_mismatch {I} (r : blobCacheReference.t) (blobinfo : BlobInfo)
    (w : world I) pre dc post fi :
  Digest blobinfo <> "" ->
  dir_variants (contents (heap w) (blobCacheReference.directories r)) = pre ++ dc :: post ->
  Forall (fun q => missing_stat w (candidate (Digest blobinfo) q)) pre ->
  os.stat_of w (candidate (Digest blobinfo) dc) = (Some fi, None) ->
  Size blobinfo <> -1 -> Size blobinfo <> FileInfo_Size fi ->
  blobCacheReference.HasBlob r blobinfo w =
  ((false, -1, None), emits (probes SysStat (Digest blobinfo) (pre ++ [dc])) w).
Proof.
  intros HD Hsplit Hpre Hst Hunk Hsize.
  rewrite (HasBlob_scan r blobinfo w pre dc post HD Hsplit Hpre).
  - rewrite Hst. simpl.
    apply Z.eqb_neq in Hunk, Hsize. now rewrite Hunk, Hsize.
  - unfold missing_stat. rewrite Hst. simpl. congruence.
Qed.

(** C2 (the code departs from the claim). With a three-byte file under the
    digest in the first directory and the five-byte blob in the second,
    [HasBlob] asked for the digest with size 5 stats the first file only and
    reports the blob absent, without error, although the second directory
    holds a file of the requested size. *)
Theorem HasBlob_stops_at_first_size_mismatch :
  let w : world unit := quiet example.arrays example.stale_then_good tt in
  let wanted := {| Digest := example.D; Size := 5 |} in
  os.stat_of w "second/sha256:ab" = (Some {| FileInfo_Size := 5 |}, None) /\
  blobCacheReference.HasBlob example.two_dirs wanted w =
  ((false, -1, None), emits [Sys (SysStat "first/sha256:ab")] w).
Proof. split; reflexivity. Qed.

(** ** C7: construction and defensive copies *)

Section SliceFacts.
Implicit Types (h : gmap loc (list string)) (s : slice).

Lemma contents_valid h s : valid h s -> length (contents h s) = len s.
Proof.
  intros (a & Ha & Hle). unfold contents. rewrite Ha.
  rewrite length_take, length_drop. lia.
Qed.

Lemma contents_nonempty_dom h s : contents h s <> [] -> arr s ∈ dom h.
Proof.
  unfold contents. destruct (h !! arr s) eqn:E; [| congruence].
  intros _. apply elem_of_dom. eauto.
Qed.

(** A slice of a fresh array holds what was appended, and the arrays that
    were there are as they were. *)
Lemma append_to_empty_spec h xs s' h' :
  xs <> [] -> append_to_empty h xs = (s', h') ->
  (arr s' ∉ dom h) /\ contents h' s' = xs /\
  (forall s, arr s ∈ dom h -> contents h' s = contents h s).
Proof.
  intros Hxs. destruct xs as [|x xs]; [congruence |]. simpl.
  intros [= <- <-]. simpl. split; [apply is_fresh |]. split.
  - unfold contents. simpl. rewrite lookup_insert_eq. simpl.
    now rewrite firstn_all.
  - intros s Hs. unfold contents. rewrite lookup_insert_ne; [reflexivity |].
    intros E. rewrite <- E in Hs. now apply (is_fresh (dom h)).
Qed.

(** Writing through a slice touches its own array only. *)
Lemma store_other h s i v h' s' :
  store h s i v = Some h' -> arr s <> arr s' -> contents h' s' = contents h s'.
Proof.
  unfold store. destruct (decide (i < len s)%nat); [| discriminate].
  destruct (h !! arr s) eqn:E; [| discriminate].
  intros [= <-] Hne. unfold contents. now rewrite lookup_insert_ne.
Qed.

End SliceFacts.

Section CopyFacts.
Context {I : Type}.
Implicit Types (w : world I).

Lemma copy_run (s : slice) w :
  blobCacheReference.copy s w =
  (fst (append_to_empty (heap w) (contents (heap w) s)),
   set_heap (snd (append_to_empty (heap w) (contents (heap w) s))) w).
Proof.
  unfold blobCacheReference.copy, blobCacheReference.load, bind, get.
  now destruct (append_to_empty (heap w) (contents (heap w) s)).
Qed.

(** C7. [NewBlobCache] refuses an empty directory list and builds nothing.
    When it succeeds (on a slice that lies within its array), the reference
    holds the caller's directories in an array of its own, which no write
    through a slice the caller had can reach. [Directories] hands out, on
    every call, a slice of a new array with the same strings: writing to it
    leaves the reference's directories as they were, and two calls never
    hand out the same array. *)
Theorem NewBlobCache_copies_and_Directories_copies :
  (forall (ref : ImageReference) (s : slice) w,
      len s = 0%nat ->
      NewBlobCache ref s w =
      ((None, Some (Errorf "error building cache: no cache directory specified for %q"
                           [transports.ImageName ref])), w)) /\
  (forall (ref : ImageReference) (s : slice) w r e w',
      valid (heap w) s ->
      NewBlobCache ref s w = ((Some r, e), w') ->
      e = None /\
      contents (heap w') (blobCacheReference.directories r) = contents (heap w) s /\
      contents (heap w') (blobCacheReference.directories r) <> [] /\
      (arr (blobCacheReference.directories r) ∉ dom (heap w)) /\
      (forall s0 i v h,
          arr s0 ∈ dom (heap w) -> store (heap w') s0 i v = Some h ->
          contents h (blobCacheReference.directories r) = contents (heap w) s)) /\
  (forall (r : blobCacheReference.t) w s' w',
      contents (heap w) (blobCacheReference.directories r) <> [] ->
      blobCacheReference.Directories r w = (s', w') ->
      contents (heap w') s' = contents (heap w) (blobCacheReference.directories r) /\
      (arr s' ∉ dom (heap w)) /\
      (arr s' ∈ dom (heap w')) /\
      contents (heap w') (blobCacheReference.directories r)
      = contents (heap w) (blobCacheReference.directories r) /\
      (forall i v h,
          store (heap w') s' i v = Some h ->
          contents h (blobCacheReference.directories r)
          = contents (heap w) (blobCacheReference.directories r))) /\
  (forall (r : blobCacheReference.t) w s1 w1 s2 w2,
      contents (heap w) (blobCacheReference.directories r) <> [] ->
      blobCacheReference.Directories r w = (s1, w1) ->
      blobCacheReference.Directories r w1 = (s2, w2) ->
      arr s1 <> arr s2).
Proof.
  assert (Hdirs : forall (r : blobCacheReference.t) w s' w',
      contents (heap w) (blobCacheReference.directories r) <> [] ->
      blobCacheReference.Directories r w = (s', w') ->
      contents (heap w') s' = contents (heap w) (blobCacheReference.directories r) /\
      (arr s' ∉ dom (heap w)) /\
      (arr s' ∈ dom (heap w')) /\
      contents (heap w') (blobCacheReference.directories r)
      = contents (heap w) (blobCacheReference.directories r) /\
      (forall i v h,
          store (heap w') s' i v = Some h ->
          contents h (blobCacheReference.directories r)
          = contents (heap w) (blobCacheReference.directories r))).
  { intros r w s' w' Hne. unfold blobCacheReference.Directories.
    rewrite copy_run. intros [= <- <-].
    destruct (append_to_empty (heap w) (contents (heap w) (blobCacheReference.directories r)))
      as [s' h'] eqn:Happ.
    destruct (append_to_empty_spec _ _ _ _ Hne Happ) as (Hfresh & Hcopy & Hold).
    pose proof (contents_nonempty_dom _ _ Hne) as Hdom.
    simpl. repeat split; try assumption.
    - destruct (contents (heap w) (blobCacheReference.directories r)); [congruence |].
      simpl in Happ. injection Happ as <- <-. simpl. apply elem_of_dom.
      rewrite lookup_insert_eq. eauto.
    - now apply Hold.
    - intros i v h Hstore.
      rewrite (store_other _ _ _ _ _ _ Hstore); [now apply Hold |].
      intros E. rewrite E in Hfresh. contradiction. }
  split; [| split; [| split; [exact Hdirs |]]].
  - intros ref s w Hlen. unfold NewBlobCache. now rewrite Hlen.
  - intros ref s w r e w' Hvalid. unfold NewBlobCache.
    destruct (len s =? 0)%nat eqn:Hlen; [intros [= ] |].
    apply Nat.eqb_neq in Hlen.
    unfold bind. rewrite copy_run. unfold ret. intros [= <- <- <-].
    assert (Hne : contents (heap w) s <> []).
    { intros E. apply (f_equal length) in E. rewrite contents_valid in E by assumption.
      simpl in E. lia. }
    destruct (append_to_empty (heap w) (contents (heap w) s)) as [s' h'] eqn:Happ.
    destruct (append_to_empty_spec _ _ _ _ Hne Happ) as (Hfresh & Hcopy & Hold).
    simpl. repeat split; try assumption; try congruence.
    intros s0 i v h Hs0 Hstore.
    rewrite (store_other _ _ _ _ _ _ Hstore); [assumption |].
    intros E. rewrite E in Hs0. contradiction.
  - intros r w s1 w1 s2 w2 Hne H1 H2.
    destruct (Hdirs r w s1 w1 Hne H1) as (_ & _ & Hin & Hsame & _).
    rewrite <- Hsame in Hne.
    destruct (Hdirs r w1 s2 w2 Hne H2) as (_ & Hout & _).
    intros E. rewrite E in Hin. contradiction.
Qed.

End CopyFacts.

(** ** The cached destination: [PutBlob] *)

Section PutBlobFacts.
Context {I : Type}.
Implicit Types (w : world I) (d : blobCacheDestination.t I).

Lemma TempFile_run dir prefix w :
  ioutil.TempFile dir prefix w =
  (ioutil.tempfile_of w dir prefix,
   match ioutil.tempfile_of w dir prefix with
   | (Some f, _) => set_fs (<[Name f := []]> (fs w)) (emit (Sys (SysTempFile dir prefix)) w)
   | (None, _) => emit (Sys (SysTempFile dir prefix)) w
   end).
Proof.
  unfold ioutil.TempFile, ioutil.tempfile_of, ioutil.tempfile_name, bind, modify, get, ret. simpl.
  destruct (faults w (SysTempFile dir prefix)); [reflexivity |].
  destruct (fs w !! _); reflexivity.
Qed.

(** [PutBlob] on a blob without a digest. *)
Lemma PutBlob_no_digest_run d (stream0 : stream) (inputInfo : BlobInfo) (isConfig : bool) w
    n newBlobInfo e i :
  Digest inputInfo = "" ->
  dest_PutBlob (blobCacheDestination.destination d) stream0 inputInfo isConfig (inner w)
  = ((n, newBlobInfo, e), i) ->
  blobCacheDestination.PutBlob d stream0 inputInfo isConfig w =
  (Returns (newBlobInfo, PutBlob_error (heap w) (blobCacheDestination.reference d) e),
   emit (DestPutBlob inputInfo isConfig e) (set_inner i w)).
Proof.
  intros HD Hin.
  unfold blobCacheDestination.PutBlob, blobCacheDestination.PutBlob_prepare.
  rewrite HD. simpl negb. cbv iota.
  unfold bind, ret, call, modify. rewrite Hin.
  destruct e as [e|]; reflexivity.
Qed.

(** C9. A blob without a digest goes to the wrapped destination as it came:
    the call is made on the caller's stream, and the world afterwards is the
    world before with the destination's new state and the one event of that
    call in the trace: no temporary file, no tee, the heap, the files and
    the log untouched. *)
Theorem PutBlob_anonymous d (stream0 : stream) (inputInfo : BlobInfo) (isConfig : bool) w :
  Digest inputInfo = "" ->
  let '((n, newBlobInfo, e), i) :=
    dest_PutBlob (blobCacheDestination.destination d) stream0 inputInfo isConfig (inner w) in
  let '(res, w') := blobCacheDestination.PutBlob d stream0 inputInfo isConfig w in
  res = Returns (newBlobInfo, PutBlob_error (heap w) (blobCacheDestination.reference d) e) /\
  w' = emit (DestPutBlob inputInfo isConfig e) (set_inner i w) /\
  fs w' = fs w /\ heap w' = heap w /\ log w' = log w /\
  trace w' = trace w ++ [DestPutBlob inputInfo isConfig e].
Proof.
  intros HD.
  destruct (dest_PutBlob _ stream0 inputInfo isConfig (inner w)) as [[[n bi] e] i] eqn:Hin.
  rewrite (PutBlob_no_digest_run d stream0 inputInfo isConfig w n bi e i HD Hin).
  repeat split; reflexivity.
Qed.

(** The first half of [PutBlob] for a blob with a digest. *)
Lemma PutBlob_prepare_run d (stream0 : stream) (inputInfo : BlobInfo) (isConfig : bool) w
    directory0 rest :
  Digest inputInfo <> "" ->
  contents (heap w) (blobCacheReference.directories (blobCacheDestination.reference d))
  = directory0 :: rest ->
  let prefix := makeFilename (Digest inputInfo) isConfig in
  let w1 := emit (Sys (SysTempFile (primary directory0) prefix)) w in
  blobCacheDestination.PutBlob_prepare d stream0 inputInfo isConfig w =
  match ioutil.tempfile_of w (primary directory0) prefix with
  | (Some f, None) =>
      (Returns (io.teed w stream0 (Name f),
                Some (f, canonical directory0 (Digest inputInfo) isConfig)),
       set_fs (<[Name f := []]> (fs w)) w1)
  | (None, None) => (Panics, w1)
  | (Some _, Some e) | (None, Some e) =>
      (Returns (stream0, None),
       logrus (Debugf "error while creating a temporary file under %q to hold blob %q: %v"
                      [directory0; Digest inputInfo] e) 
              (match ioutil.tempfile_of w (primary directory0) prefix with
               | (Some f, _) => set_fs (<[Name f := []]> (fs w)) w1
               | (None, _) => w1
               end))
  end.
Proof.
  intros HD Hdirs prefix w1.
  unfold blobCacheDestination.PutBlob_prepare.
  apply String.eqb_neq in HD. rewrite HD. cbn [negb].
  unfold bind at 1. unfold blobCacheReference.load, get. rewrite Hdirs.
  fold (primary directory0). fold prefix.
  unfold bind at 1. rewrite TempFile_run.
  destruct (ioutil.tempfile_of w (primary directory0) prefix) as [[f|] [e|]]; reflexivity.
Qed.

Lemma tempfile_of_created w dir prefix f :
  ioutil.tempfile_of w dir prefix = (Some f, None) ->
  f = {| Name := ioutil.tempfile_name w dir prefix; bytes := [] |} /\
  faults w (SysTempFile dir prefix) = None /\
  fs w !! ioutil.tempfile_name w dir prefix = None.
Proof.
  unfold ioutil.tempfile_of.
  destruct (faults w (SysTempFile dir prefix)); [discriminate |].
  destruct (fs w !! ioutil.tempfile_name w dir prefix); [discriminate |].
  intros [= <-]. auto.
Qed.

(** [PutBlob] on a blob with a digest, once the temporary file is open. *)
Lemma PutBlob_cached_run d (stream0 : stream) (inputInfo : BlobInfo) (isConfig : bool) w
    directory0 rest f n newBlobInfo e i :
  Digest inputInfo <> "" ->
  contents (heap w) (blobCacheReference.directories (blobCacheDestination.reference d))
  = directory0 :: rest ->
  ioutil.tempfile_of w (primary directory0) (makeFilename (Digest inputInfo) isConfig) = (Some f, None) ->
  dest_PutBlob (blobCacheDestination.destination d) (io.teed w stream0 (Name f))
               inputInfo isConfig (inner w) = ((n, newBlobInfo, e), i) ->
  let tmp := Name f in
  let filename := canonical directory0 (Digest inputInfo) isConfig in
  let written := take n (data (io.teed w stream0 tmp)) in
  let '(res, w') := blobCacheDestination.PutBlob d stream0 inputInfo isConfig w in
  res = Returns (newBlobInfo, PutBlob_error (heap w) (blobCacheDestination.reference d) e) /\
  heap w' = heap w /\ inner w' = i /\ faults w' = faults w /\
  trace w' = trace w ++
    [Sys (SysTempFile (primary directory0) (makeFilename (Digest inputInfo) isConfig));
     TeeWrite tmp (length written);
     DestPutBlob inputInfo isConfig e;
     if is_nil e then Sys (SysRename tmp filename) else Sys (SysRemove tmp);
     Sys (SysClose tmp)] /\
  fs w' =
    (if is_nil e then
       match faults w (SysRename tmp filename) with
       | Some _ => <[tmp := written]> (fs w)
       | None => <[filename := written]> (fs w)
       end
     else
       match faults w (SysRemove tmp) with
       | Some _ => <[tmp := written]> (fs w)
       | None => fs w
       end) /\
  log w' =
    (if is_nil e then log w
     else
       match faults w (SysRemove tmp) with
       | Some er =>
           log w ++ [Debugf "error cleaning up temporary file %q for blob %q: %v"
                            [tmp; Digest inputInfo] (PathError "remove" tmp er)]
       | None => log w
       end).
Proof.
  intros HD Hdirs Htemp Hcall tmp filename written.
  destruct (tempfile_of_created _ _ _ _ Htemp) as (Hf & _ & Hfree).
  assert (Htmp : fs w !! tmp = None) by (unfold tmp; rewrite Hf; exact Hfree).
  unfold blobCacheDestination.PutBlob. unfold bind at 1.
  rewrite (PutBlob_prepare_run d stream0 inputInfo isConfig w directory0 rest HD Hdirs).
  rewrite Htemp. cbv beta iota zeta.
  unfold bind at 1. unfold call at 1.
  change (inner (set_fs _ _)) with (inner w). rewrite Hcall.
  fold tmp. fold filename.
  unfold io.tee_written, blobCacheDestination.PutBlob_deferred.
  destruct e as [e|]; cbn [is_nil negb].
  - repeat progress unfold bind, modify, ret, os.Close, os.Remove, blobCacheReference.ImageName,
      blobCacheReference.StringWithinTransport, blobCacheReference.load, get.
    simpl. change (Name f) with tmp. rewrite !lookup_insert_eq. simpl.
    destruct (faults w (SysRemove tmp)) as [er|]; simpl.
    + rewrite insert_insert_eq, <- !app_assoc. repeat split; reflexivity.
    + rewrite lookup_insert_eq. simpl.
      rewrite !delete_insert_eq, (delete_id _ _ Htmp), <- !app_assoc.
      repeat split; reflexivity.
  - repeat progress unfold bind, modify, ret, os.Close, os.Rename, get.
    simpl. change (Name f) with tmp. rewrite !lookup_insert_eq. simpl.
    destruct (faults w (SysRename tmp filename)) as [er|]; simpl.
    + rewrite insert_insert_eq, <- !app_assoc. repeat split; reflexivity.
    + rewrite lookup_insert_eq. simpl.
      rewrite !delete_insert_eq, (delete_id _ _ Htmp), <- !app_assoc.
      repeat split; reflexivity.
Qed.

(** [PutBlob] on a blob with a digest when no temporary file could be
    opened. *)
Lemma PutBlob_uncached_run d (stream0 : stream) (inputInfo : BlobInfo) (isConfig : bool) w
    directory0 rest e0 n newBlobInfo e i :
  Digest inputInfo <> "" ->
  contents (heap w) (blobCacheReference.directories (blobCacheDestination.reference d))
  = directory0 :: rest ->
  ioutil.tempfile_of w (primary directory0) (makeFilename (Digest inputInfo) isConfig) = (None, Some e0) ->
  dest_PutBlob (blobCacheDestination.destination d) stream0 inputInfo isConfig (inner w)
  = ((n, newBlobInfo, e), i) ->
  let '(res, w') := blobCacheDestination.PutBlob d stream0 inputInfo isConfig w in
  res = Returns (newBlobInfo, PutBlob_error (heap w) (blobCacheDestination.reference d) e) /\
  heap w' = heap w /\ inner w' = i /\ fs w' = fs w /\
  trace w' = trace w ++
    [Sys (SysTempFile (primary directory0) (makeFilename (Digest inputInfo) isConfig));
     DestPutBlob inputInfo isConfig e] /\
  log w' = log w ++
    [Debugf "error while creating a temporary file under %q to hold blob %q: %v"
            [directory0; Digest inputInfo] e0].
Proof.
  intros HD Hdirs Htemp Hcall.
  unfold blobCacheDestination.PutBlob. unfold bind at 1.
  rewrite (PutBlob_prepare_run d stream0 inputInfo isConfig w directory0 rest HD Hdirs).
  rewrite Htemp. cbv beta iota zeta.
  unfold bind at 1. unfold call at 1.
  change (inner (logrus _ _)) with (inner w). rewrite Hcall.
  destruct e as [e|]; cbn [is_nil negb];
    repeat progress unfold bind, modify, ret, blobCacheReference.ImageName,
      blobCacheReference.StringWithinTransport, blobCacheReference.load, get;
    simpl; rewrite <- !app_assoc; repeat split; reflexivity.
Qed.

Lemma tempfile_of_cases w dir prefix :
  (exists f, ioutil.tempfile_of w dir prefix = (Some f, None)) \/
  (exists e, ioutil.tempfile_of w dir prefix = (None, Some e)).
Proof.
  unfold ioutil.tempfile_of. destruct (faults w (SysTempFile dir prefix)); [eauto |].
  destruct (fs w !! _); eauto.
Qed.

(** [PutBlob] when nothing goes wrong: the blob is in the cache under its
    file name, and nothing else has changed in the files. *)
Lemma PutBlob_healthy_run d (blob : list byte) (inputInfo : BlobInfo) (isConfig : bool) w
    directory0 rest n newBlobInfo i :
  Digest inputInfo <> "" ->
  contents (heap w) (blobCacheReference.directories (blobCacheDestination.reference d))
  = directory0 :: rest ->
  healthy w ->
  fs w !! ioutil.tempfile_name w (primary directory0) (makeFilename (Digest inputInfo) isConfig) = None ->
  dest_PutBlob (blobCacheDestination.destination d) {| data := blob; rderr := None |}
               inputInfo isConfig (inner w) = ((n, newBlobInfo, None), i) ->
  (length blob <= n)%nat ->
  let '(res, w') :=
    blobCacheDestination.PutBlob d {| data := blob; rderr := None |} inputInfo isConfig w in
  res = Returns (newBlobInfo, None) /\
  heap w' = heap w /\ faults w' = faults w /\
  fs w' = <[canonical directory0 (Digest inputInfo) isConfig := blob]> (fs w).
Proof.
  intros HD Hdirs [Hq Htee] Hfree Hcall Hall.
  set (s := {| data := blob; rderr := None |}) in *.
  assert (Htemp : ioutil.tempfile_of w (primary directory0) (makeFilename (Digest inputInfo) isConfig)
                  = (Some {| Name := ioutil.tempfile_name w (primary directory0)
                                       (makeFilename (Digest inputInfo) isConfig);
                             bytes := [] |}, None)).
  { unfold ioutil.tempfile_of. now rewrite Hq, Hfree. }
  assert (Hteed : forall name, io.teed w s name = s).
  { intros name. unfold io.teed. now rewrite Htee. }
  pose proof (PutBlob_cached_run d s inputInfo isConfig w directory0 rest _ n newBlobInfo
                None i HD Hdirs Htemp) as H.
  rewrite Hteed in H. specialize (H Hcall). cbv zeta in H. rewrite Hteed in H.
  destruct (blobCacheDestination.PutBlob d s inputInfo isConfig w) as [res w'].
  destruct H as (Hres & Hheap & _ & Hfaults & _ & Hfs & _).
  simpl in Hfs. rewrite Hq in Hfs.
  replace (take n blob) with blob in Hfs by (symmetry; now apply take_ge).
  auto.
Qed.

(** ** C3: whose result [PutBlob] returns *)


End PutBlobFacts.


(** ** C4: the rename comes last, and only on success *)

Section RenameFacts.
Context {I : Type}.
Implicit Types (w : world I) (d : blobCacheDestination.t I).

Lemma primary_nonempty (directory0 : string) : (primary directory0 =? "")%string = false.
Proof.
  unfold primary. destruct (String.eqb_spec directory0 "") as [->|H]; [reflexivity |].
  now apply String.eqb_neq.
Qed.

Lemma tempfile_name_not_canonical w directory0 (D : digest.Digest) (isConfig : bool) :
  D <> "" -> nine_digits (suffix w) = true ->
  ioutil.tempfile_name w (primary directory0) (makeFilename D isConfig)
  <> canonical directory0 D isConfig.
Proof.
  intros HD Hs. unfold ioutil.tempfile_name, canonical. rewrite primary_nonempty.
  apply tempfile_not_canonical; [now apply makeFilename_nonempty | assumption].
Qed.


End RenameFacts.


(** The exit C4 leaves aside: the wrapped destination's [PutBlob] panics
    after reading two bytes. The deferred function still finds [err] to be
    [nil], and renames the two bytes into the cache while the panic
    unwinds. *)
Example PutBlob_renames_while_unwinding :
  let '(res, w') :=
    blobCacheDestination.PutBlob_unwinding example.to_memory example.hello example.hello_info
      false 2 [] example.fresh in
  res = Panics /\
  trace w' = [Sys (SysTempFile "cache" "sha256:ab");
              TeeWrite "cache/sha256:ab123456789" 2;
              Sys (SysRename "cache/sha256:ab123456789" "cache/sha256:ab");
              Sys (SysClose "cache/sha256:ab123456789")] /\
  fs w' !! "cache/sha256:ab" = Some (bytes_of "he").
Proof. vm_compute. repeat split; reflexivity. Qed.

(** ** The cached source: [GetBlob] *)

Section GetBlobFacts.
Context {I : Type}.
Implicit Types (w : world I) (src : blobCacheSource.t I).

(** A loop of probes that only leave events leaves only events. *)
Lemma range_emits {A R} (ev : A -> event) (body : A -> M I (option R)) :
  (forall x w, exists r, body x w = (r, emit (ev x) w)) ->
  forall xs w, exists r es, range xs body w = (r, emits es w).
Proof.
  intros Hbody xs. induction xs as [|x xs IH]; intros w; simpl.
  - exists None, []. unfold ret. now rewrite emits_nil.
  - unfold bind. destruct (Hbody x w) as [r Hr]. rewrite Hr.
    destruct r as [v|].
    + exists (Some v), [ev x]. reflexivity.
    + destruct (IH (emit (ev x) w)) as (r & es & E). rewrite E.
      exists r, (ev x :: es). now rewrite emits_emit.
Qed.

(** [HasBlob] only looks: it leaves the world as it was, up to the trace. *)
Lemma HasBlob_frame (r : blobCacheReference.t) (blobinfo : BlobInfo) w :
  exists es, snd (blobCacheReference.HasBlob r blobinfo w) = emits es w.
Proof.
  destruct (String.eqb_spec (Digest blobinfo) "") as [HD|HD].
  - unfold blobCacheReference.HasBlob. rewrite HD. simpl.
    exists []. now rewrite emits_nil.
  - rewrite (HasBlob_unfold r blobinfo w HD).
    destruct (range_emits
                (fun dc => Sys (SysStat (candidate (Digest blobinfo) dc)))
                (fun dc => blobCacheReference.HasBlob_probe blobinfo (fst dc) (snd dc)))
      with (xs := dir_variants (contents (heap w) (blobCacheReference.directories r)))
           (w := w) as (res & es & E).
    + intros dc w0. unfold blobCacheReference.HasBlob_probe, bind.
      rewrite Stat_run. destruct (os.stat_of w0 _) as [[fi|] e]; simpl.
      * destruct (is_nil e && _); [eexists; reflexivity |].
        destruct (negb (IsNotExist e)); eexists; reflexivity.
      * destruct (negb (IsNotExist e)); eexists; reflexivity.
    + rewrite E. exists es. reflexivity.
Qed.

Lemma GetBlob_delegate_run src (blobinfo : BlobInfo) w :
  blobCacheSource.GetBlob_delegate src blobinfo w =
  let '((rc, size, e), i) := src_GetBlob (blobCacheSource.source src) blobinfo (inner w) in
  ((rc, size, Wrapf e "error reading blob from source image %q"
                    [cache_name (heap w) (blobCacheSource.reference src)]),
   emit (SrcGetBlob blobinfo) (set_inner i w)).
Proof.
  unfold blobCacheSource.GetBlob_delegate, bind, call, modify.
  destruct (src_GetBlob _ blobinfo (inner w)) as [[[rc size] e] i].
  destruct e; reflexivity.
Qed.

Lemma GetBlob_unfold src (blobinfo : BlobInfo) w :
  blobCacheSource.GetBlob src blobinfo w =
  let '((present, size, e), w1) :=
    blobCacheReference.HasBlob (blobCacheSource.reference src) blobinfo w in
  if negb (is_nil e) then ((None, -1, e), w1)
  else if present then
    let '(found, w2) :=
      range (dir_variants (contents (heap w1)
               (blobCacheReference.directories (blobCacheSource.reference src))))
            (fun dc => blobCacheSource.GetBlob_probe blobinfo size (fst dc) (snd dc)) w1 in
    match found with
    | Some v => (v, w2)
    | None => blobCacheSource.GetBlob_delegate src blobinfo w2
    end
  else blobCacheSource.GetBlob_delegate src blobinfo w1.
Proof.
  unfold blobCacheSource.GetBlob. unfold bind at 1.
  destruct (blobCacheReference.HasBlob _ blobinfo w) as [[[present size] e] w1].
  destruct e as [e|]; [reflexivity |]. cbn [is_nil negb].
  destruct present; [| reflexivity].
  unfold bind at 1. unfold bind at 1. unfold blobCacheReference.load, get.
  rewrite range_variants.
  destruct (range _ _ w1) as [[v|] w2]; reflexivity.
Qed.

Lemma GetBlob_probe_miss (blobinfo : BlobInfo) size w dc :
  missing_open w (candidate (Digest blobinfo) dc) ->
  blobCacheSource.GetBlob_probe blobinfo size (fst dc) (snd dc) w =
  (None, emit (Sys (SysOpen (candidate (Digest blobinfo) dc))) w).
Proof.
  unfold missing_open, blobCacheSource.GetBlob_probe, candidate. intros Hm.
  unfold bind. rewrite Open_run.
  destruct (open_of_cases w (filepath.Join (fst dc) (makeFilename (Digest blobinfo) (snd dc))))
    as [[c E]|[e E]]; rewrite E in *; simpl in Hm; [discriminate |].
  simpl. rewrite Hm. reflexivity.
Qed.

Lemma GetBlob_probe_decides (blobinfo : BlobInfo) size w dc :
  ~ missing_open w (candidate (Digest blobinfo) dc) ->
  blobCacheSource.GetBlob_probe blobinfo size (fst dc) (snd dc) w =
  (Some (GetBlob_verdict size dc (Digest blobinfo)
           (os.open_of w (candidate (Digest blobinfo) dc))),
   emit (Sys (SysOpen (candidate (Digest blobinfo) dc))) w).
Proof.
  unfold missing_open, blobCacheSource.GetBlob_probe, candidate. intros Hm.
  unfold bind. rewrite Open_run.
  destruct (open_of_cases w (filepath.Join (fst dc) (makeFilename (Digest blobinfo) (snd dc))))
    as [[c E]|[e E]]; rewrite E in *; simpl in Hm; simpl; [reflexivity |].
  destruct e; simpl in *; try reflexivity. congruence.
Qed.

(** After a [HasBlob] that reported the blob present, [GetBlob] is decided
    by the first candidate whose [os.Open] is not "not found". *)
Lemma GetBlob_present_scan src (blobinfo : BlobInfo) w size w1 pre dc post :
  blobCacheReference.HasBlob (blobCacheSource.reference src) blobinfo w
  = ((true, size, None), w1) ->
  dir_variants (contents (heap w)
     (blobCacheReference.directories (blobCacheSource.reference src))) = pre ++ dc :: post ->
  Forall (fun q => missing_open w (candidate (Digest blobinfo) q)) pre ->
  ~ missing_open w (candidate (Digest blobinfo) dc) ->
  blobCacheSource.GetBlob src blobinfo w =
  (GetBlob_verdict size dc (Digest blobinfo) (os.open_of w (candidate (Digest blobinfo) dc)),
   emits (probes SysOpen (Digest blobinfo) (pre ++ [dc])) w1).
Proof.
  intros Hhas Hsplit Hpre Hdc.
  destruct (HasBlob_frame (blobCacheSource.reference src) blobinfo w) as [es Hes].
  rewrite Hhas in Hes. simpl in Hes. subst w1.
  rewrite GetBlob_unfold, Hhas. cbn [is_nil negb].
  change (heap (emits es w)) with (heap w). rewrite Hsplit.
  rewrite (range_skip (fun q => Sys (SysOpen (candidate (Digest blobinfo) q)))
             (fun dc => blobCacheSource.GetBlob_probe blobinfo size (fst dc) (snd dc))
             (fun w q => missing_open w (candidate (Digest blobinfo) q))).
  - simpl range. unfold bind. rewrite GetBlob_probe_decides by exact Hdc.
    unfold ret. rewrite !open_of_emits, emit_emits. unfold probes. now rewrite map_app.
  - intros; now apply GetBlob_probe_miss.
  - intros; assumption.
  - exact Hpre.
Qed.

Lemma GetBlob_present_all_missing src (blobinfo : BlobInfo) w size w1 :
  blobCacheReference.HasBlob (blobCacheSource.reference src) blobinfo w
  = ((true, size, None), w1) ->
  Forall (fun q => missing_open w (candidate (Digest blobinfo) q))
    (dir_variants (contents (heap w)
       (blobCacheReference.directories (blobCacheSource.reference src)))) ->
  blobCacheSource.GetBlob src blobinfo w =
  blobCacheSource.GetBlob_delegate src blobinfo
    (emits (probes SysOpen (Digest blobinfo)
              (dir_variants (contents (heap w)
                 (blobCacheReference.directories (blobCacheSource.reference src))))) w1).
Proof.
  intros Hhas Hall.
  destruct (HasBlob_frame (blobCacheSource.reference src) blobinfo w) as [es Hes].
  rewrite Hhas in Hes. simpl in Hes. subst w1.
  rewrite GetBlob_unfold, Hhas. cbn [is_nil negb].
  change (heap (emits es w)) with (heap w).
  rewrite (range_skip_all (fun q => Sys (SysOpen (candidate (Digest blobinfo) q)))
             (fun dc => blobCacheSource.GetBlob_probe blobinfo size (fst dc) (snd dc))
             (fun w q => missing_open w (candidate (Digest blobinfo) q))).
  - reflexivity.
  - intros; now apply GetBlob_probe_miss.
  - intros; assumption.
  - exact Hall.
Qed.

(** C10. When [HasBlob] reported the blob present and then every candidate
    file fails to open with "not found", [GetBlob] asks the wrapped source
    and returns its answer (its error wrapped, as for any miss): the
    vanished entry raises no error of its own. When instead the first
    candidate that is not "not found" fails to open with another error,
    that error is returned, wrapped, and the wrapped source is not asked. *)
Theorem GetBlob_vanished_entry_falls_back src (blobinfo : BlobInfo) w size w1 :
  blobCacheReference.HasBlob (blobCacheSource.reference src) blobinfo w
  = ((true, size, None), w1) ->
  let variants := dir_variants (contents (heap w)
     (blobCacheReference.directories (blobCacheSource.reference src))) in
  let '(res, w') := blobCacheSource.GetBlob src blobinfo w in
  (Forall (fun q => missing_open w (candidate (Digest blobinfo) q)) variants ->
   let '((rc, sz, e), i) := src_GetBlob (blobCacheSource.source src) blobinfo (inner w) in
   res = (rc, sz, Wrapf e "error reading blob from source image %q"
                        [cache_name (heap w) (blobCacheSource.reference src)]) /\
   inner w' = i /\
   trace w' = trace w1 ++ probes SysOpen (Digest blobinfo) variants ++ [SrcGetBlob blobinfo]) /\
  (forall pre dc post e,
      variants = pre ++ dc :: post ->
      Forall (fun q => missing_open w (candidate (Digest blobinfo) q)) pre ->
      os.open_of w (candidate (Digest blobinfo) dc) = (None, Some e) ->
      IsNotExist (Some e) = false ->
      res = (None, -1, Wrapf (Some e) "error checking for cache file %q"
                             [filepath.Join (fst dc) (candidate (Digest blobinfo) dc)]) /\
      inner w' = inner w /\
      trace w' = trace w1 ++ probes SysOpen (Digest blobinfo) (pre ++ [dc])).
Proof.
  intros Hhas variants.
  destruct (HasBlob_frame (blobCacheSource.reference src) blobinfo w) as [es Hes].
  rewrite Hhas in Hes. simpl in Hes.
  destruct (blobCacheSource.GetBlob src blobinfo w) as [res w'] eqn:Hget.
  split.
  - intros Hall.
    rewrite (GetBlob_present_all_missing src blobinfo w size w1 Hhas Hall) in Hget.
    rewrite GetBlob_delegate_run in Hget. subst w1.
    change (inner (emits _ (emits es w))) with (inner w) in Hget.
    change (heap (emits _ (emits es w))) with (heap w) in Hget.
    destruct (src_GetBlob _ blobinfo (inner w)) as [[[rc sz] e] i].
    injection Hget as <- <-. simpl. rewrite <- !app_assoc. auto.
  - intros pre dc post e Hsplit Hpre Hopen Hne.
    rewrite (GetBlob_present_scan src blobinfo w size w1 pre dc post Hhas Hsplit Hpre) in Hget.
    + rewrite Hopen in Hget. injection Hget as <- <-. subst w1. simpl. auto.
    + unfold missing_open. rewrite Hopen. simpl. simpl in Hne. congruence.
Qed.

End GetBlobFacts.

(** ** C1: what was written is what is read *)

Section RoundTrip.
Context {I : Type}.
Implicit Types (w : world I).

Lemma stat_of_quiet w name :
  (forall c, faults w c = None) ->
  os.stat_of w name =
  match fs w !! name with
  | Some c => (Some {| FileInfo_Size := Z.of_nat (length c) |}, None)
  | None => (None, Some (PathError "stat" name ENOENT))
  end.
Proof. intros H. unfold os.stat_of. now rewrite H. Qed.

Lemma open_of_quiet w name :
  (forall c, faults w c = None) ->
  os.open_of w name =
  match fs w !! name with
  | Some c => (Some {| Name := name; bytes := c |}, None)
  | None => (None, Some (PathError "open" name ENOENT))
  end.
Proof. intros H. unfold os.open_of. now rewrite H. Qed.

(** The name [PutBlob] renames to is the name the lookups probe. *)
Lemma canonical_candidate directory0 (D : digest.Digest) (isConfig : bool) :
  D <> "" -> directory0 <> "" \/ filepath.rooted D = false ->
  canonical directory0 D isConfig = candidate D (directory0, isConfig).
Proof.
  intros HD Hdir. unfold canonical, candidate, primary. simpl.
  destruct (String.eqb_spec directory0 "") as [->|_]; [| reflexivity].
  destruct Hdir as [Hdir|Hroot]; [congruence |].
  apply Join_dot; [now apply makeFilename_nonempty |].
  now rewrite makeFilename_rooted.
Qed.

(** In a world whose calls are not refused, a file under a candidate name
    of the first directory is found and served, unless it is the [.config]
    file and a plain-named one stands before it. *)
Lemma first_directory_lookup (src : blobCacheSource.t I) (D : digest.Digest) (sz : Z) w
    directory0 rest (isConfig : bool) (content : list byte) :
  D <> "" ->
  (forall c, faults w c = None) ->
  contents (heap w) (blobCacheReference.directories (blobCacheSource.reference src))
  = directory0 :: rest ->
  fs w !! candidate D (directory0, isConfig) = Some content ->
  isConfig = false \/ fs w !! candidate D (directory0, false) = None ->
  sz = -1 \/ sz = Z.of_nat (length content) ->
  fst (blobCacheReference.HasBlob (blobCacheSource.reference src)
         {| Digest := D; Size := sz |} w)
  = (true, Z.of_nat (length content), None) /\
  fst (blobCacheSource.GetBlob src {| Digest := D; Size := sz |} w)
  = (Some {| data := content; rderr := None |}, Z.of_nat (length content), None).
Proof.
  intros HD Hq Hdirs Hfile Hplain Hsz.
  set (info := {| Digest := D; Size := sz |}).
  assert (Hsize : ((sz =? -1)%Z || (sz =? Z.of_nat (length content))%Z) = true).
  { destruct Hsz as [->| ->]; [reflexivity |]. rewrite Z.eqb_refl. apply orb_true_r. }
  assert (Hsplit : exists pre post,
             dir_variants (contents (heap w)
               (blobCacheReference.directories (blobCacheSource.reference src)))
             = pre ++ (directory0, isConfig) :: post /\
             Forall (fun q => fs w !! candidate D q = None) pre).
  { rewrite Hdirs. destruct isConfig.
    - destruct Hplain as [Hplain|Hplain]; [discriminate |].
      exists [(directory0, false)], (dir_variants rest). split; [reflexivity |].
      constructor; [assumption | constructor].
    - exists [], ((directory0, true) :: dir_variants rest). split; [reflexivity | constructor]. }
  destruct Hsplit as (pre & post & Hsplit & Hpre).
  assert (Hms : Forall (fun q => missing_stat w (candidate (Digest info) q)) pre).
  { eapply Forall_impl; [exact Hpre |]. intros q Hq'. unfold missing_stat.
    rewrite stat_of_quiet by assumption. simpl. now rewrite Hq'. }
  assert (Hmo : Forall (fun q => missing_open w (candidate (Digest info) q)) pre).
  { eapply Forall_impl; [exact Hpre |]. intros q Hq'. unfold missing_open.
    rewrite open_of_quiet by assumption. simpl. now rewrite Hq'. }
  assert (Hhas : blobCacheReference.HasBlob (blobCacheSource.reference src) info w
                 = ((true, Z.of_nat (length content), None),
                    emits (probes SysStat D (pre ++ [(directory0, isConfig)])) w)).
  { rewrite (HasBlob_scan _ info w pre (directory0, isConfig) post HD Hsplit Hms).
    - simpl Digest. rewrite stat_of_quiet by assumption. rewrite Hfile. simpl.
      now rewrite Hsize.
    - unfold missing_stat. simpl Digest. rewrite stat_of_quiet by assumption.
      rewrite Hfile. simpl. congruence. }
  split; [now rewrite Hhas |].
  rewrite (GetBlob_present_scan src info w _ _ pre (directory0, isConfig) post Hhas Hsplit Hmo).
  - simpl Digest. rewrite open_of_quiet by assumption. rewrite Hfile. reflexivity.
  - unfold missing_open. simpl Digest. rewrite open_of_quiet by assumption.
    rewrite Hfile. simpl. congruence.
Qed.

(** C1, as the code has it. A blob with a digest that [PutBlob] wrote in
    full into the first cache directory (the temporary name was free, no
    call was refused, the wrapped destination read the stream to its end and
    accepted it) is found by [HasBlob] with its size, asked with the size
    unknown or right, and served by [GetBlob] byte for byte, provided that
    no plain-named file of that digest stands in the first directory before
    a blob written as a config, and that the digest does not begin with a
    slash when the first directory is the empty string. *)
Theorem PutBlob_then_HasBlob_GetBlob (d : blobCacheDestination.t I) (src : blobCacheSource.t I)
    (blob : list byte) (inputInfo : BlobInfo) (isConfig : bool) (sz : Z) w
    directory0 rest n newBlobInfo i :
  blobCacheSource.reference src = blobCacheDestination.reference d ->
  Digest inputInfo <> "" ->
  contents (heap w) (blobCacheReference.directories (blobCacheDestination.reference d))
  = directory0 :: rest ->
  healthy w ->
  fs w !! ioutil.tempfile_name w (primary directory0) (makeFilename (Digest inputInfo) isConfig) = None ->
  dest_PutBlob (blobCacheDestination.destination d) {| data := blob; rderr := None |}
               inputInfo isConfig (inner w) = ((n, newBlobInfo, None), i) ->
  (length blob <= n)%nat ->
  isConfig = false \/ fs w !! candidate (Digest inputInfo) (directory0, false) = None ->
  directory0 <> "" \/ filepath.rooted (Digest inputInfo) = false ->
  sz = -1 \/ sz = Z.of_nat (length blob) ->
  let '(res, w') :=
    blobCacheDestination.PutBlob d {| data := blob; rderr := None |} inputInfo isConfig w in
  res = Returns (newBlobInfo, None) /\
  fst (blobCacheReference.HasBlob (blobCacheDestination.reference d)
         {| Digest := Digest inputInfo; Size := sz |} w')
  = (true, Z.of_nat (length blob), None) /\
  fst (blobCacheSource.GetBlob src {| Digest := Digest inputInfo; Size := sz |} w')
  = (Some {| data := blob; rderr := None |}, Z.of_nat (length blob), None).
Proof.
  intros Hsame HD Hdirs Hhealthy Hfree Hcall Hall Hplain Hdir Hsz.
  pose proof (PutBlob_healthy_run d blob inputInfo isConfig w directory0 rest n newBlobInfo i
                HD Hdirs Hhealthy Hfree Hcall Hall) as H.
  destruct (blobCacheDestination.PutBlob d _ inputInfo isConfig w) as [res w'].
  destruct H as (Hres & Hheap & Hfaults & Hfs).
  rewrite (canonical_candidate directory0 (Digest inputInfo) isConfig HD Hdir) in Hfs.
  split; [exact Hres |].
  rewrite <- Hsame.
  apply (first_directory_lookup src (Digest inputInfo) sz w' directory0 rest isConfig blob).
  - exact HD.
  - intros c. rewrite Hfaults. apply Hhealthy.
  - now rewrite Hsame, Hheap.
  - rewrite Hfs. apply lookup_insert_eq.
  - destruct isConfig; [right | now left].
    destruct Hplain as [Hplain|Hplain]; [discriminate |].
    rewrite Hfs, lookup_insert_ne; [exact Hplain |].
    unfold candidate. simpl. now apply candidate_paths_differ.
  - exact Hsz.
Qed.

End RoundTrip.

(** C1, where the claim fails. First run: the cache holds a three-byte
    file under the plain name of the digest, and the five bytes of "hello"
    are written as a config of that digest. [PutBlob] succeeds and the
    [.config] file holds the five bytes, yet [HasBlob] with the size unknown
    reports three bytes, [HasBlob] with the right size reports the blob
    absent, and [GetBlob] serves the three old bytes. Second run: the
    wrapped destination accepts the blob without reading the stream. The
    file renamed into the cache is empty, and is what [HasBlob] and
    [GetBlob] report. *)
Lemma written_blob_not_read_back :
  (let w : world memdest.state := quiet example.arrays example.old_layer [] in
   let '(res, w') :=
     blobCacheDestination.PutBlob example.to_memory example.hello example.hello_info true w in
   res = Returns (example.hello_info, None) /\
   fs w' !! "cache/sha256:ab.config" = Some (bytes_of "hello") /\
   fst (blobCacheReference.HasBlob example.one_dir {| Digest := example.D; Size := -1 |} w')
   = (true, 3, None) /\
   fst (blobCacheReference.HasBlob example.one_dir {| Digest := example.D; Size := 5 |} w')
   = (false, -1, None) /\
   fst (blobCacheSource.GetBlob example.from_barren {| Digest := example.D; Size := -1 |} w')
   = (Some {| data := bytes_of "old"; rderr := None |}, 3, None)) /\
  (let w : world unit := quiet example.arrays ∅ tt in
   let '(res, w') :=
     blobCacheDestination.PutBlob example.to_sated example.hello example.hello_info false w in
   res = Returns (example.hello_info, None) /\
   fst (blobCacheReference.HasBlob example.one_dir {| Digest := example.D; Size := -1 |} w')
   = (true, 0, None) /\
   fst (blobCacheSource.GetBlob example.from_barren {| Digest := example.D; Size := -1 |} w')
   = (Some {| data := []; rderr := None |}, 0, None)).
Proof. split; vm_compute; repeat split; reflexivity. Qed.

(** Why C1 asks for a digest without a leading slash under the empty
    directory name: [PutBlob] joins the file name to ["."], the lookups join
    it to [""], and [filepath.Join] drops an empty first element without
    making the rest relative. *)
Example rooted_digest_in_empty_directory :
  let asked := {| Digest := "/x"; Size := 5 |} in
  let '(res, w') :=
    blobCacheDestination.PutBlob example.to_memory_here example.hello asked false
      (quiet example.here ∅ []) in
  res = Returns (asked, None) /\
  fs w' !! "x" = Some (bytes_of "hello") /\
  fst (blobCacheReference.HasBlob example.in_here asked w') = (false, -1, None) /\
  trace w' = [Sys (SysTempFile "." "/x"); TeeWrite "x123456789" 5;
              DestPutBlob asked false None; Sys (SysRename "x123456789" "x");
              Sys (SysClose "x123456789")].
Proof. vm_compute. repeat split; reflexivity. Qed.

(** ** C8: config and layer of one digest *)

Section Aliasing.
Context {I : Type}.
Implicit Types (w : world I).



End Aliasing.


(** ** C5: [ReapplyBlob] *)

Section ReapplyFacts.
Context {I : Type}.
Implicit Types (w : world I) (d : blobCacheDestination.t I).

Lemma ReapplyBlob_delegate_run d (info : BlobInfo) w :
  blobCacheDestination.ReapplyBlob_delegate d info w =
  let '(r, i) := dest_ReapplyBlob (blobCacheDestination.destination d) info (inner w) in
  (r, emit (DestReapplyBlob info) (set_inner i w)).
Proof.
  unfold blobCacheDestination.ReapplyBlob_delegate, bind, call, modify, ret.
  now destruct (dest_ReapplyBlob _ info (inner w)).
Qed.

Lemma ReapplyBlob_unfold d (info : BlobInfo) w :
  blobCacheDestination.ReapplyBlob d info w =
  let '((present, _, e), i1) :=
    dest_HasBlob (blobCacheDestination.destination d) info (inner w) in
  let w1 := emit (DestHasBlob info) (set_inner i1 w) in
  let dirs := contents (heap w)
                (blobCacheReference.directories (blobCacheDestination.reference d)) in
  if negb (is_nil e) then
    (({| Digest := ""; Size := 0 |},
      Wrapf e "error checking for blob %q in cache %#v" (Digest info :: dirs)), w1)
  else if negb present then
    let '(found, w2) :=
      range (dir_variants dirs)
            (fun dc => blobCacheDestination.ReapplyBlob_probe d info (fst dc) (snd dc)) w1 in
    match found with
    | Some v => (v, w2)
    | None => blobCacheDestination.ReapplyBlob_delegate d info w2
    end
  else blobCacheDestination.ReapplyBlob_delegate d info w1.
Proof.
  unfold blobCacheDestination.ReapplyBlob. unfold bind at 1. unfold call at 1.
  destruct (dest_HasBlob _ info (inner w)) as [[[present sz] e] i1].
  unfold bind at 1. unfold modify at 1.
  unfold bind at 1. unfold blobCacheReference.load, get.
  change (heap (emit _ (set_inner i1 w))) with (heap w).
  destruct e as [e|]; [reflexivity |]. cbn [is_nil negb].
  destruct present; cbn [negb]; [reflexivity |].
  unfold bind at 1. rewrite range_variants.
  destruct (range _ _ _) as [[v|] w2]; reflexivity.
Qed.

Lemma ReapplyBlob_probe_miss d (info : BlobInfo) w dc :
  fst (os.open_of w (candidate (Digest info) dc)) = None ->
  blobCacheDestination.ReapplyBlob_probe d info (fst dc) (snd dc) w =
  (None, emit (Sys (SysOpen (candidate (Digest info) dc))) w).
Proof.
  unfold blobCacheDestination.ReapplyBlob_probe, candidate. intros Hm.
  unfold bind. rewrite Open_run.
  destruct (os.open_of w _) as [[f|] e]; [discriminate Hm | reflexivity].
Qed.

Lemma ReapplyBlob_probe_hit d (info : BlobInfo) w dc f :
  fst (os.open_of w (candidate (Digest info) dc)) = Some f ->
  blobCacheDestination.ReapplyBlob_probe d info (fst dc) (snd dc) w =
  let '((_, newBlobInfo, e'), i) :=
    dest_PutBlob (blobCacheDestination.destination d) (ReadCloser f) info (snd dc) (inner w) in
  (Some (newBlobInfo, e'),
   emits [Sys (SysOpen (candidate (Digest info) dc));
          DestPutBlob info (snd dc) e';
          Sys (SysClose (Name f))] (set_inner i w)).
Proof.
  unfold blobCacheDestination.ReapplyBlob_probe, candidate. intros Hm.
  unfold bind at 1. rewrite Open_run.
  destruct (open_of_cases w (filepath.Join (fst dc) (makeFilename (Digest info) (snd dc))))
    as [[c E]|[e E]]; rewrite E in *; simpl in Hm; [| discriminate Hm].
  injection Hm as <-. cbn [is_nil].
  unfold bind, call, modify, ret, os.Close. simpl inner.
  destruct (dest_PutBlob _ _ info (snd dc) (inner w)) as [[[n bi] e'] i].
  unfold emits, emit, set_inner. simpl. rewrite <- !app_assoc. reflexivity.
Qed.

(** C5. [ReapplyBlob] first asks the wrapped destination's [HasBlob]. An
    error of that call is returned, wrapped. If the blob is reported
    present, the wrapped destination's [ReapplyBlob] answers. If it is
    reported absent, the candidates are opened in scan order (directory by
    directory, the plain name before the [.config] name); the first file
    that opens is the stream of the wrapped destination's [PutBlob], called
    with that candidate's flag, whose result is returned; and when none
    opens, the wrapped destination's [ReapplyBlob] answers. *)
Theorem ReapplyBlob_three_steps d (info : BlobInfo) w :
  let variants := dir_variants (contents (heap w)
     (blobCacheReference.directories (blobCacheDestination.reference d))) in
  let '((present, _, e), i1) :=
    dest_HasBlob (blobCacheDestination.destination d) info (inner w) in
  let '(res, w') := blobCacheDestination.ReapplyBlob d info w in
  match e with
  | Some _ =>
      res = ({| Digest := ""; Size := 0 |},
             Wrapf e "error checking for blob %q in cache %#v"
                   (Digest info :: contents (heap w)
                      (blobCacheReference.directories (blobCacheDestination.reference d)))) /\
      inner w' = i1 /\ trace w' = trace w ++ [DestHasBlob info]
  | None =>
      if present then
        res = fst (dest_ReapplyBlob (blobCacheDestination.destination d) info i1) /\
        inner w' = snd (dest_ReapplyBlob (blobCacheDestination.destination d) info i1) /\
        trace w' = trace w ++ [DestHasBlob info; DestReapplyBlob info]
      else
        match first_some (fun dc => fst (os.open_of w (candidate (Digest info) dc))) variants with
        | Some (dc, f) =>
            let '((_, newBlobInfo, e'), i2) :=
              dest_PutBlob (blobCacheDestination.destination d) (ReadCloser f) info (snd dc) i1 in
            res = (newBlobInfo, e') /\ inner w' = i2 /\
            exists pre post,
              variants = pre ++ dc :: post /\
              trace w' = trace w ++ [DestHasBlob info] ++
                         probes SysOpen (Digest info) (pre ++ [dc]) ++
                         [DestPutBlob info (snd dc) e'; Sys (SysClose (Name f))]
        | None =>
            res = fst (dest_ReapplyBlob (blobCacheDestination.destination d) info i1) /\
            inner w' = snd (dest_ReapplyBlob (blobCacheDestination.destination d) info i1) /\
            trace w' = trace w ++ [DestHasBlob info] ++
                       probes SysOpen (Digest info) variants ++ [DestReapplyBlob info]
        end
  end.
Proof.
  intros variants. rewrite ReapplyBlob_unfold.
  destruct (dest_HasBlob _ info (inner w)) as [[[present sz] e] i1].
  cbv zeta. fold variants.
  destruct e as [e|]; cbn [is_nil negb]; [now auto |].
  destruct present; cbn [negb].
  { rewrite ReapplyBlob_delegate_run. simpl inner.
    destruct (dest_ReapplyBlob _ info i1) as [r i]. simpl. rewrite <- app_assoc. auto. }
  set (w1 := emit (DestHasBlob info) (set_inner i1 w)).
  set (miss := fun (w : world I) q => fst (os.open_of w (candidate (Digest info) q)) = None).
  assert (Hskip := range_skip (fun q => Sys (SysOpen (candidate (Digest info) q)))
             (fun dc => blobCacheDestination.ReapplyBlob_probe d info (fst dc) (snd dc))
             miss
             (fun w x H => ReapplyBlob_probe_miss d info w x H)
             (fun w e x H => H)).
  destruct (first_some _ variants) as [[dc f]|] eqn:Hfirst.
  - destruct (first_some_split _ _ _ _ Hfirst) as (pre & post & Hsplit & Hpre & Hdc).
    rewrite Hsplit, (Hskip pre (dc :: post) w1 Hpre).
    simpl range. unfold bind.
    rewrite (ReapplyBlob_probe_hit d info
               (emits (map (fun q => Sys (SysOpen (candidate (Digest info) q))) pre) w1)
               dc f Hdc).
    simpl inner.
    destruct (dest_PutBlob _ (ReadCloser f) info (snd dc) i1) as [[[n bi] e'] i2].
    unfold ret. split; [reflexivity |]. split; [reflexivity |].
    exists pre, post. split; [reflexivity |].
    unfold probes. rewrite map_app. simpl. rewrite <- !app_assoc. reflexivity.
  - pose proof (first_some_none _ _ Hfirst) as Hall.
    pose proof (Hskip variants [] w1 Hall) as E. rewrite app_nil_r in E.
    rewrite E. simpl range. unfold ret.
    rewrite ReapplyBlob_delegate_run. simpl inner.
    destruct (dest_ReapplyBlob _ info i1) as [r i]. simpl.
    rewrite <- !app_assoc. auto.
Qed.

End ReapplyFacts.

(** ** C6: [GetManifest] *)

Section ManifestFacts.
Context {I : Type}.
Variable GuessMIMEType : list byte -> string.
Implicit Types (w : world I) (s : blobCacheSource.t I).

Lemma GetManifest_delegate_run s (instanceDigest : option digest.Digest) w :
  blobCacheSource.GetManifest_delegate s instanceDigest w =
  let '(r, i) := src_GetManifest (blobCacheSource.source s) instanceDigest (inner w) in
  (r, emit (SrcGetManifest instanceDigest) (set_inner i w)).
Proof.
  unfold blobCacheSource.GetManifest_delegate, bind, call, modify, ret.
  now destruct (src_GetManifest _ instanceDigest (inner w)).
Qed.

Lemma GetManifest_probe_miss (dg : digest.Digest) w directory :
  manifest_found w dg directory = None ->
  blobCacheSource.GetManifest_probe GuessMIMEType dg directory w =
  (None, emit (Sys (SysReadFile (manifest_path dg directory))) w).
Proof.
  unfold manifest_found, blobCacheSource.GetManifest_probe, manifest_path. intros Hm.
  unfold bind. rewrite ReadFile_run.
  destruct (read_of_cases w (filepath.Join directory (makeFilename dg false)))
    as [[c E]|[e E]]; rewrite E in *; simpl in Hm; [discriminate |].
  simpl. destruct e; try discriminate Hm. reflexivity.
Qed.

Lemma GetManifest_probe_decides (dg : digest.Digest) w directory rd :
  manifest_found w dg directory = Some rd ->
  blobCacheSource.GetManifest_probe GuessMIMEType dg directory w =
  (Some match rd with
        | (manifestBytes, None) => (manifestBytes, GuessMIMEType manifestBytes, None)
        | (_, Some e) =>
            ([], "", Wrapf (Some e) "error checking for manifest file %q"
                           [manifest_path dg directory])
        end,
   emit (Sys (SysReadFile (manifest_path dg directory))) w).
Proof.
  unfold manifest_found, blobCacheSource.GetManifest_probe, manifest_path. intros Hm.
  unfold bind. rewrite ReadFile_run.
  destruct (read_of_cases w (filepath.Join directory (makeFilename dg false)))
    as [[c E]|[e E]]; rewrite E in *; simpl in Hm.
  - injection Hm as <-. reflexivity.
  - destruct e; try discriminate Hm; injection Hm as <-; reflexivity.
Qed.

(** C6. Without an instance digest [GetManifest] is the wrapped source's
    [GetManifest] and nothing else: no file is read. With one, the
    directories are read in order under the plain name of the digest. The
    first read that is not "not found" decides: its bytes are returned with
    the MIME type guessed from them, or its error is returned, and the
    wrapped source is not asked. When the file is in no directory, the
    wrapped source answers. In every case the files, the heap and the log
    are as before. *)
Theorem GetManifest_cache_gating s (instanceDigest : option digest.Digest) w :
  let '(res, w') := blobCacheSource.GetManifest GuessMIMEType s instanceDigest w in
  fs w' = fs w /\ heap w' = heap w /\ log w' = log w /\
  match instanceDigest with
  | None =>
      let '(r, i) := src_GetManifest (blobCacheSource.source s) None (inner w) in
      res = r /\ w' = emit (SrcGetManifest None) (set_inner i w)
  | Some dg =>
      let dirs := contents (heap w)
                    (blobCacheReference.directories (blobCacheSource.reference s)) in
      let reads := fun ds => map (fun x => Sys (SysReadFile (manifest_path dg x))) ds in
      match first_some (manifest_found w dg) dirs with
      | Some (directory, (manifestBytes, None)) =>
          res = (manifestBytes, GuessMIMEType manifestBytes, None) /\
          inner w' = inner w /\
          exists pre post,
            dirs = pre ++ directory :: post /\
            trace w' = trace w ++ reads (pre ++ [directory])
      | Some (directory, (_, Some e)) =>
          res = ([], "", Wrapf (Some e) "error checking for manifest file %q"
                               [manifest_path dg directory]) /\
          inner w' = inner w
      | None =>
          let '(r, i) := src_GetManifest (blobCacheSource.source s) (Some dg) (inner w) in
          res = r /\ inner w' = i /\
          trace w' = trace w ++ reads dirs ++ [SrcGetManifest (Some dg)]
      end
  end.
Proof.
  unfold blobCacheSource.GetManifest. destruct instanceDigest as [dg|].
  - unfold bind at 1. unfold bind at 1. unfold blobCacheReference.load, get.
    set (dirs := contents (heap w) _).
    assert (Hskip := range_skip (fun x => Sys (SysReadFile (manifest_path dg x)))
               (fun directory => blobCacheSource.GetManifest_probe GuessMIMEType dg directory)
               (fun (w : world I) x => manifest_found w dg x = None)
               (fun w x H => GetManifest_probe_miss dg w x H)
               (fun w e x H => H)).
    destruct (first_some (manifest_found w dg) dirs) as [[directory rd]|] eqn:Hfirst.
    + destruct (first_some_split _ _ _ _ Hfirst) as (pre & post & Hsplit & Hpre & Hdc).
      rewrite Hsplit, (Hskip pre (directory :: post) w Hpre).
      simpl range. unfold bind.
      rewrite (GetManifest_probe_decides dg
                 (emits (map (fun x => Sys (SysReadFile (manifest_path dg x))) pre) w)
                 directory rd Hdc).
      unfold ret. simpl.
      destruct rd as [manifestBytes [e|]]; simpl.
      * auto.
      * repeat split; try reflexivity. exists pre, post. split; [reflexivity |].
        rewrite map_app. simpl. now rewrite <- app_assoc.
    + pose proof (first_some_none _ _ Hfirst) as Hall.
      pose proof (Hskip dirs [] w Hall) as E. rewrite app_nil_r in E.
      rewrite E. simpl range. unfold ret.
      rewrite GetManifest_delegate_run. simpl inner.
      destruct (src_GetManifest _ (Some dg) (inner w)) as [r i]. simpl.
      rewrite <- app_assoc. repeat split; reflexivity.
  - unfold bind, ret. rewrite GetManifest_delegate_run.
    destruct (src_GetManifest _ None (inner w)) as [r i]. simpl. repeat split; reflexivity.
Qed.

End ManifestFacts.

(** ** The theorems at work *)

(** C9 on the quiet world: [hello] sent without a digest. *)
Lemma PutBlob_anonymous_witness :
  Digest example.anonymous = "" /\
  (let '(res, w') :=
     blobCacheDestination.PutBlob example.to_memory example.hello example.anonymous false
       example.seasoned in
   res = Returns ({| Digest := ""; Size := 5 |}, None) /\
   fs w' = fs example.seasoned /\
   trace w' = [DestPutBlob example.anonymous false None]).
Proof.
  split; [reflexivity |].
  pose proof (PutBlob_anonymous example.to_memory example.hello example.anonymous false
                example.seasoned eq_refl) as H.
  vm_compute in H. vm_compute.
  destruct H as (H1 & _ & H2 & _ & _ & H3). auto.
Defined.

(** C1 on the empty cache: [hello] written as a layer and read back with
    the size unknown. *)
Lemma PutBlob_then_HasBlob_GetBlob_witness :
  healthy example.fresh /\
  fs example.fresh !! ioutil.tempfile_name example.fresh (primary "cache")
                        (makeFilename example.D false) = None /\
  (length (bytes_of "hello") <= 5)%nat /\
  (let '(res, w') :=
     blobCacheDestination.PutBlob example.to_memory example.hello example.hello_info false
       example.fresh in
   res = Returns (example.hello_info, None) /\
   fst (blobCacheReference.HasBlob example.one_dir {| Digest := example.D; Size := -1 |} w')
   = (true, 5, None) /\
   fst (blobCacheSource.GetBlob example.from_barren {| Digest := example.D; Size := -1 |} w')
   = (Some example.hello, 5, None)).
Proof.
  assert (Hhealthy : healthy example.fresh) by (split; [intros c |]; reflexivity).
  split; [exact Hhealthy |]. split; [reflexivity |]. split; [simpl; lia |].
  apply (PutBlob_then_HasBlob_GetBlob example.to_memory example.from_barren
           (bytes_of "hello") example.hello_info false (-1) example.fresh
           "cache" [] 5%nat example.hello_info [(example.D, bytes_of "hello")]).
  - reflexivity.
  - discriminate.
  - reflexivity.
  - exact Hhealthy.
  - reflexivity.
  - reflexivity.
  - simpl; lia.
  - now left.
  - left; discriminate.
  - now left.
Defined.



(** C10 on an entry that vanishes between the [Stat] and the [Open]: the
    (empty) wrapped source is asked, and its answer returned. *)
Lemma GetBlob_vanished_entry_falls_back_witness :
  let w := with_faults vanishing_on_open example.seasoned in
  let asked := {| Digest := example.D; Size := -1 |} in
  blobCacheReference.HasBlob example.one_dir asked w
  = ((true, 3, None), emits [Sys (SysStat "cache/sha256:ab")] w) /\
  fst (blobCacheSource.GetBlob example.from_barren asked w)
  = (None, -1, Some (WithMessage "error reading blob from source image %q"
                       ["blob-cache:cache:dir:/srv/image"] (ErrorString "blob unknown"))).
Proof.
  intros w asked.
  assert (Hhas : blobCacheReference.HasBlob
                   (blobCacheSource.reference (@example.from_barren memdest.state)) asked w
                 = ((true, 3, None), emits [Sys (SysStat "cache/sha256:ab")] w))
    by reflexivity.
  split; [exact Hhas |].
  pose proof (GetBlob_vanished_entry_falls_back example.from_barren asked w 3 _ Hhas) as H.
  cbv zeta in H.
  destruct (blobCacheSource.GetBlob example.from_barren asked w) as [res w'].
  destruct H as (Hall & _).
  assert (Hmiss : Forall (fun q => missing_open w (candidate (Digest asked) q))
                    (dir_variants (contents (heap w)
                       (blobCacheReference.directories
                          (blobCacheSource.reference
                             (@example.from_barren memdest.state))))))
    by (repeat constructor).
  exact (proj1 (Hall Hmiss)).
Defined.

(** C7 on the caller's two directories: the reference is built over a new
    array, and a caller who then overwrites an element of the slice it
    supplied does not change the reference's directories. *)
Lemma NewBlobCache_copies_and_Directories_copies_witness :
  valid (heap example.fresh) example.callers /\
  (let '(made, w') := NewBlobCache example.image example.callers example.fresh in
   made = (Some example.built, None) /\
   forall i v h,
     store (heap w') example.callers i v = Some h ->
     contents h (blobCacheReference.directories example.built) = ["first"; "second"]).
Proof.
  assert (Hvalid : valid (heap example.fresh) example.callers).
  { exists ["first"; "second"]. split; [reflexivity | simpl; lia]. }
  split; [exact Hvalid |].
  pose proof (proj1 (proj2 (@NewBlobCache_copies_and_Directories_copies memdest.state))
                example.image example.callers example.fresh example.built None) as H.
  destruct (NewBlobCache example.image example.callers example.fresh) as [made w'] eqn:E.
  assert (Hmade : made = (Some example.built, None)).
  { apply (f_equal fst) in E. vm_compute in E. now rewrite <- E. }
  split; [exact Hmade |].
  subst made. destruct (H w' Hvalid eq_refl) as (_ & _ & _ & _ & Hstore).
  intros i v h Hs.
  apply (Hstore example.callers i v h); [| exact Hs].
  apply elem_of_dom. now exists ["first"; "second"].
Defined.


(** C5 on the cache that holds the old layer and a destination that does
    not: the cached file is what the destination's [PutBlob] is fed. *)
Example ReapplyBlob_from_the_cache :
  let '(res, w') :=
    blobCacheDestination.ReapplyBlob example.to_memory {| Digest := example.D; Size := 3 |}
      example.seasoned in
  res = ({| Digest := example.D; Size := 3 |}, None) /\
  inner w' = [(example.D, bytes_of "old")] /\
  trace w' = [DestHasBlob {| Digest := example.D; Size := 3 |};
              Sys (SysOpen "cache/sha256:ab");
              DestPutBlob {| Digest := example.D; Size := 3 |} false None;
              Sys (SysClose "cache/sha256:ab")].
Proof. vm_compute. repeat split; reflexivity. Qed.

(** C6 on the same cache: a manifest asked for by digest is read from the
    cache, one asked for without a digest is not looked for there. *)
Example GetManifest_from_the_cache :
  (let '(res, w') :=
     blobCacheSource.GetManifest example.guess example.from_barren (Some example.D)
       example.seasoned in
   res = (bytes_of "old", "application/vnd.docker.distribution.manifest.v2+json", None) /\
   trace w' = [Sys (SysReadFile "cache/sha256:ab")]) /\
  (let '(res, w') :=
     blobCacheSource.GetManifest example.guess example.from_barren None example.seasoned in
   res = ([], "", Some (ErrorString "manifest unknown")) /\
   trace w' = [SrcGetManifest None]).
Proof. split; vm_compute; repeat split; reflexivity. Qed.

(** C10 on an entry that cannot be read: the error of [os.Open] comes back,
    wrapped, and the wrapped source is not asked. *)
Example GetBlob_unreadable_entry :
  let w := with_faults unreadable_on_open example.seasoned in
  let '(res, w') :=
    blobCacheSource.GetBlob example.from_barren {| Digest := example.D; Size := -1 |} w in
  res = (None, -1, Some (WithMessage "error checking for cache file %q"
                           ["cache/cache/sha256:ab"]
                           (PathError "open" "cache/sha256:ab" EACCES))) /\
  trace w' = [Sys (SysStat "cache/sha256:ab"); Sys (SysOpen "cache/sha256:ab")].
Proof. vm_compute. repeat split; reflexivity. Qed.

(** * The remaining operations *)

(** ** [HasBlob] of the reference, from the files *)

Section ScanFacts.
Context {I : Type}.
Implicit Types (w : world I) (r : blobCacheReference.t).

Lemma stat_found_none w (D : digest.Digest) dc :
  stat_found w D dc = None <-> missing_stat w (candidate D dc).
Proof.
  unfold stat_found, missing_stat.
  destruct (IsNotExist (snd (os.stat_of w (candidate D dc)))); split; congruence.
Qed.

Lemma stat_found_some w (D : digest.Digest) dc st :
  stat_found w D dc = Some st ->
  st = os.stat_of w (candidate D dc) /\ ~ missing_stat w (candidate D dc).
Proof.
  unfold stat_found, missing_stat.
  destruct (IsNotExist (snd (os.stat_of w (candidate D dc)))); [discriminate |].
  intros [= <-]. split; [reflexivity | congruence].
Qed.

(** The loop of [HasBlob], run over any list of candidates. *)
Lemma HasBlob_range_run (blobinfo : BlobInfo) (l : list (string * bool)) w es :
  range l (fun dc => blobCacheReference.HasBlob_probe blobinfo (fst dc) (snd dc)) (emits es w) =
  (match first_some (stat_found w (Digest blobinfo)) l with
   | Some (dc, st) => Some (HasBlob_verdict blobinfo (candidate (Digest blobinfo) dc) st)
   | None => None
   end,
   emits (es ++ probes SysStat (Digest blobinfo) (scanned (stat_found w (Digest blobinfo)) l)) w).
Proof.
  revert es. induction l as [|dc l IH]; intros es.
  - simpl. unfold ret. now rewrite app_nil_r.
  - simpl range. unfold bind. cbn [first_some scanned].
    destruct (stat_found w (Digest blobinfo) dc) as [st|] eqn:E.
    + apply stat_found_some in E as [-> Hn].
      rewrite HasBlob_body_decides by exact Hn.
      unfold ret. rewrite emit_emits. reflexivity.
    + apply stat_found_none in E.
      rewrite HasBlob_body_miss by exact E.
      rewrite emit_emits, IH. unfold probes. cbn [map]. now rewrite <- app_assoc.
Qed.

(** [HasBlob], as an equation. *)
Lemma HasBlob_run r (blobinfo : BlobInfo) w :
  blobCacheReference.HasBlob r blobinfo w =
  (HasBlob_answer w r blobinfo,
   if String.eqb (Digest blobinfo) "" then w
   else emits (probes SysStat (Digest blobinfo)
                 (scanned (stat_found w (Digest blobinfo))
                    (dir_variants (contents (heap w) (blobCacheReference.directories r))))) w).
Proof.
  unfold HasBlob_answer.
  destruct (String.eqb (Digest blobinfo) "") eqn:ED.
  - unfold blobCacheReference.HasBlob. rewrite ED. reflexivity.
  - apply String.eqb_neq in ED. rewrite (HasBlob_unfold r blobinfo w ED).
    pose proof (HasBlob_range_run blobinfo
                  (dir_variants (contents (heap w) (blobCacheReference.directories r))) w []) as E.
    rewrite emits_nil in E. rewrite E. cbn [app].
    destruct (first_some _ _) as [[dc st]|]; reflexivity.
Qed.

Lemma scanned_prefix {A V} (f : A -> option V) (l : list A) :
  exists post, l = scanned f l ++ post.
Proof.
  induction l as [|x l [post IH]]; simpl; [now exists [] |].
  destruct (f x); [now exists l |]. exists post. simpl. now f_equal.
Qed.

(** X1. [HasBlob] of the reference is decided by the first candidate, in
    the order "every directory, plain name before [.config] name", whose
    [os.Stat] is not "not found": a file there of an acceptable size gives
    "present" with the size of the file, a file of another size gives
    "absent" without an error, and an error is returned wrapped. With no
    such candidate the blob is absent. The candidates up to that one are
    the only ones looked at, and a descriptor without a digest is answered
    "absent" without any call. *)
Theorem HasBlob_decided_by_first_found r (blobinfo : BlobInfo) w :
  let D := Digest blobinfo in
  let variants := dir_variants (contents (heap w) (blobCacheReference.directories r)) in
  let '(res, w') := blobCacheReference.HasBlob r blobinfo w in
  if String.eqb D "" then res = (false, -1, None) /\ w' = w
  else
    w' = emits (probes SysStat D (scanned (stat_found w D) variants)) w /\
    (exists post, variants = scanned (stat_found w D) variants ++ post) /\
    match first_some (stat_found w D) variants with
    | Some (dc, (Some fi, None)) =>
        res = if (Size blobinfo =? -1)%Z || (Size blobinfo =? FileInfo_Size fi)%Z
              then (true, FileInfo_Size fi, None) else (false, -1, None)
    | Some (dc, (_, Some e)) =>
        res = (false, -1, Some (WithMessage "error checking size of %q" [candidate D dc] e))
    | Some (dc, (None, None)) => False
    | None => res = (false, -1, None)
    end.
Proof.
  cbv zeta. rewrite HasBlob_run. unfold HasBlob_answer.
  destruct (String.eqb (Digest blobinfo) "") eqn:ED; [split; reflexivity |].
  split; [reflexivity |]. split; [apply scanned_prefix |].
  destruct (first_some _ _) as [[dc st]|] eqn:E; [| reflexivity].
  apply first_some_split in E as (pre & post & _ & _ & Hst).
  apply stat_found_some in Hst as [-> _].
  destruct (stat_of_cases w (candidate (Digest blobinfo) dc)) as [[fi Es]|[e Es]];
    rewrite Es; reflexivity.
Qed.

(** X2. A query with the size unknown is the weakest one: whenever
    [HasBlob] reports a blob present for some size, it reports it present,
    with the same size, when asked with size [-1]. *)
Theorem HasBlob_unknown_size_weakest r (D : digest.Digest) (sz size : Z) w :
  fst (blobCacheReference.HasBlob r {| Digest := D; Size := sz |} w) = (true, size, None) ->
  fst (blobCacheReference.HasBlob r {| Digest := D; Size := -1 |} w) = (true, size, None).
Proof.
  rewrite !HasBlob_run. unfold HasBlob_answer. cbn [fst Digest].
  destruct (String.eqb D ""); [discriminate |].
  destruct (first_some _ _) as [[dc [[fi|] [e|]]]|]; simpl; try discriminate.
  destruct ((sz =? -1)%Z || (sz =? FileInfo_Size fi)%Z); [| discriminate].
  intros [= <-]. reflexivity.
Qed.

End ScanFacts.

(** ** [GetBlob] and the destination's [HasBlob], from the files *)

Section LookupFacts.
Context {I : Type}.
Implicit Types (w : world I) (r : blobCacheReference.t).

Lemma HasBlob_run' r (blobinfo : BlobInfo) w :
  blobCacheReference.HasBlob r blobinfo w =
  (HasBlob_answer w r blobinfo, emits (HasBlob_stats w r (Digest blobinfo)) w).
Proof.
  rewrite HasBlob_run. unfold HasBlob_stats.
  destruct (String.eqb (Digest blobinfo) ""); [now rewrite emits_nil | reflexivity].
Qed.

Lemma open_found_none w (D : digest.Digest) dc :
  open_found w D dc = None <-> missing_open w (candidate D dc).
Proof.
  unfold open_found, missing_open.
  destruct (IsNotExist (snd (os.open_of w (candidate D dc)))); split; congruence.
Qed.

Lemma open_found_some w (D : digest.Digest) dc op :
  open_found w D dc = Some op ->
  op = os.open_of w (candidate D dc) /\ ~ missing_open w (candidate D dc).
Proof.
  unfold open_found, missing_open.
  destruct (IsNotExist (snd (os.open_of w (candidate D dc)))); [discriminate |].
  intros [= <-]. split; [reflexivity | congruence].
Qed.

(** The loop of [GetBlob], run over any list of candidates. *)
Lemma GetBlob_range_run (blobinfo : BlobInfo) (size : Z) (l : list (string * bool)) w es :
  range l (fun dc => blobCacheSource.GetBlob_probe blobinfo size (fst dc) (snd dc)) (emits es w) =
  (match first_some (open_found w (Digest blobinfo)) l with
   | Some (dc, op) => Some (GetBlob_verdict size dc (Digest blobinfo) op)
   | None => None
   end,
   emits (es ++ probes SysOpen (Digest blobinfo) (scanned (open_found w (Digest blobinfo)) l)) w).
Proof.
  revert es. induction l as [|dc l IH]; intros es.
  - simpl. unfold ret. now rewrite app_nil_r.
  - simpl range. unfold bind. cbn [first_some scanned].
    destruct (open_found w (Digest blobinfo) dc) as [op|] eqn:E.
    + apply open_found_some in E as [-> Hn].
      rewrite GetBlob_probe_decides by exact Hn.
      unfold ret. rewrite emit_emits. reflexivity.
    + apply open_found_none in E.
      rewrite GetBlob_probe_miss by exact E.
      rewrite emit_emits, IH. unfold probes. cbn [map]. now rewrite <- app_assoc.
Qed.

(** X3. [GetBlob] of the cached source, in full. An error of [HasBlob] is
    returned as it is and ends the call. When [HasBlob] reports the blob
    present, the candidates are opened in scan order and the first answer
    that is not "not found" decides: the open file with the size [HasBlob]
    measured, or the wrapped error. In every other case (no digest, blob
    absent, or every candidate gone by the time it is opened) the wrapped
    source is asked, and its error, if any, is wrapped with the name of the
    cached reference. The wrapped source is asked in these cases only. *)
Theorem GetBlob_cache_then_source (src : blobCacheSource.t I) (blobinfo : BlobInfo) w :
  let D := Digest blobinfo in
  let r := blobCacheSource.reference src in
  let variants := dir_variants (contents (heap w) (blobCacheReference.directories r)) in
  let stats := HasBlob_stats w r D in
  let '(res, w') := blobCacheSource.GetBlob src blobinfo w in
  match HasBlob_answer w r blobinfo with
  | (_, _, Some e) =>
      res = (None, -1, Some e) /\ inner w' = inner w /\ trace w' = trace w ++ stats
  | (present, size, None) =>
      let opens := if present then probes SysOpen D (scanned (open_found w D) variants) else [] in
      match (if present then first_some (open_found w D) variants else None) with
      | Some (dc, op) =>
          res = GetBlob_verdict size dc D op /\ inner w' = inner w /\
          trace w' = trace w ++ stats ++ opens
      | None =>
          let '((rc, sz, e), i) := src_GetBlob (blobCacheSource.source src) blobinfo (inner w) in
          res = (rc, sz, Wrapf e "error reading blob from source image %q" [cache_name (heap w) r]) /\
          inner w' = i /\
          trace w' = trace w ++ stats ++ opens ++ [SrcGetBlob blobinfo]
      end
  end.
Proof.
  cbv zeta. rewrite GetBlob_unfold, HasBlob_run'.
  destruct (HasBlob_answer w (blobCacheSource.reference src) blobinfo) as [[present size] [e|]].
  - simpl. auto.
  - cbn [negb is_nil].
    set (stats := HasBlob_stats w (blobCacheSource.reference src) (Digest blobinfo)).
    destruct present.
    + change (heap (emits stats w)) with (heap w).
      rewrite GetBlob_range_run.
      destruct (first_some _ _) as [[dc op]|].
      * simpl. auto.
      * rewrite GetBlob_delegate_run.
        change (inner (emits _ w)) with (inner w).
        destruct (src_GetBlob (blobCacheSource.source src) blobinfo (inner w)) as [[[rc sz] e] i].
        simpl. rewrite <- !app_assoc. auto.
    + rewrite GetBlob_delegate_run.
      change (inner (emits _ w)) with (inner w).
      destruct (src_GetBlob (blobCacheSource.source src) blobinfo (inner w)) as [[[rc sz] e] i].
      simpl. rewrite <- !app_assoc. auto.
Qed.

(** X4. [HasBlob] of the cached destination consults the cache first. A
    blob the cache reports present is reported present with the size of the
    cached file, and the wrapped destination is not asked; an error of the
    cache lookup is returned wrapped, with the digest and the directories,
    and the wrapped destination is not asked either. Only when the cache
    reports the blob absent (which includes a descriptor without a digest and
    a cached file of another size) does the wrapped destination answer, and
    then its answer is returned as it is. *)
Theorem destination_HasBlob_cache_first (d : blobCacheDestination.t I) (info : BlobInfo) w :
  let r := blobCacheDestination.reference d in
  let stats := HasBlob_stats w r (Digest info) in
  let '(res, w') := blobCacheDestination.HasBlob d info w in
  match HasBlob_answer w r info with
  | (_, _, Some e) =>
      res = (false, -1,
             Some (WithMessage "error checking for blob %q in cache %#v"
                     (Digest info :: contents (heap w) (blobCacheReference.directories r)) e)) /\
      inner w' = inner w /\ trace w' = trace w ++ stats
  | (true, size, None) =>
      res = (true, size, None) /\ inner w' = inner w /\ trace w' = trace w ++ stats
  | (false, _, None) =>
      let '(answer, i) := dest_HasBlob (blobCacheDestination.destination d) info (inner w) in
      res = answer /\ inner w' = i /\ trace w' = trace w ++ stats ++ [DestHasBlob info]
  end.
Proof.
  cbv zeta. unfold blobCacheDestination.HasBlob. unfold bind at 1. rewrite HasBlob_run'.
  destruct (HasBlob_answer w (blobCacheDestination.reference d) info) as [[present size] [e|]].
  - cbn [negb is_nil]. unfold bind, blobCacheReference.load, get, ret. simpl.
    destruct present; auto.
  - cbn [negb is_nil]. destruct present; [simpl; auto |].
    unfold bind, call, modify, ret.
    change (inner (emits _ w)) with (inner w).
    destruct (dest_HasBlob (blobCacheDestination.destination d) info (inner w)) as [answer i].
    simpl. rewrite <- app_assoc. auto.
Qed.

End LookupFacts.

Section SizeAndStream.
Context {I : Type}.
Implicit Types (w : world I).

Lemma first_some_fmap {A V V'} (f : A -> option V) (f' : A -> option V') (g : A -> V -> V')
    (l : list A) :
  (forall x, f' x = g x <$> f x) ->
  first_some f' l = (fun xv => (fst xv, g (fst xv) (snd xv))) <$> first_some f l.
Proof.
  intros Hf. induction l as [|x l IH]; simpl; [reflexivity |].
  rewrite Hf. destruct (f x); simpl; [reflexivity | exact IH].
Qed.

Lemma stat_found_quiet w (D : digest.Digest) dc :
  (forall c, faults w c = None) ->
  stat_found w D dc =
  (fun c : list byte => (Some {| FileInfo_Size := Z.of_nat (length c) |}, None))
    <$> fs w !! candidate D dc.
Proof.
  intros Hq. unfold stat_found.
  rewrite (stat_of_quiet w _ Hq). destruct (fs w !! candidate D dc); reflexivity.
Qed.

Lemma open_found_quiet w (D : digest.Digest) dc :
  (forall c, faults w c = None) ->
  open_found w D dc =
  (fun c : list byte => (Some {| Name := candidate D dc; bytes := c |}, None))
    <$> fs w !! candidate D dc.
Proof.
  intros Hq. unfold open_found.
  rewrite (open_of_quiet w _ Hq). destruct (fs w !! candidate D dc); reflexivity.
Qed.

(** X5. Size and stream agree. In an environment that refuses no call,
    whenever [HasBlob] reports a blob present with some size, [GetBlob]
    serves it from the cache, without asking the wrapped source: the stream
    is the content of the first candidate file that exists, in scan order,
    and the size returned with it is the length of that content. *)
Theorem GetBlob_size_is_stream_length (src : blobCacheSource.t I) (blobinfo : BlobInfo)
    (size : Z) w :
  (forall c, faults w c = None) ->
  fst (blobCacheReference.HasBlob (blobCacheSource.reference src) blobinfo w)
  = (true, size, None) ->
  let variants := dir_variants (contents (heap w)
     (blobCacheReference.directories (blobCacheSource.reference src))) in
  exists dc content,
    first_some (fun dc => fs w !! candidate (Digest blobinfo) dc) variants = Some (dc, content) /\
    size = Z.of_nat (length content) /\
    fst (blobCacheSource.GetBlob src blobinfo w)
    = (Some {| data := content; rderr := None |}, size, None) /\
    inner (snd (blobCacheSource.GetBlob src blobinfo w)) = inner w.
Proof.
  intros Hq Hhas. cbv zeta.
  rewrite GetBlob_unfold. rewrite HasBlob_run' in Hhas |- *. cbn [fst] in Hhas.
  rewrite Hhas. cbn [negb is_nil].
  change (heap (emits _ w)) with (heap w). rewrite GetBlob_range_run.
  unfold HasBlob_answer in Hhas.
  destruct (String.eqb (Digest blobinfo) ""); [discriminate |].
  set (variants := dir_variants (contents (heap w)
         (blobCacheReference.directories (blobCacheSource.reference src)))) in *.
  rewrite (first_some_fmap (fun dc => fs w !! candidate (Digest blobinfo) dc) _
             (fun _ c => (Some {| FileInfo_Size := Z.of_nat (length c) |}, None)) variants
             (fun dc => stat_found_quiet w (Digest blobinfo) dc Hq)) in Hhas.
  rewrite (first_some_fmap (fun dc => fs w !! candidate (Digest blobinfo) dc) _
             (fun dc c => (Some {| Name := candidate (Digest blobinfo) dc; bytes := c |}, None))
             variants (fun dc => open_found_quiet w (Digest blobinfo) dc Hq)).
  destruct (first_some _ variants) as [[dc content]|]; [| discriminate].
  cbn [fmap option_fmap option_map fst snd] in Hhas |- *.
  unfold HasBlob_verdict in Hhas. cbn [FileInfo_Size] in Hhas.
  destruct ((Size blobinfo =? -1)%Z || (Size blobinfo =? Z.of_nat (length content))%Z);
    [| discriminate].
  injection Hhas as <-.
  exists dc, content. repeat split.
Qed.

End SizeAndStream.

(** ** What a lookup leaves alone *)

Section FrameFacts.
Context {I : Type}.
Implicit Types (w : world I) (r : blobCacheReference.t).

Lemma untouched_refl w : untouched w w.
Proof. unfold untouched. auto. Qed.

Lemma untouched_trans w1 w2 w3 : untouched w1 w2 -> untouched w2 w3 -> untouched w1 w3.
Proof. unfold untouched. intros (-> & -> & ->) (-> & -> & ->). auto. Qed.

Lemma untouched_emits es w : untouched w (emits es w).
Proof. unfold untouched. auto. Qed.

Lemma untouched_emit e w : untouched w (emit e w).
Proof. unfold untouched. auto. Qed.

Lemma untouched_set_inner i w : untouched w (set_inner i w).
Proof. unfold untouched. auto. Qed.

(** A loop whose body keeps the files keeps the files. *)
Lemma range_untouched {A R} (body : A -> M I (option R)) :
  (forall x w, untouched w (snd (body x w))) ->
  forall xs w, untouched w (snd (range xs body w)).
Proof.
  intros Hbody xs. induction xs as [|x xs IH]; intros w; [apply untouched_refl |].
  simpl. unfold bind. pose proof (Hbody x w) as Hx.
  destruct (body x w) as [[v|] w1]; [exact Hx |].
  eapply untouched_trans; [exact Hx | apply IH].
Qed.

Lemma ReapplyBlob_probe_untouched (d : blobCacheDestination.t I) (info : BlobInfo) dc w :
  untouched w (snd (blobCacheDestination.ReapplyBlob_probe d info (fst dc) (snd dc) w)).
Proof.
  destruct (fst (os.open_of w (candidate (Digest info) dc))) as [f|] eqn:E.
  - rewrite (ReapplyBlob_probe_hit d info w dc f E).
    destruct (dest_PutBlob _ _ _ _ _) as [[[n bi] e'] i]. cbn [snd].
    eapply untouched_trans; [apply untouched_set_inner | apply untouched_emits].
  - rewrite (ReapplyBlob_probe_miss d info w dc E). apply untouched_emit.
Qed.

(** X6. Looking up never writes: [HasBlob] of the reference, [GetBlob] of
    the source, and [HasBlob] and [ReapplyBlob] of the destination leave
    every file, every directory list and the log as they were, whatever the
    file system and the wrapped objects answer. In particular a blob served
    by the wrapped source or re-applied to the wrapped destination is not
    added to the cache. [HasBlob] of the reference does not reach the
    wrapped objects either. *)
Theorem lookups_never_write :
  (forall r (blobinfo : BlobInfo) w,
      let w' := snd (blobCacheReference.HasBlob r blobinfo w) in
      fs w' = fs w /\ heap w' = heap w /\ log w' = log w /\ inner w' = inner w) /\
  (forall (src : blobCacheSource.t I) (blobinfo : BlobInfo) w,
      let w' := snd (blobCacheSource.GetBlob src blobinfo w) in
      fs w' = fs w /\ heap w' = heap w /\ log w' = log w) /\
  (forall (d : blobCacheDestination.t I) (info : BlobInfo) w,
      let w' := snd (blobCacheDestination.HasBlob d info w) in
      fs w' = fs w /\ heap w' = heap w /\ log w' = log w) /\
  (forall (d : blobCacheDestination.t I) (info : BlobInfo) w,
      let w' := snd (blobCacheDestination.ReapplyBlob d info w) in
      fs w' = fs w /\ heap w' = heap w /\ log w' = log w).
Proof.
  split; [| split; [| split]].
  - intros r blobinfo w. rewrite HasBlob_run'. simpl. auto.
  - intros src blobinfo w. cbv zeta. fold (untouched w (snd (blobCacheSource.GetBlob src blobinfo w))).
    rewrite GetBlob_unfold, HasBlob_run'.
    destruct (HasBlob_answer w (blobCacheSource.reference src) blobinfo) as [[present size] [e|]];
      [apply untouched_emits |].
    cbn [negb is_nil].
    assert (Hdel : forall w0, untouched w w0 ->
              untouched w (snd (blobCacheSource.GetBlob_delegate src blobinfo w0))).
    { intros w0 H0. rewrite GetBlob_delegate_run.
      destruct (src_GetBlob _ _ _) as [[[rc sz] e] i]. cbn [snd].
      eapply untouched_trans; [exact H0 |].
      eapply untouched_trans; [apply untouched_set_inner | apply untouched_emit]. }
    destruct present; [| apply Hdel, untouched_emits].
    change (heap (emits _ w)) with (heap w).
    rewrite GetBlob_range_run.
    destruct (first_some _ _) as [[dc op]|]; [apply untouched_emits | apply Hdel, untouched_emits].
  - intros d info w. cbv zeta.
    fold (untouched w (snd (blobCacheDestination.HasBlob d info w))).
    unfold blobCacheDestination.HasBlob. unfold bind at 1. rewrite HasBlob_run'.
    destruct (HasBlob_answer w (blobCacheDestination.reference d) info) as [[present size] [e|]].
    + cbn [negb is_nil]. unfold bind, blobCacheReference.load, get, ret. apply untouched_emits.
    + cbn [negb is_nil]. destruct present; [apply untouched_emits |].
      unfold bind, call, modify, ret.
      destruct (dest_HasBlob _ _ _) as [answer i]. cbn [snd].
      eapply untouched_trans; [apply untouched_emits |].
      eapply untouched_trans; [apply untouched_set_inner | apply untouched_emit].
  - intros d info w. cbv zeta.
    fold (untouched w (snd (blobCacheDestination.ReapplyBlob d info w))).
    rewrite ReapplyBlob_unfold.
    destruct (dest_HasBlob _ _ _) as [[[present sz] e] i1]. cbv zeta.
    set (w1 := emit (DestHasBlob info) (set_inner i1 w)).
    assert (H1 : untouched w w1).
    { eapply untouched_trans; [apply untouched_set_inner | apply untouched_emit]. }
    destruct e as [e|]; [exact H1 |]. cbn [negb is_nil].
    assert (Hdel : forall w0, untouched w w0 ->
              untouched w (snd (blobCacheDestination.ReapplyBlob_delegate d info w0))).
    { intros w0 H0. rewrite ReapplyBlob_delegate_run.
      destruct (dest_ReapplyBlob _ _ _) as [res i]. cbn [snd].
      eapply untouched_trans; [exact H0 |].
      eapply untouched_trans; [apply untouched_set_inner | apply untouched_emit]. }
    destruct present; cbn [negb]; [apply Hdel, H1 |].
    pose proof (range_untouched
                  (fun dc => blobCacheDestination.ReapplyBlob_probe d info (fst dc) (snd dc))
                  (ReapplyBlob_probe_untouched d info)
                  (dir_variants (contents (heap w)
                     (blobCacheReference.directories (blobCacheDestination.reference d)))) w1) as Hr.
    destruct (range _ _ w1) as [[v|] w2]; cbn [snd] in Hr |- *.
    + eapply untouched_trans; [exact H1 | exact Hr].
    + apply Hdel. eapply untouched_trans; [exact H1 | exact Hr].
Qed.

End FrameFacts.

(** ** More on [PutBlob] *)

Section PutBlobMore.
Context {I : Type}.
Implicit Types (w : world I) (d : blobCacheDestination.t I).

Lemma PutBlob_no_directory_run d (stream0 : stream) (inputInfo : BlobInfo) (isConfig : bool) w :
  Digest inputInfo <> "" ->
  contents (heap w) (blobCacheReference.directories (blobCacheDestination.reference d)) = [] ->
  blobCacheDestination.PutBlob d stream0 inputInfo isConfig w = (Panics, w).
Proof.
  intros HD Hdirs. apply String.eqb_neq in HD.
  unfold blobCacheDestination.PutBlob, blobCacheDestination.PutBlob_prepare.
  rewrite HD. cbn [negb].
  unfold bind, blobCacheReference.load, get. rewrite Hdirs. reflexivity.
Qed.

(** [PutBlob] panics for a blob with a digest and an empty directory list,
    and in no other case. *)
Lemma PutBlob_panics_iff d (stream0 : stream) (inputInfo : BlobInfo) (isConfig : bool) w :
  fst (blobCacheDestination.PutBlob d stream0 inputInfo isConfig w) = Panics <->
  Digest inputInfo <> "" /\
  contents (heap w) (blobCacheReference.directories (blobCacheDestination.reference d)) = [].
Proof.
  split.
  - intros HP.
    destruct (String.eqb (Digest inputInfo) "") eqn:ED.
    + apply String.eqb_eq in ED.
      destruct (dest_PutBlob (blobCacheDestination.destination d) stream0 inputInfo isConfig
                  (inner w)) as [[[n bi] e] i] eqn:Ecall.
      rewrite (PutBlob_no_digest_run d stream0 inputInfo isConfig w n bi e i ED Ecall) in HP.
      discriminate.
    + apply String.eqb_neq in ED. split; [exact ED |].
      destruct (contents (heap w)
                  (blobCacheReference.directories (blobCacheDestination.reference d)))
        as [|directory0 rest] eqn:Edirs; [reflexivity | exfalso].
      destruct (tempfile_of_cases w (primary directory0) (makeFilename (Digest inputInfo) isConfig))
        as [[f Ef]|[e0 Ef]].
      * destruct (dest_PutBlob (blobCacheDestination.destination d)
                    (io.teed w stream0 (Name f)) inputInfo isConfig (inner w))
          as [[[n bi] e] i] eqn:Ecall.
        pose proof (PutBlob_cached_run d stream0 inputInfo isConfig w directory0 rest f n bi e i
                      ED Edirs Ef Ecall) as H. cbv zeta in H.
        destruct (blobCacheDestination.PutBlob d stream0 inputInfo isConfig w) as [res w'].
        destruct H as (-> & _). discriminate.
      * destruct (dest_PutBlob (blobCacheDestination.destination d) stream0 inputInfo isConfig
                    (inner w)) as [[[n bi] e] i] eqn:Ecall.
        pose proof (PutBlob_uncached_run d stream0 inputInfo isConfig w directory0 rest e0 n bi e i
                      ED Edirs Ef Ecall) as H.
        destruct (blobCacheDestination.PutBlob d stream0 inputInfo isConfig w) as [res w'].
        destruct H as (-> & _). discriminate.
  - intros [HD Hdirs]. now rewrite PutBlob_no_directory_run.
Qed.

(** X7. On a destination over a reference that [NewBlobCache] built,
    [PutBlob] does not panic on its own account: the constructor refuses the
    empty directory list, and [PutBlob] indexes the first directory without a
    check of its own. This holds in every later world in which the array of
    the reference is what the constructor made it, whatever else was
    allocated or stored since; the wrapped destination's [PutBlob] is one
    that returns. On a reference with an empty list (the struct literal can
    make one) [PutBlob] panics for every blob that has a digest, before the
    wrapped destination is called. *)
Theorem PutBlob_safe_after_NewBlobCache :
  (forall (ref : ImageReference) (s : slice) w r e w1 d (stream0 : stream)
          (inputInfo : BlobInfo) (isConfig : bool) w2,
      valid (heap w) s ->
      NewBlobCache ref s w = ((Some r, e), w1) ->
      blobCacheDestination.reference d = r ->
      heap w2 !! arr (blobCacheReference.directories r)
      = heap w1 !! arr (blobCacheReference.directories r) ->
      exists newBlobInfo e',
        fst (blobCacheDestination.PutBlob d stream0 inputInfo isConfig w2)
        = Returns (newBlobInfo, e')) /\
  (forall d (stream0 : stream) (inputInfo : BlobInfo) (isConfig : bool) w,
      Digest inputInfo <> "" ->
      contents (heap w) (blobCacheReference.directories (blobCacheDestination.reference d)) = [] ->
      blobCacheDestination.PutBlob d stream0 inputInfo isConfig w = (Panics, w)).
Proof.
  split; [| intros; now apply PutBlob_no_directory_run].
  intros ref s w r e w1 d stream0 inputInfo isConfig w2 Hvalid Hnew Hd Hheap.
  assert (Hne : contents (heap w2)
                  (blobCacheReference.directories (blobCacheDestination.reference d)) <> []).
  { rewrite Hd. unfold contents. rewrite Hheap.
    fold (contents (heap w1) (blobCacheReference.directories r)).
    unfold NewBlobCache in Hnew.
    destruct (len s =? 0)%nat eqn:El; [discriminate |].
    apply Nat.eqb_neq in El.
    unfold bind in Hnew. rewrite copy_run in Hnew. unfold ret in Hnew.
    injection Hnew as <- _ <-. cbn [blobCacheReference.directories heap set_heap].
    assert (Hs : contents (heap w) s <> []).
    { intros E. apply (f_equal (@length string)) in E.
      rewrite (contents_valid _ _ Hvalid) in E. simpl in E. lia. }
    destruct (append_to_empty (heap w) (contents (heap w) s)) as [s' h'] eqn:Ea.
    destruct (append_to_empty_spec _ _ _ _ Hs Ea) as (_ & Hc & _).
    cbn [fst snd]. now rewrite Hc. }
  destruct (fst (blobCacheDestination.PutBlob d stream0 inputInfo isConfig w2)) as [[bi e']|] eqn:E.
  - now exists bi, e'.
  - apply PutBlob_panics_iff in E as [_ E]. contradiction.
Qed.

(** X8. On a directory list that is not empty, [PutBlob] changes two file
    names at most: that of the temporary file, and the name it renames to,
    which is [filepath.Join] of the first directory (["."] for the empty
    name) and the name [makeFilename] gives. Every other file is after the
    call what it was before, and the directory lists are unchanged, whatever
    fails on the way. When the temporary file cannot be created, or the blob
    has no digest, no file changes at all. *)
Theorem PutBlob_touches_two_names d (stream0 : stream) (inputInfo : BlobInfo) (isConfig : bool) w
    directory0 rest :
  contents (heap w) (blobCacheReference.directories (blobCacheDestination.reference d))
  = directory0 :: rest ->
  let prefix := makeFilename (Digest inputInfo) isConfig in
  let w' := snd (blobCacheDestination.PutBlob d stream0 inputInfo isConfig w) in
  heap w' = heap w /\
  (forall p : string,
      p <> canonical directory0 (Digest inputInfo) isConfig ->
      p <> ioutil.tempfile_name w (primary directory0) prefix ->
      fs w' !! p = fs w !! p) /\
  (Digest inputInfo = "" \/ fst (ioutil.tempfile_of w (primary directory0) prefix) = None ->
   fs w' = fs w).
Proof.
  intros Hdirs. cbv zeta.
  destruct (String.eqb (Digest inputInfo) "") eqn:ED.
  - apply String.eqb_eq in ED.
    destruct (dest_PutBlob (blobCacheDestination.destination d) stream0 inputInfo isConfig
                (inner w)) as [[[n bi] e] i] eqn:Ecall.
    rewrite (PutBlob_no_digest_run d stream0 inputInfo isConfig w n bi e i ED Ecall).
    simpl. auto.
  - apply String.eqb_neq in ED.
    destruct (tempfile_of_cases w (primary directory0) (makeFilename (Digest inputInfo) isConfig))
      as [[f Ef]|[e0 Ef]].
    + destruct (dest_PutBlob (blobCacheDestination.destination d)
                  (io.teed w stream0 (Name f)) inputInfo isConfig (inner w))
        as [[[n bi] e] i] eqn:Ecall.
      pose proof (PutBlob_cached_run d stream0 inputInfo isConfig w directory0 rest f n bi e i
                    ED Hdirs Ef Ecall) as H. cbv zeta in H.
      destruct (tempfile_of_created w _ _ f Ef) as (Hf & _ & _).
      assert (Hname : Name f = ioutil.tempfile_name w (primary directory0)
                                 (makeFilename (Digest inputInfo) isConfig)) by now rewrite Hf.
      destruct (blobCacheDestination.PutBlob d stream0 inputInfo isConfig w) as [res w'].
      destruct H as (_ & Hheap & _ & _ & _ & Hfs & _). cbn [snd].
      split; [exact Hheap |]. split.
      * intros p Hp1 Hp2. rewrite Hfs. rewrite Hname.
        repeat case_match; rewrite ?lookup_insert_ne by congruence; reflexivity.
      * intros [HD | Hnone]; [contradiction |]. rewrite Ef in Hnone. discriminate.
    + destruct (dest_PutBlob (blobCacheDestination.destination d) stream0 inputInfo isConfig
                  (inner w)) as [[[n bi] e] i] eqn:Ecall.
      pose proof (PutBlob_uncached_run d stream0 inputInfo isConfig w directory0 rest e0 n bi e i
                    ED Hdirs Ef Ecall) as H.
      destruct (blobCacheDestination.PutBlob d stream0 inputInfo isConfig w) as [res w'].
      destruct H as (_ & Hheap & _ & Hfs & _). cbn [snd].
      split; [exact Hheap |]. split; [intros; now rewrite Hfs | intros _; exact Hfs].
Qed.

End PutBlobMore.

Section PutBlobTwice.
Context {I : Type}.
Implicit Types (w : world I) (d : blobCacheDestination.t I).

(** [PutBlob] does not change what the environment will answer. *)
Lemma PutBlob_keeps_environment d (stream0 : stream) (inputInfo : BlobInfo) (isConfig : bool) w :
  let w' := snd (blobCacheDestination.PutBlob d stream0 inputInfo isConfig w) in
  suffix w' = suffix w /\ tee_fault w' = tee_fault w.
Proof.
  cbv zeta.
  enough (H : exists w', snd (blobCacheDestination.PutBlob d stream0 inputInfo isConfig w) = w' /\
                         suffix w' = suffix w /\ tee_fault w' = tee_fault w)
    by (destruct H as (w' & -> & H); exact H).
  destruct (String.eqb (Digest inputInfo) "") eqn:ED.
  - apply String.eqb_eq in ED.
    destruct (dest_PutBlob (blobCacheDestination.destination d) stream0 inputInfo isConfig
                (inner w)) as [[[n bi] e] i] eqn:Ecall.
    rewrite (PutBlob_no_digest_run d stream0 inputInfo isConfig w n bi e i ED Ecall).
    eexists. split; [reflexivity |]. split; reflexivity.
  - apply String.eqb_neq in ED.
    destruct (contents (heap w)
                (blobCacheReference.directories (blobCacheDestination.reference d)))
      as [|directory0 rest] eqn:Hdirs.
    { rewrite PutBlob_no_directory_run by assumption.
      eexists. split; [reflexivity |]. split; reflexivity. }
    unfold blobCacheDestination.PutBlob. unfold bind at 1.
    rewrite (PutBlob_prepare_run d stream0 inputInfo isConfig w directory0 rest ED Hdirs).
    destruct (ioutil.tempfile_of w (primary directory0) (makeFilename (Digest inputInfo) isConfig))
      as [[f|] [e0|]]; cbv beta iota zeta.
    + unfold bind at 1. unfold call at 1.
      destruct (dest_PutBlob _ _ _ _ _) as [[[n bi] e] i].
      destruct e as [e|]; cbn [is_nil negb];
        repeat progress unfold bind, modify, ret, blobCacheReference.ImageName,
          blobCacheReference.StringWithinTransport, blobCacheReference.load, get;
        simpl; (eexists; split; [reflexivity |]); split; reflexivity.
    + unfold bind at 1. unfold call at 1.
      destruct (dest_PutBlob _ _ _ _ _) as [[[n bi] e] i].
      unfold io.tee_written, blobCacheDestination.PutBlob_deferred.
      destruct e as [e|]; cbn [is_nil negb];
        repeat progress unfold bind, modify, ret, os.Close, os.Remove, os.Rename,
          blobCacheReference.ImageName,
          blobCacheReference.StringWithinTransport, blobCacheReference.load, get;
        simpl; repeat case_match; simplify_eq;
        (eexists; split; [reflexivity |]); split; reflexivity.
    + unfold bind at 1. unfold call at 1.
      destruct (dest_PutBlob _ _ _ _ _) as [[[n bi] e] i].
      destruct e as [e|]; cbn [is_nil negb];
        repeat progress unfold bind, modify, ret, blobCacheReference.ImageName,
          blobCacheReference.StringWithinTransport, blobCacheReference.load, get;
        simpl; (eexists; split; [reflexivity |]); split; reflexivity.
    + eexists. split; [reflexivity |]. split; reflexivity.
Qed.

(** X9. The last write wins: when a blob is put twice under one digest
    and flag, and both calls go through, the cache holds the bytes of the
    second call, as if the first had not been made. The cache does not
    compare the bytes with the digest, so this is how a stale entry is
    replaced. *)
Theorem PutBlob_last_write_wins d (blob1 blob2 : list byte) (inputInfo : BlobInfo)
    (isConfig : bool) w directory0 rest n1 info1 i1 n2 info2 i2 :
  Digest inputInfo <> "" ->
  contents (heap w) (blobCacheReference.directories (blobCacheDestination.reference d))
  = directory0 :: rest ->
  healthy w -> nine_digits (suffix w) = true ->
  fs w !! ioutil.tempfile_name w (primary directory0) (makeFilename (Digest inputInfo) isConfig)
  = None ->
  dest_PutBlob (blobCacheDestination.destination d) {| data := blob1; rderr := None |}
               inputInfo isConfig (inner w) = ((n1, info1, None), i1) ->
  (length blob1 <= n1)%nat ->
  dest_PutBlob (blobCacheDestination.destination d) {| data := blob2; rderr := None |}
               inputInfo isConfig i1 = ((n2, info2, None), i2) ->
  (length blob2 <= n2)%nat ->
  let w1 := snd (blobCacheDestination.PutBlob d {| data := blob1; rderr := None |}
                   inputInfo isConfig w) in
  let '(res, w2) := blobCacheDestination.PutBlob d {| data := blob2; rderr := None |}
                      inputInfo isConfig w1 in
  res = Returns (info2, None) /\
  fs w2 = <[canonical directory0 (Digest inputInfo) isConfig := blob2]> (fs w).
Proof.
  intros HD Hdirs Hhealthy Hnine Hfree Hcall1 Hlen1 Hcall2 Hlen2. cbv zeta.
  destruct Hhealthy as [Hquiet Htee].
  set (prefix := makeFilename (Digest inputInfo) isConfig) in *.
  set (tmp := ioutil.tempfile_name w (primary directory0) prefix) in *.
  set (filename := canonical directory0 (Digest inputInfo) isConfig).
  assert (Hteed : forall (w0 : world I) (s : stream) name, tee_fault w0 = None -> io.teed w0 s name = s).
  { intros w0 s name H0. unfold io.teed. now rewrite H0. }
  assert (Htemp1 : ioutil.tempfile_of w (primary directory0) prefix
                   = (Some {| Name := tmp; bytes := [] |}, None)).
  { unfold ioutil.tempfile_of. fold tmp. now rewrite Hquiet, Hfree. }
  pose proof (PutBlob_keeps_environment d {| data := blob1; rderr := None |} inputInfo isConfig w)
    as Henv. cbv zeta in Henv.
  pose proof (PutBlob_cached_run d {| data := blob1; rderr := None |} inputInfo isConfig w
                directory0 rest {| Name := tmp; bytes := [] |} n1 info1 None i1 HD Hdirs Htemp1) as H1.
  rewrite (Hteed w _ _ Htee) in H1. specialize (H1 Hcall1). cbv zeta in H1.
  destruct (blobCacheDestination.PutBlob d {| data := blob1; rderr := None |} inputInfo isConfig w)
    as [res1 w1].
  cbn [snd] in Henv |- *. destruct Henv as [Hsuffix Htee1]. rewrite Htee in Htee1.
  destruct H1 as (_ & Hheap1 & Hinner1 & Hfaults1 & _ & Hfs1 & _).
  rewrite ?(Hteed w _ _ Htee) in Hfs1.
  cbn [is_nil Name data] in Hfs1. fold filename in Hfs1. rewrite Hquiet in Hfs1.
  rewrite (take_ge blob1 n1 Hlen1) in Hfs1.
  assert (Hname : ioutil.tempfile_name w1 (primary directory0) prefix = tmp).
  { unfold tmp, ioutil.tempfile_name. now rewrite Hsuffix. }
  assert (Hneq : tmp <> filename).
  { apply tempfile_name_not_canonical; assumption. }
  assert (Htemp2 : ioutil.tempfile_of w1 (primary directory0) prefix
                   = (Some {| Name := tmp; bytes := [] |}, None)).
  { unfold ioutil.tempfile_of. rewrite Hname, Hfaults1, Hquiet, Hfs1.
    rewrite lookup_insert_ne by congruence. now rewrite Hfree. }
  assert (Hdirs1 : contents (heap w1)
                     (blobCacheReference.directories (blobCacheDestination.reference d))
                   = directory0 :: rest) by now rewrite Hheap1.
  pose proof (PutBlob_cached_run d {| data := blob2; rderr := None |} inputInfo isConfig w1
                directory0 rest {| Name := tmp; bytes := [] |} n2 info2 None i2 HD Hdirs1 Htemp2) as H2.
  rewrite (Hteed w1 _ _ Htee1), Hinner1 in H2. specialize (H2 Hcall2). cbv zeta in H2.
  destruct (blobCacheDestination.PutBlob d {| data := blob2; rderr := None |} inputInfo isConfig w1)
    as [res2 w2].
  destruct H2 as (Hres & _ & _ & _ & _ & Hfs2 & _).
  rewrite ?(Hteed w1 _ _ Htee1) in Hfs2.
  cbn [is_nil Name data] in Hfs2. fold filename in Hfs2. rewrite Hfaults1, Hquiet in Hfs2.
  rewrite (take_ge blob2 n2 Hlen2) in Hfs2.
  split; [exact Hres |]. rewrite Hfs2, Hfs1. apply insert_insert_eq.
Qed.

End PutBlobTwice.

Section TemporaryFile.
Context {I : Type}.
Implicit Types (w : world I) (d : blobCacheDestination.t I).

(** X10. What becomes of the temporary file. After [PutBlob] the temporary
    file is gone: renamed to the cache name when the wrapped destination
    took the blob, removed when it did not. It stays behind only when that
    rename or removal is refused, and then it holds the bytes that went
    through the tee; a refused rename is not followed by a removal. *)
Theorem PutBlob_temporary_file_fate d (stream0 : stream) (inputInfo : BlobInfo)
    (isConfig : bool) w directory0 rest f :
  Digest inputInfo <> "" ->
  contents (heap w) (blobCacheReference.directories (blobCacheDestination.reference d))
  = directory0 :: rest ->
  ioutil.tempfile_of w (primary directory0) (makeFilename (Digest inputInfo) isConfig)
  = (Some f, None) ->
  nine_digits (suffix w) = true ->
  let tmp := Name f in
  let filename := canonical directory0 (Digest inputInfo) isConfig in
  let handed := io.teed w stream0 tmp in
  let '((n, newBlobInfo, e), i) :=
    dest_PutBlob (blobCacheDestination.destination d) handed inputInfo isConfig (inner w) in
  let w' := snd (blobCacheDestination.PutBlob d stream0 inputInfo isConfig w) in
  fs w' !! tmp =
  match (if is_nil e then faults w (SysRename tmp filename) else faults w (SysRemove tmp)) with
  | Some _ => Some (take n (data handed))
  | None => None
  end.
Proof.
  intros HD Hdirs Htemp Hnine. cbv zeta.
  destruct (dest_PutBlob (blobCacheDestination.destination d) (io.teed w stream0 (Name f))
              inputInfo isConfig (inner w)) as [[[n bi] e] i] eqn:Ecall.
  pose proof (PutBlob_cached_run d stream0 inputInfo isConfig w directory0 rest f n bi e i
                HD Hdirs Htemp Ecall) as H. cbv zeta in H.
  destruct (tempfile_of_created w _ _ f Htemp) as (Hf & _ & Hfree).
  assert (Hname : Name f = ioutil.tempfile_name w (primary directory0)
                             (makeFilename (Digest inputInfo) isConfig)) by now rewrite Hf.
  assert (Hneq : canonical directory0 (Digest inputInfo) isConfig <> Name f).
  { rewrite Hname. intros E. symmetry in E. revert E.
    now apply tempfile_name_not_canonical. }
  rewrite <- Hname in Hfree.
  destruct (blobCacheDestination.PutBlob d stream0 inputInfo isConfig w) as [res w'].
  destruct H as (_ & _ & _ & _ & _ & Hfs & _). cbn [snd]. rewrite Hfs.
  destruct (is_nil e).
  - destruct (faults w (SysRename (Name f) _)).
    + now rewrite lookup_insert_eq.
    + now rewrite lookup_insert_ne.
  - destruct (faults w (SysRemove (Name f))).
    + now rewrite lookup_insert_eq.
    + exact Hfree.
Qed.

End TemporaryFile.

(** ** Splitting and joining *)

Section SplitFacts.

Lemma lacks_app c a b : lacks c (a +:+ b) = lacks c a && lacks c b.
Proof.
  induction a as [|x a IH]; [reflexivity |].
  rewrite append_cons. simpl. rewrite IH. now rewrite andb_assoc.
Qed.

Lemma cut_at_lacks sep s : lacks sep s = true -> strings.cut_at sep s = None.
Proof.
  induction s as [|c s IH]; simpl; [reflexivity |].
  intros [Hc Hs]%andb_prop. apply negb_true_iff in Hc. rewrite Hc, (IH Hs). reflexivity.
Qed.

Lemma cut_at_app sep a b :
  lacks sep a = true -> strings.cut_at sep (a +:+ String sep b) = Some (a, b).
Proof.
  induction a as [|c a IH]; intros H.
  - rewrite append_nil. simpl. now rewrite Ascii.eqb_refl.
  - simpl in H. apply andb_prop in H as [Hc Ha]. apply negb_true_iff in Hc.
    rewrite append_cons. simpl. rewrite Hc, (IH Ha). reflexivity.
Qed.

Lemma Split_lacks sep s : lacks sep s = true -> strings.Split s sep = [s].
Proof.
  induction s as [|c s IH]; simpl; [reflexivity |].
  intros [Hc Hs]%andb_prop. apply negb_true_iff in Hc. rewrite Hc, (IH Hs). reflexivity.
Qed.

Lemma Split_app sep a b :
  lacks sep a = true -> strings.Split (a +:+ String sep b) sep = a :: strings.Split b sep.
Proof.
  induction a as [|c a IH]; intros H.
  - rewrite append_nil. simpl. now rewrite Ascii.eqb_refl.
  - simpl in H. apply andb_prop in H as [Hc Ha]. apply negb_true_iff in Hc.
    rewrite append_cons. simpl. rewrite Hc, (IH Ha). reflexivity.
Qed.

(** Splitting undoes joining, for elements without the separator. *)
Lemma Split_Join (elems : list string) :
  elems <> [] -> Forall (fun e => lacks "," e = true) elems ->
  strings.Split (strings.Join elems ",") "," = elems.
Proof.
  induction elems as [|e rest IH]; [congruence |]. intros _ Hall.
  inversion Hall as [|? ? He Hrest]; subst.
  destruct rest as [|e' rest].
  - simpl. now apply Split_lacks.
  - change (strings.Join (e :: e' :: rest) ",") with (e +:+ String "," (strings.Join (e' :: rest) ",")).
    rewrite Split_app by exact He. f_equal. apply IH; [congruence | exact Hrest].
Qed.

Lemma lacks_Join (elems : list string) :
  Forall (fun e => lacks ":" e = true) elems -> lacks ":" (strings.Join elems ",") = true.
Proof.
  induction elems as [|e rest IH]; intros Hall; [reflexivity |].
  inversion Hall as [|? ? He Hrest]; subst.
  destruct rest as [|e' rest]; [exact He |].
  change (strings.Join (e :: e' :: rest) ",") with (e +:+ String "," (strings.Join (e' :: rest) ",")).
  rewrite lacks_app, He. simpl. apply IH. exact Hrest.
Qed.

Lemma Join_empty (elems : list string) :
  elems <> [] -> strings.Join elems "," = "" -> elems = [""].
Proof.
  destruct elems as [|e [|e' rest]]; [congruence | simpl; now intros _ -> |].
  intros _ H.
  change (strings.Join (e :: e' :: rest) ",") with (e +:+ String "," (strings.Join (e' :: rest) ",")) in H.
  destruct e; [rewrite append_nil in H | rewrite append_cons in H]; discriminate.
Qed.

End SplitFacts.

Section SplitShape.

Lemma Split_nonempty sep s : strings.Split s sep <> [].
Proof.
  destruct s as [|c s]; simpl; [discriminate |].
  destruct (Ascii.eqb c sep); [discriminate |].
  destruct (strings.Split s sep); discriminate.
Qed.

(** Only the empty text splits into the single empty piece. *)
Lemma Split_single_empty sep s :
  s <> "" ->
  (length (strings.Split s sep) =? 1)%nat && String.eqb (nth 0 (strings.Split s sep) "") ""
  = false.
Proof.
  destruct s as [|c s]; [congruence |]. intros _. simpl.
  destruct (Ascii.eqb c sep).
  - pose proof (Split_nonempty sep s) as H.
    destruct (strings.Split s sep); [congruence | reflexivity].
  - destruct (strings.Split s sep) as [|h t]; apply andb_false_iff; right; reflexivity.
Qed.

End SplitShape.

(** ** [ParseReference] *)

Section ParseFacts.
Context {I : Type}.
Variable ParseImageName : string -> ImageReference + error.
Implicit Types (w : world I) (r : blobCacheReference.t).

Lemma SplitN_two_lacks (s : string) :
  lacks ":" s = true -> strings.SplitN s ":" 2 = [s].
Proof. intros H. simpl. now rewrite cut_at_lacks. Qed.

Lemma SplitN_two_app (a b : string) :
  lacks ":" a = true -> strings.SplitN (a +:+ ":" +:+ b) ":" 2 = [a; b].
Proof.
  intros H. simpl.
  change (a +:+ ":" +:+ b) with (a +:+ String ":" b).
  now rewrite cut_at_app.
Qed.

(** What [ParseReference] does with a directory list and a name that
    parses. *)
Lemma ParseReference_run (dirs rest : string) (ref : ImageReference) w :
  lacks ":" dirs = true -> ParseImageName rest = inl ref ->
  let l := fresh (dom (heap w)) in
  let elems := strings.Split dirs "," in
  let w1 := set_heap (<[l := elems]> (heap w)) w in
  ParseReference ParseImageName (dirs +:+ ":" +:+ rest) w =
  NewBlobCache ref
    (if (length elems =? 1)%nat && String.eqb (nth 0 elems "") ""
     then empty_slice else {| arr := l; off := 0; len := length elems |}) w1.
Proof.
  intros Hd HP. cbv zeta. unfold ParseReference.
  rewrite (SplitN_two_app dirs rest Hd).
  unfold bind at 1. unfold new_slice.
  unfold bind at 1. unfold get.
  rewrite HP.
  unfold contents. cbn [arr off len heap set_heap].
  rewrite lookup_insert_eq. cbn [drop]. rewrite firstn_all. reflexivity.
Qed.

(** A reference with directories before the first colon and a name that
    parses after it is accepted. *)
Lemma ParseReference_accepts (dirs rest : string) (ref : ImageReference) w :
  lacks ":" dirs = true -> dirs <> "" -> ParseImageName rest = inl ref ->
  exists r' w',
    ParseReference ParseImageName (dirs +:+ ":" +:+ rest) w = ((Some r', None), w') /\
    blobCacheReference.reference r' = ref /\
    contents (heap w') (blobCacheReference.directories r') = strings.Split dirs "," /\
    (arr (blobCacheReference.directories r') ∉ dom (heap w)) /\
    (forall s, arr s ∈ dom (heap w) -> contents (heap w') s = contents (heap w) s) /\
    fs w' = fs w.
Proof.
  intros Hd Hne HP.
  pose proof (ParseReference_run dirs rest ref w Hd HP) as E. cbv zeta in E. rewrite E. clear E.
  rewrite (Split_single_empty "," dirs Hne).
  set (elems := strings.Split dirs ",").
  assert (Helems : elems <> []) by apply Split_nonempty.
  set (l := fresh (dom (heap w))).
  set (split := {| arr := l; off := 0; len := length elems |}).
  set (w1 := set_heap (<[l := elems]> (heap w)) w).
  assert (Hl : l ∉ dom (heap w)) by apply is_fresh.
  assert (Hsplit : contents (heap w1) split = elems).
  { unfold contents, w1, split. cbn [arr off len heap set_heap].
    rewrite lookup_insert_eq. cbn [drop]. apply firstn_all. }
  unfold NewBlobCache.
  assert (Hlen : (len split =? 0)%nat = false).
  { apply Nat.eqb_neq. unfold split. cbn [len]. destruct elems; [congruence | simpl; lia]. }
  rewrite Hlen. unfold bind. rewrite copy_run, Hsplit. unfold ret.
  destruct (append_to_empty (heap w1) elems) as [s' h'] eqn:Ea.
  destruct (append_to_empty_spec (heap w1) elems s' h' Helems Ea) as (Hfresh & Hcont & Hkeep).
  assert (Hdom : dom (heap w1) = {[l]} ∪ dom (heap w)).
  { unfold w1. cbn [heap set_heap]. apply dom_insert_L. }
  eexists _, _. split; [reflexivity |].
  cbn [fst snd blobCacheReference.reference blobCacheReference.directories heap set_heap fs].
  split; [reflexivity |]. split; [exact Hcont |]. split; [| split; [| reflexivity]].
  - intros Hin. apply Hfresh. rewrite Hdom. apply elem_of_union. now right.
  - intros s Hs. rewrite Hkeep; [| rewrite Hdom; apply elem_of_union; now right].
    unfold contents, w1. cbn [heap set_heap].
    rewrite lookup_insert_ne; [reflexivity |]. intros Heq. apply Hl. now rewrite Heq.
Qed.

(** X11. What [ParseReference] makes of a text. Without a colon it is bad
    syntax. With one, the text before the first colon is the directory list
    and the text after it the wrapped reference's name: an error of
    [ParseImageName] for that name is handed on wrapped; with no directory
    before the colon the error is that of [NewBlobCache] for an empty list;
    and otherwise the reference is built over the directories between the
    commas, in an array of its own. No file is touched. *)
Theorem ParseReference_outcomes :
  (forall (reference : string) w,
      lacks ":" reference = true ->
      ParseReference ParseImageName reference w =
      ((None, Some (Errorf "error parsing reference for %q image %q: bad syntax"
                           ["blob-cache"; reference])), w)) /\
  (forall (dirs rest : string) (e : error) w,
      lacks ":" dirs = true -> ParseImageName rest = inr e ->
      let '(res, w') := ParseReference ParseImageName (dirs +:+ ":" +:+ rest) w in
      res = (None, Some (WithMessage "error parsing reference %q" [rest] e)) /\
      fs w' = fs w) /\
  (forall (rest : string) (ref : ImageReference) w,
      ParseImageName rest = inl ref ->
      let '(res, w') := ParseReference ParseImageName (":" +:+ rest) w in
      res = (None, Some (Errorf "error building cache: no cache directory specified for %q"
                                [transports.ImageName ref])) /\
      fs w' = fs w) /\
  (forall (dirs rest : string) (ref : ImageReference) w,
      lacks ":" dirs = true -> dirs <> "" -> ParseImageName rest = inl ref ->
      exists r' w',
        ParseReference ParseImageName (dirs +:+ ":" +:+ rest) w = ((Some r', None), w') /\
        blobCacheReference.reference r' = ref /\
        contents (heap w') (blobCacheReference.directories r') = strings.Split dirs "," /\
        (arr (blobCacheReference.directories r') ∉ dom (heap w)) /\
        fs w' = fs w).
Proof.
  split; [| split; [| split]].
  - intros reference w H. unfold ParseReference.
    rewrite (SplitN_two_lacks reference H). reflexivity.
  - intros dirs rest e w Hd HP. unfold ParseReference.
    rewrite (SplitN_two_app dirs rest Hd).
    unfold bind at 1. unfold new_slice.
    unfold bind at 1. unfold get. rewrite HP. unfold ret. simpl. auto.
  - intros rest ref w HP.
    change (":" +:+ rest) with ("" +:+ ":" +:+ rest).
    pose proof (ParseReference_run "" rest ref w eq_refl HP) as E. cbv zeta in E.
    rewrite E. simpl. unfold NewBlobCache. simpl. unfold ret. auto.
  - intros dirs rest ref w Hd Hne HP.
    destruct (ParseReference_accepts dirs rest ref w Hd Hne HP)
      as (r' & w' & H1 & H2 & H3 & H4 & _ & H5).
    exists r', w'. auto.
Qed.

(** X12. Printing and parsing round-trip: the text [StringWithinTransport]
    gives for a cached reference is parsed by [ParseReference] to a
    reference over the same wrapped reference and the same directories, in
    an array of its own, provided that no directory contains a colon or a
    comma, that the list is not the single empty name, and that
    [ParseImageName] reads the wrapped reference's name back. For the single
    empty name, which [PutBlob] takes for the working directory, the text
    starts with the colon and is refused. *)
Theorem ParseReference_StringWithinTransport r w :
  ParseImageName (transports.ImageName (blobCacheReference.reference r))
  = inl (blobCacheReference.reference r) ->
  let dirs := contents (heap w) (blobCacheReference.directories r) in
  let '(text, w0) := blobCacheReference.StringWithinTransport r w in
  w0 = w /\
  (dirs <> [] -> dirs <> [""] ->
   Forall (fun d => lacks ":" d = true /\ lacks "," d = true) dirs ->
   exists r' w',
     ParseReference ParseImageName text w = ((Some r', None), w') /\
     blobCacheReference.reference r' = blobCacheReference.reference r /\
     contents (heap w') (blobCacheReference.directories r') = dirs /\
     arr (blobCacheReference.directories r') <> arr (blobCacheReference.directories r) /\
     contents (heap w') (blobCacheReference.directories r) = dirs /\
     fs w' = fs w) /\
  (dirs = [""] ->
   fst (ParseReference ParseImageName text w) =
   (None, Some (Errorf "error building cache: no cache directory specified for %q"
                       [transports.ImageName (blobCacheReference.reference r)]))).
Proof.
  intros HP. cbv zeta.
  unfold blobCacheReference.StringWithinTransport, bind, blobCacheReference.load, get, ret.
  set (dirs := contents (heap w) (blobCacheReference.directories r)).
  split; [reflexivity |]. split.
  - intros Hne Hnot Hall.
    assert (Hcolon : lacks ":" (strings.Join dirs ",") = true).
    { apply lacks_Join. eapply Forall_impl; [exact Hall |]. now intros d [? ?]. }
    assert (Hsplit : strings.Split (strings.Join dirs ",") "," = dirs).
    { apply Split_Join; [exact Hne |]. eapply Forall_impl; [exact Hall |]. now intros d [? ?]. }
    assert (Htext : strings.Join dirs "," <> "").
    { intros E. apply Hnot. now apply Join_empty. }
    assert (Hr_dom : arr (blobCacheReference.directories r) ∈ dom (heap w)).
    { apply contents_nonempty_dom. exact Hne. }
    destruct (ParseReference_accepts (strings.Join dirs ",")
                (transports.ImageName (blobCacheReference.reference r))
                (blobCacheReference.reference r) w Hcolon Htext HP)
      as (r' & w' & H1 & H2 & H3 & H4 & H5 & H6).
    exists r', w'. rewrite Hsplit in H3.
    split; [exact H1 |]. split; [exact H2 |]. split; [exact H3 |].
    split; [| split; [| exact H6]].
    + intros Heq. apply H4. now rewrite Heq.
    + now apply H5.
  - intros Hd. rewrite Hd. simpl strings.Join.
    pose proof (ParseReference_run ""
                  (transports.ImageName (blobCacheReference.reference r))
                  (blobCacheReference.reference r) w eq_refl HP) as E.
    cbv zeta in E. rewrite E. reflexivity.
Qed.

End ParseFacts.

Section PrintAfterParse.
Context {I : Type}.
Variable ParseImageName : string -> ImageReference + error.
Implicit Types (w : world I).

(** Joining undoes splitting. *)
Lemma Join_Split (s : string) : strings.Join (strings.Split s ",") "," = s.
Proof.
  induction s as [|c s IH]; [reflexivity |]. simpl.
  pose proof (Split_nonempty "," s) as Hne.
  destruct (Ascii.eqb c ",") eqn:Ec.
  - apply Ascii.eqb_eq in Ec. subst c.
    destruct (strings.Split s ",") as [|h t]; [congruence |].
    change (strings.Join ("" :: h :: t) ",") with ("" +:+ "," +:+ strings.Join (h :: t) ",").
    rewrite IH. reflexivity.
  - destruct (strings.Split s ",") as [|h t]; [congruence |].
    destruct t as [|h' t].
    + simpl in IH |- *. now rewrite IH.
    + change (strings.Join (String c h :: h' :: t) ",")
        with (String c h +:+ "," +:+ strings.Join (h' :: t) ",").
      change (strings.Join (h :: h' :: t) ",")
        with (h +:+ "," +:+ strings.Join (h' :: t) ",") in IH.
      rewrite append_cons. now rewrite IH.
Qed.

(** X13. Parsing and printing round-trip: a text that [ParseReference]
    accepts is the text [StringWithinTransport] gives for the reference
    parsed from it, character for character, whenever the wrapped
    reference prints as the name it was parsed from. *)
Theorem StringWithinTransport_ParseReference (dirs rest : string) (ref : ImageReference) w :
  lacks ":" dirs = true -> dirs <> "" ->
  ParseImageName rest = inl ref -> transports.ImageName ref = rest ->
  exists r' w',
    ParseReference ParseImageName (dirs +:+ ":" +:+ rest) w = ((Some r', None), w') /\
    blobCacheReference.StringWithinTransport r' w' = (dirs +:+ ":" +:+ rest, w').
Proof.
  intros Hd Hne HP Hname.
  destruct (ParseReference_accepts ParseImageName dirs rest ref w Hd Hne HP)
    as (r' & w' & H1 & H2 & H3 & _).
  exists r', w'. split; [exact H1 |].
  unfold blobCacheReference.StringWithinTransport, bind, blobCacheReference.load, get, ret.
  now rewrite H3, H2, Hname, Join_Split.
Qed.

End PrintAfterParse.

(** ** [PutManifest] *)

Section PutManifestFacts.
Context {I : Type}.
Variable manifest_Digest : list byte -> digest.Digest * err.
Variable AtomicWriteFile : string -> list byte -> M I err.
Variable GuessMIMEType : list byte -> string.
Implicit Types (w : world I) (d : blobCacheDestination.t I).

(** [PutManifest], as an equation. *)
Lemma PutManifest_run d (dest_PutManifest : list byte -> I -> err * I)
    (manifestBytes : list byte) w :
  blobCacheDestination.PutManifest manifest_Digest AtomicWriteFile d dest_PutManifest
    manifestBytes w =
  let '(warned, w1) :=
    match contents (heap w)
            (blobCacheReference.directories (blobCacheDestination.reference d)) with
    | directory0 :: _ =>
        match manifest_Digest manifestBytes with
        | (_, Some e) =>
            ([Warnf "error digesting manifest %q: %v" [string_of_list_byte manifestBytes] e], w)
        | (manifestDigest, None) =>
            let filename := filepath.Join directory0 (makeFilename manifestDigest false) in
            let '(e, w1) := AtomicWriteFile filename manifestBytes w in
            (match e with
             | Some e => [Warnf "error saving manifest as %q: %v" [filename] e]
             | None => []
             end, w1)
        end
    | [] => ([], w)
    end in
  let '(e, i) := dest_PutManifest manifestBytes (inner w1) in
  ((e, warned), set_inner i w1).
Proof.
  unfold blobCacheDestination.PutManifest.
  unfold bind at 1. unfold blobCacheReference.load, get.
  unfold bind at 1.
  destruct (contents (heap w) _) as [|directory0 rest].
  - unfold ret, bind, call. destruct (dest_PutManifest manifestBytes (inner w)); reflexivity.
  - destruct (manifest_Digest manifestBytes) as [manifestDigest [e|]].
    + unfold ret, bind, call. destruct (dest_PutManifest manifestBytes (inner w)); reflexivity.
    + cbv zeta. unfold bind at 1.
      destruct (AtomicWriteFile _ manifestBytes w) as [[e|] w1];
        unfold ret, bind, call; destruct (dest_PutManifest manifestBytes (inner w1)); reflexivity.
Qed.

(** X14. Caching a manifest is best effort: [PutManifest] returns the error
    of the wrapped destination's [PutManifest] and nothing else, and the
    wrapped destination is called exactly as if there were no cache. A
    manifest that cannot be digested is not written anywhere, and a digest or
    write failure leaves a warning only. The file written is the one named
    after the manifest's digest, without [.config], in the first directory,
    as it is spelled: the empty name is not replaced here. (Assumed of
    [AtomicWriteFile]: it does not reach the wrapped destination.) *)
Theorem PutManifest_best_effort d (dest_PutManifest : list byte -> I -> err * I)
    (manifestBytes : list byte) w :
  (forall filename content w0, inner (snd (AtomicWriteFile filename content w0)) = inner w0) ->
  let '(e, i) := dest_PutManifest manifestBytes (inner w) in
  let '((res, warned), w') :=
    blobCacheDestination.PutManifest manifest_Digest AtomicWriteFile d dest_PutManifest
      manifestBytes w in
  res = e /\ inner w' = i /\
  match contents (heap w)
          (blobCacheReference.directories (blobCacheDestination.reference d)) with
  | [] => warned = [] /\ fs w' = fs w /\ trace w' = trace w
  | directory0 :: _ =>
      match manifest_Digest manifestBytes with
      | (_, Some ed) =>
          warned = [Warnf "error digesting manifest %q: %v"
                          [string_of_list_byte manifestBytes] ed] /\
          fs w' = fs w /\ trace w' = trace w
      | (manifestDigest, None) =>
          let filename := filepath.Join directory0 (makeFilename manifestDigest false) in
          let '(ew, w1) := AtomicWriteFile filename manifestBytes w in
          warned = match ew with
                   | Some ew => [Warnf "error saving manifest as %q: %v" [filename] ew]
                   | None => []
                   end /\
          fs w' = fs w1 /\ trace w' = trace w1
      end
  end.
Proof.
  intros Hinner. rewrite PutManifest_run.
  destruct (contents (heap w) _) as [|directory0 rest].
  - destruct (dest_PutManifest manifestBytes (inner w)) as [e i]. simpl. auto.
  - destruct (manifest_Digest manifestBytes) as [manifestDigest [ed|]].
    + destruct (dest_PutManifest manifestBytes (inner w)) as [e i]. simpl. auto.
    + cbv zeta.
      pose proof (Hinner (filepath.Join directory0 (makeFilename manifestDigest false))
                    manifestBytes w) as Hi.
      destruct (AtomicWriteFile _ manifestBytes w) as [ew w1]. cbn [snd] in Hi.
      rewrite Hi.
      destruct (dest_PutManifest manifestBytes (inner w)) as [e i]. simpl. auto.
Qed.

(** X15. A manifest that [PutManifest] cached is the one [GetManifest]
    serves: when [PutManifest] went through without a warning, a source over
    the same cached reference asked for the manifest's digest returns the
    bytes that were put, with the MIME type guessed from them, and the
    wrapped source is not asked. (Assumed of [AtomicWriteFile]: when it
    returns no error, the named file holds the bytes, and the directory lists
    and the environment are as before; and the read is not refused.) *)
Theorem PutManifest_then_GetManifest d (s : blobCacheSource.t I)
    (dest_PutManifest : list byte -> I -> err * I) (manifestBytes : list byte) w
    directory0 rest (dg : digest.Digest) e w' :
  (forall filename content w0 w1,
      AtomicWriteFile filename content w0 = (None, w1) ->
      fs w1 !! filename = Some content /\ heap w1 = heap w0 /\ faults w1 = faults w0) ->
  blobCacheSource.reference s = blobCacheDestination.reference d ->
  contents (heap w) (blobCacheReference.directories (blobCacheDestination.reference d))
  = directory0 :: rest ->
  manifest_Digest manifestBytes = (dg, None) ->
  blobCacheDestination.PutManifest manifest_Digest AtomicWriteFile d dest_PutManifest
    manifestBytes w = ((e, []), w') ->
  faults w (SysReadFile (manifest_path dg directory0)) = None ->
  let '(res, w'') := blobCacheSource.GetManifest GuessMIMEType s (Some dg) w' in
  res = (manifestBytes, GuessMIMEType manifestBytes, None) /\
  inner w'' = inner w' /\
  trace w'' = trace w' ++ [Sys (SysReadFile (manifest_path dg directory0))].
Proof.
  intros Hwrite Hs Hdirs Hdg Hput Hread.
  rewrite PutManifest_run, Hdirs, Hdg in Hput. cbv zeta in Hput.
  destruct (AtomicWriteFile _ manifestBytes w) as [[ew|] w1] eqn:Ew.
  { destruct (dest_PutManifest manifestBytes (inner w1)); discriminate. }
  destruct (Hwrite _ _ _ _ Ew) as (Hfile & Hheap & Hfaults).
  destruct (dest_PutManifest manifestBytes (inner w1)) as [e0 i].
  injection Hput as _ <-.
  unfold blobCacheSource.GetManifest. unfold bind at 1. unfold bind at 1.
  unfold blobCacheReference.load, get. rewrite Hs.
  change (heap (set_inner i w1)) with (heap w1). rewrite Hheap, Hdirs.
  simpl range. unfold bind at 1.
  assert (Hfound : manifest_found (set_inner i w1) dg directory0 = Some (manifestBytes, None)).
  { unfold manifest_found, ioutil.read_of. cbn [faults fs set_inner].
    rewrite Hfaults, Hread. fold (manifest_path dg directory0) in Hfile. rewrite Hfile.
    reflexivity. }
  rewrite (GetManifest_probe_decides GuessMIMEType dg (set_inner i w1) directory0 _ Hfound).
  unfold ret. simpl. auto.
Qed.

End PutManifestFacts.

Section ManifestAsBlob.
Context {I : Type}.
Variable manifest_Digest : list byte -> digest.Digest * err.
Variable AtomicWriteFile : string -> list byte -> M I err.
Implicit Types (w : world I) (d : blobCacheDestination.t I).

(** X16. Manifests and layers share the plain names: once [PutManifest]
    has cached a manifest, the cache answers for the manifest's digest as for
    a layer. [HasBlob] reports it present with the length of the manifest,
    and [GetBlob] serves the manifest's bytes, without asking the wrapped
    source. (Assumed: no call is refused, and [AtomicWriteFile] behaves as in
    X15.) *)
Theorem cached_manifest_answers_blob_lookups d (src : blobCacheSource.t I)
    (dest_PutManifest : list byte -> I -> err * I) (manifestBytes : list byte) w
    directory0 rest (dg : digest.Digest) e w' :
  (forall filename content w0 w1,
      AtomicWriteFile filename content w0 = (None, w1) ->
      fs w1 !! filename = Some content /\ heap w1 = heap w0 /\ faults w1 = faults w0) ->
  blobCacheSource.reference src = blobCacheDestination.reference d ->
  contents (heap w) (blobCacheReference.directories (blobCacheDestination.reference d))
  = directory0 :: rest ->
  manifest_Digest manifestBytes = (dg, None) -> dg <> "" ->
  blobCacheDestination.PutManifest manifest_Digest AtomicWriteFile d dest_PutManifest
    manifestBytes w = ((e, []), w') ->
  (forall c, faults w c = None) ->
  fst (blobCacheReference.HasBlob (blobCacheDestination.reference d)
         {| Digest := dg; Size := -1 |} w')
  = (true, Z.of_nat (length manifestBytes), None) /\
  fst (blobCacheSource.GetBlob src {| Digest := dg; Size := -1 |} w')
  = (Some {| data := manifestBytes; rderr := None |}, Z.of_nat (length manifestBytes), None).
Proof.
  intros Hwrite Hs Hdirs Hdg HD Hput Hquiet.
  rewrite PutManifest_run, Hdirs, Hdg in Hput. cbv zeta in Hput.
  destruct (AtomicWriteFile _ manifestBytes w) as [[ew|] w1] eqn:Ew.
  { destruct (dest_PutManifest manifestBytes (inner w1)); discriminate. }
  destruct (Hwrite _ _ _ _ Ew) as (Hfile & Hheap & Hfaults).
  destruct (dest_PutManifest manifestBytes (inner w1)) as [e0 i].
  injection Hput as _ <-.
  rewrite <- Hs.
  apply (first_directory_lookup src dg (-1) (set_inner i w1) directory0 rest false manifestBytes).
  - exact HD.
  - intros c. cbn [faults set_inner]. rewrite Hfaults. apply Hquiet.
  - cbn [heap set_inner]. now rewrite Hs, Hheap.
  - exact Hfile.
  - now left.
  - now left.
Qed.

End ManifestAsBlob.

(** The stand-in for [AtomicWriteFile] meets what X14, X15 and X16 assume. *)
Lemma standin_AtomicWriteFile_inner {I} (filename : string) (content : list byte) (w0 : world I) :
  inner (snd (standin.AtomicWriteFile filename content w0)) = inner w0.
Proof.
  unfold standin.AtomicWriteFile. unfold bind at 1. rewrite TempFile_run.
  destruct (tempfile_of_cases w0 "" ".tmp-manifest") as [[f Ef]|[e Ef]]; rewrite Ef; [| reflexivity].
  unfold bind, modify, os.Close, os.Rename, os.Remove, get, ret, modify, bind.
  cbn [fs set_fs emit faults].
  repeat case_match; simplify_eq; reflexivity.
Qed.

Lemma standin_AtomicWriteFile_writes {I} (filename : string) (content : list byte)
    (w0 w1 : world I) :
  standin.AtomicWriteFile filename content w0 = (None, w1) ->
  fs w1 !! filename = Some content /\ heap w1 = heap w0 /\ faults w1 = faults w0.
Proof.
  unfold standin.AtomicWriteFile. unfold bind at 1. rewrite TempFile_run.
  destruct (tempfile_of_cases w0 "" ".tmp-manifest") as [[f Ef]|[e Ef]]; rewrite Ef;
    [| discriminate].
  unfold bind, modify, os.Close, os.Rename, os.Remove, get, ret, modify, bind.
  cbn [fs set_fs emit faults].
  rewrite lookup_insert_eq.
  destruct (faults w0 (SysRename (Name f) filename)).
  - repeat case_match; simplify_eq; discriminate.
  - intros [= <-]. cbn [fs heap faults set_fs]. now rewrite lookup_insert_eq.
Qed.

(** ** Cache file names *)

(** X17. The cache names of distinct digests differ: under one flag
    [makeFilename] is injective in the digest. Across the flags two names
    meet only when the digest of the layer is the digest of the config
    followed by [.config]. *)
Theorem makeFilename_injective (D1 D2 : digest.Digest) (c1 c2 : bool) :
  makeFilename D1 c1 = makeFilename D2 c2 ->
  (c1 = c2 /\ D1 = D2) \/
  (c1 = true /\ c2 = false /\ D2 = D1 +:+ ".config") \/
  (c1 = false /\ c2 = true /\ D1 = D2 +:+ ".config").
Proof.
  unfold makeFilename. destruct c1, c2; intros H.
  - left. split; [reflexivity |].
    revert D2 H. induction D1 as [|a D1 IH]; intros [|b D2] H.
    + reflexivity.
    + rewrite append_nil, append_cons in H. injection H as _ H.
      apply (f_equal String.length) in H. rewrite append_length in H. simpl in H. lia.
    + rewrite append_nil, append_cons in H. injection H as _ H.
      apply (f_equal String.length) in H. rewrite append_length in H. simpl in H. lia.
    + rewrite !append_cons in H. injection H as -> H. f_equal. now apply IH.
  - right. left. auto.
  - right. right. auto.
  - left. auto.
Qed.

(** ** The further theorems at work *)

(** X2 on the old layer: asked with its size and with the size unknown. *)
Lemma HasBlob_unknown_size_weakest_witness :
  fst (blobCacheReference.HasBlob example.one_dir {| Digest := example.D; Size := 3 |}
         example.seasoned) = (true, 3, None) /\
  fst (blobCacheReference.HasBlob example.one_dir {| Digest := example.D; Size := -1 |}
         example.seasoned) = (true, 3, None).
Proof.
  assert (H : fst (blobCacheReference.HasBlob example.one_dir
                     {| Digest := example.D; Size := 3 |} example.seasoned) = (true, 3, None))
    by reflexivity.
  split; [exact H |].
  apply (HasBlob_unknown_size_weakest example.one_dir example.D 3 3 example.seasoned H).
Defined.

(** X9 on the empty cache: ["old"] and then ["hello"] are put as the
    layer of one digest. *)
Lemma PutBlob_last_write_wins_witness :
  healthy example.fresh /\
  (let w1 := snd (blobCacheDestination.PutBlob example.to_memory example.old
                    example.hello_info false example.fresh) in
   let '(res, w2) := blobCacheDestination.PutBlob example.to_memory example.hello
                       example.hello_info false w1 in
   res = Returns (example.hello_info, None) /\
   fs w2 = {[ "cache/sha256:ab" := bytes_of "hello" ]}).
Proof.
  assert (Hh : healthy example.fresh) by (split; reflexivity).
  split; [exact Hh |].
  pose proof (PutBlob_last_write_wins example.to_memory (bytes_of "old") (bytes_of "hello")
                example.hello_info false example.fresh "cache" [] 3%nat
                {| Digest := example.D; Size := 3 |} [(example.D, bytes_of "old")]
                5%nat example.hello_info
                [(example.D, bytes_of "hello"); (example.D, bytes_of "old")]) as H.
  cbv zeta in H |- *.
  specialize (H ltac:(discriminate) eq_refl Hh eq_refl eq_refl eq_refl
                ltac:(simpl; lia) eq_refl ltac:(simpl; lia)).
  change {| data := bytes_of "hello"; rderr := None |} with example.hello in H.
  change {| data := bytes_of "old"; rderr := None |} with example.old in H.
  revert H.
  destruct (blobCacheDestination.PutBlob example.to_memory example.hello example.hello_info false _)
    as [res w2].
  intros [Hres Hfs]. split; [exact Hres |]. rewrite Hfs. reflexivity.
Defined.

(** X11 with the stand-in parser: no colon at all, a name after the colon
    that does not parse, no directory before the colon, and a reference that
    is accepted. *)
Lemma ParseReference_outcomes_witness :
  fst (ParseReference standin.ParseImageName "cache" example.fresh)
  = (None, Some (Errorf "error parsing reference for %q image %q: bad syntax"
                        ["blob-cache"; "cache"])) /\
  fst (ParseReference standin.ParseImageName "cache:image" example.fresh)
  = (None, Some (WithMessage "error parsing reference %q" ["image"]
                   (Errorf "Invalid image name %q, expected colon-separated transport:reference"
                           ["image"]))) /\
  fst (ParseReference standin.ParseImageName ":dir:/srv/image" example.fresh)
  = (None, Some (Errorf "error building cache: no cache directory specified for %q"
                        ["dir:/srv/image"])) /\
  exists r' w',
    ParseReference standin.ParseImageName "a,,b:dir:/srv/image" example.fresh
    = ((Some r', None), w') /\
    contents (heap w') (blobCacheReference.directories r') = ["a"; ""; "b"].
Proof.
  pose proof (@ParseReference_outcomes memdest.state standin.ParseImageName)
    as (H1 & H2 & H3 & H4).
  split; [| split; [| split]].
  - rewrite (H1 "cache" example.fresh eq_refl). reflexivity.
  - pose proof (H2 "cache" "image" _ example.fresh eq_refl eq_refl) as H.
    change ("cache" +:+ ":" +:+ "image") with "cache:image" in H.
    destruct (ParseReference standin.ParseImageName "cache:image" example.fresh) as [res w'].
    exact (proj1 H).
  - pose proof (H3 "dir:/srv/image" example.image example.fresh eq_refl) as H.
    change (":" +:+ "dir:/srv/image") with ":dir:/srv/image" in H.
    destruct (ParseReference standin.ParseImageName ":dir:/srv/image" example.fresh) as [res w'].
    exact (proj1 H).
  - destruct (H4 "a,,b" "dir:/srv/image" example.image example.fresh eq_refl)
      as (r' & w' & Hp & _ & Hc & _); [discriminate | reflexivity |].
    exists r', w'. split; [exact Hp | exact Hc].
Defined.

(** X12 on the reference over ["first"] and ["second"]: its text is parsed
    back to the two directories. *)
Lemma ParseReference_StringWithinTransport_witness :
  fst (blobCacheReference.StringWithinTransport example.two_dirs example.fresh)
  = "first,second:dir:/srv/image" /\
  exists r' w',
    ParseReference standin.ParseImageName "first,second:dir:/srv/image" example.fresh
    = ((Some r', None), w') /\
    blobCacheReference.reference r' = example.image /\
    contents (heap w') (blobCacheReference.directories r') = ["first"; "second"].
Proof.
  split; [reflexivity |].
  pose proof (ParseReference_StringWithinTransport standin.ParseImageName
                example.two_dirs example.fresh eq_refl) as H.
  cbv zeta in H.
  change (blobCacheReference.StringWithinTransport example.two_dirs example.fresh)
    with ("first,second:dir:/srv/image", example.fresh) in H.
  change (contents (heap example.fresh) (blobCacheReference.directories example.two_dirs))
    with ["first"; "second"] in H.
  destruct H as (_ & H & _).
  destruct H as (r' & w' & Hp & Hr & Hc & _).
  - discriminate.
  - discriminate.
  - repeat constructor.
  - exists r', w'. auto.
Defined.

(** X7 on the reference built from the caller's two directories, after a
    call of [Directories] has added an array to the heap. *)
Lemma PutBlob_safe_after_NewBlobCache_witness :
  let w1 := snd (NewBlobCache example.image example.callers example.fresh) in
  let w2 := snd (blobCacheReference.Directories example.built w1) in
  valid (heap example.fresh) example.callers /\
  heap w2 <> heap w1 /\
  exists newBlobInfo e',
    fst (blobCacheDestination.PutBlob
           {| blobCacheDestination.reference := example.built;
              blobCacheDestination.destination := memdest.dest |}
           example.hello example.hello_info false w2)
    = Returns (newBlobInfo, e').
Proof.
  intros w1 w2.
  assert (Hvalid : valid (heap example.fresh) example.callers).
  { exists ["first"; "second"]. split; [reflexivity | simpl; lia]. }
  assert (E : NewBlobCache example.image example.callers example.fresh
              = ((Some example.built, None), w1)).
  { apply injective_projections; [vm_compute; reflexivity | reflexivity]. }
  assert (Hkept : heap w2 !! arr (blobCacheReference.directories example.built)
                  = heap w1 !! arr (blobCacheReference.directories example.built))
    by (vm_compute; reflexivity).
  split; [exact Hvalid |]. split.
  - intros Heq. apply (f_equal (fun h => h !! 4%nat)) in Heq.
    vm_compute in Heq. discriminate Heq.
  - apply (proj1 (@PutBlob_safe_after_NewBlobCache memdest.state)
             example.image example.callers example.fresh example.built None w1
             {| blobCacheDestination.reference := example.built;
                blobCacheDestination.destination := memdest.dest |}
             example.hello example.hello_info false w2 Hvalid E eq_refl Hkept).
Defined.

(** X8 on the world that holds the old layer: a config of the same digest
    is written beside it, and the layer's file is as it was. *)
Lemma PutBlob_touches_two_names_witness :
  contents (heap example.seasoned)
    (blobCacheReference.directories (blobCacheDestination.reference example.to_memory))
  = ["cache"] /\
  fs (snd (blobCacheDestination.PutBlob example.to_memory example.hello example.hello_info true
             example.seasoned)) !! "cache/sha256:ab"
  = Some (bytes_of "old").
Proof.
  split; [reflexivity |].
  pose proof (PutBlob_touches_two_names example.to_memory example.hello example.hello_info true
                example.seasoned "cache" [] eq_refl) as H.
  cbv zeta in H. destruct H as (_ & H & _).
  rewrite (H "cache/sha256:ab"); [reflexivity | vm_compute; discriminate | vm_compute; discriminate].
Defined.

(** X14 with the stand-ins: a manifest that cannot be digested is handed
    to the wrapped destination all the same, and nothing is written. *)
Lemma PutManifest_best_effort_witness :
  (forall filename content (w0 : world memdest.state),
      inner (snd (standin.AtomicWriteFile filename content w0)) = inner w0) /\
  (let '((res, warned), w') :=
     blobCacheDestination.PutManifest standin.manifest_Digest standin.AtomicWriteFile
       example.to_memory standin.PutManifest (bytes_of "!") example.fresh in
   res = None /\ inner w' = [("manifest", bytes_of "!")] /\
   warned = [Warnf "error digesting manifest %q: %v" ["!"]
                   (ErrorString "invalid signature")] /\
   fs w' = ∅).
Proof.
  split; [intros; apply standin_AtomicWriteFile_inner |].
  pose proof (PutManifest_best_effort standin.manifest_Digest standin.AtomicWriteFile
                example.to_memory standin.PutManifest (bytes_of "!") example.fresh
                (fun f c w0 => standin_AtomicWriteFile_inner f c w0)) as H.
  change (standin.PutManifest (bytes_of "!") (inner example.fresh)) with
    (@None error, [("manifest", bytes_of "!")]) in H.
  change (contents (heap example.fresh)
            (blobCacheReference.directories (blobCacheDestination.reference example.to_memory)))
    with ["cache"] in H.
  change (standin.manifest_Digest (bytes_of "!")) with ("", Some (ErrorString "invalid signature"))
    in H.
  cbv beta iota in H.
  revert H.
  destruct (blobCacheDestination.PutManifest standin.manifest_Digest standin.AtomicWriteFile
              example.to_memory standin.PutManifest (bytes_of "!") example.fresh)
    as [[res warned] w'].
  intros (H1 & H2 & H3 & H4 & _). auto.
Defined.

(** X15 with the stand-ins: the manifest ["hello"] is put and read back. *)
Lemma PutManifest_then_GetManifest_witness :
  let '((e, warned), w') :=
    blobCacheDestination.PutManifest standin.manifest_Digest standin.AtomicWriteFile
      example.to_memory standin.PutManifest (bytes_of "hello") example.fresh in
  warned = [] /\
  fs w' !! "cache/sha256:cd" = Some (bytes_of "hello") /\
  fst (blobCacheSource.GetManifest example.guess example.from_barren (Some "sha256:cd") w')
  = (bytes_of "hello", "application/vnd.docker.distribution.manifest.v2+json", None).
Proof.
  destruct (blobCacheDestination.PutManifest standin.manifest_Digest standin.AtomicWriteFile
              example.to_memory standin.PutManifest (bytes_of "hello") example.fresh)
    as [[e warned] w'] eqn:E.
  assert (Hw : warned = []).
  { apply (f_equal (fun x => snd (fst x))) in E. vm_compute in E. now rewrite <- E. }
  assert (Hf : fs w' !! "cache/sha256:cd" = Some (bytes_of "hello")).
  { apply (f_equal (fun x => fs (snd x) !! "cache/sha256:cd")) in E. cbn [snd] in E.
    rewrite <- E. vm_compute. reflexivity. }
  subst warned. split; [reflexivity |]. split; [exact Hf |].
  pose proof (PutManifest_then_GetManifest standin.manifest_Digest standin.AtomicWriteFile
                example.guess example.to_memory example.from_barren standin.PutManifest
                (bytes_of "hello") example.fresh "cache" [] "sha256:cd" e w'
                (fun f c w0 w1 => standin_AtomicWriteFile_writes f c w0 w1)
                eq_refl eq_refl eq_refl E eq_refl) as H.
  revert H.
  destruct (blobCacheSource.GetManifest _ _ _ w') as [res w''].
  intros (-> & _). reflexivity.
Defined.

(** X16 with the stand-ins: the manifest ["hello"] is served as a blob. *)
Lemma cached_manifest_answers_blob_lookups_witness :
  let w' := snd (blobCacheDestination.PutManifest standin.manifest_Digest
                   standin.AtomicWriteFile example.to_memory standin.PutManifest
                   (bytes_of "hello") example.fresh) in
  fst (blobCacheReference.HasBlob example.one_dir {| Digest := "sha256:cd"; Size := -1 |} w')
  = (true, 5, None) /\
  fst (blobCacheSource.GetBlob (@example.from_barren memdest.state)
         {| Digest := "sha256:cd"; Size := -1 |} w')
  = (Some {| data := bytes_of "hello"; rderr := None |}, 5, None).
Proof.
  cbv zeta.
  destruct (blobCacheDestination.PutManifest standin.manifest_Digest standin.AtomicWriteFile
              example.to_memory standin.PutManifest (bytes_of "hello") example.fresh)
    as [[e warned] w'] eqn:E.
  assert (Hw : warned = []).
  { apply (f_equal (fun x => snd (fst x))) in E. vm_compute in E. now rewrite <- E. }
  subst warned. cbn [snd].
  apply (cached_manifest_answers_blob_lookups standin.manifest_Digest standin.AtomicWriteFile
           example.to_memory example.from_barren standin.PutManifest
           (bytes_of "hello") example.fresh "cache" [] "sha256:cd" e w'
           (fun f c w0 w1 => standin_AtomicWriteFile_writes f c w0 w1)
           eq_refl eq_refl eq_refl).
  - discriminate.
  - exact E.
  - reflexivity.
Defined.

(** X17 where the flags meet: the config of ["sha256:ab"] and a layer
    whose digest ends in [.config]. *)
Lemma makeFilename_injective_witness :
  makeFilename "sha256:ab" true = makeFilename "sha256:ab.config" false /\
  ((true = false /\ "sha256:ab" = "sha256:ab.config") \/
   (true = true /\ false = false /\ "sha256:ab.config" = "sha256:ab" +:+ ".config") \/
   (true = false /\ false = true /\ "sha256:ab" = "sha256:ab.config" +:+ ".config")).
Proof.
  split; [reflexivity |].
  apply (makeFilename_injective "sha256:ab" "sha256:ab.config" true false eq_refl).
Defined.

(** X10 where the rename is refused: the five bytes stay under the
    temporary name. *)
Lemma PutBlob_temporary_file_fate_witness :
  let w := with_faults refusing_rename example.fresh in
  ioutil.tempfile_of w "cache" "sha256:ab" = (Some example.temporary, None) /\
  fs (snd (blobCacheDestination.PutBlob example.to_memory example.hello example.hello_info
             false w)) !! "cache/sha256:ab123456789"
  = Some (bytes_of "hello").
Proof.
  cbv zeta. split; [reflexivity |].
  pose proof (PutBlob_temporary_file_fate example.to_memory example.hello example.hello_info
                false (with_faults refusing_rename example.fresh) "cache" [] example.temporary
                ltac:(discriminate) eq_refl eq_refl eq_refl) as H.
  exact H.
Defined.

(** X13 with the stand-in parser. *)
Lemma StringWithinTransport_ParseReference_witness :
  exists r' w',
    ParseReference standin.ParseImageName "first,second:dir:/srv/image" example.fresh
    = ((Some r', None), w') /\
    blobCacheReference.StringWithinTransport r' w' = ("first,second:dir:/srv/image", w').
Proof.
  apply (StringWithinTransport_ParseReference standin.ParseImageName "first,second"
           "dir:/srv/image" example.image example.fresh eq_refl);
    [discriminate | reflexivity | reflexivity].
Defined.

(** X5 on the old layer. *)
Lemma GetBlob_size_is_stream_length_witness :
  fst (blobCacheSource.GetBlob (@example.from_barren memdest.state)
         {| Digest := example.D; Size := -1 |} example.seasoned)
  = (Some {| data := bytes_of "old"; rderr := None |}, 3, None).
Proof.
  destruct (GetBlob_size_is_stream_length (@example.from_barren memdest.state)
              {| Digest := example.D; Size := -1 |} 3 example.seasoned
              (fun _ => eq_refl) eq_refl) as (dc & content & Hfirst & _ & Hget & _).
  vm_compute in Hfirst. injection Hfirst as _ <-. exact Hget.
Defined.

(** The run of [TestBlobCache], on the quiet world: a layer, a config and
    the manifest are written through the cached destination, and the cache
    directory holds three files. *)
Example three_entries_after_a_copy :
  let w1 := snd (blobCacheDestination.PutBlob example.to_memory example.old
                   {| Digest := example.D; Size := 3 |} false example.fresh) in
  let w2 := snd (blobCacheDestination.PutBlob example.to_memory example.hello
                   {| Digest := "sha256:ef"; Size := 5 |} true w1) in
  let w3 := snd (blobCacheDestination.PutManifest standin.manifest_Digest
                   standin.AtomicWriteFile example.to_memory standin.PutManifest
                   (bytes_of "{}") w2) in
  fs w3 = {[ "cache/sha256:ab" := bytes_of "old";
             "cache/sha256:ef.config" := bytes_of "hello";
             "cache/sha256:cd" := bytes_of "{}" ]}.
Proof. vm_compute. reflexivity. Qed.
